(** * github-ccd: counting recent contributors of a GitHub organization

    A shallow embedding of [github-ccd.py] and the proofs of the properties
    its specification states.

    The script is a sequential REST client.  Everything it observes from the
    outside comes through three doors, and the embedding models each of them
    explicitly:

    - the HTTP responses, as a [feed] consumed one response per request;
    - the wall clock, read once per call of the contributor collector;
    - the file system, written once at the end of the run.

    Standard output is write-only, so it is modelled as the list of lines a
    computation has printed and is kept apart from the world state.

    A run ends in one of three ways: it returns, it raises an exception of
    Python, or it is still waiting for a response when the feed is over
    ([Pending]); a listing that never serves an empty page keeps the script
    paginating for ever, and every finite feed of such a listing ends in
    [Pending].

    What the model leaves out: [print] never fails; once the output file is
    open, writing to it does not fail; the JSON values are arrays of objects
    in which [name] and [login], when present, are strings and [author],
    when present, is [null] or an object; the arguments of the command line
    are taken as parsed. *)

From Stdlib Require Import List String Ascii ZArith Lia Bool Arith.
From Stdlib Require Import Permutation Sorted.
From Stdlib Require Import DecimalString Decimal DecimalNat.
Import ListNotations.

Open Scope string_scope.
Open Scope list_scope.

(** ** The Python runtime *)

(** [str.lower] is a Unicode table and the iteration order of a [set] of
    strings depends on the hash seed of the process: both are parameters.
    A set is represented by its elements in insertion order, and iterating
    it yields some rearrangement of them. *)
Class PyRuntime : Type := {
  str_lower : string -> string;
  set_iter : list string -> list string;
  set_iter_perm : forall l, Permutation (set_iter l) l
}.

(** [str(n)] for a non-negative [int]. *)
Definition str_of_nat (n : nat) : string :=
  NilZero.string_of_uint (Nat.to_uint n).

(** [sub in s] on strings. *)
Fixpoint str_contains (sub s : string) : bool :=
  String.prefix sub s ||
  match s with
  | EmptyString => false
  | String _ s' => str_contains sub s'
  end.

(** Truth value of a string: [""] is false. *)
Definition str_truthy (s : string) : bool :=
  match s with
  | EmptyString => false
  | String _ _ => true
  end.

(** *** [datetime]

    A naive [datetime] is the count of microseconds since
    1970-01-01T00:00:00 on the proleptic Gregorian calendar;
    [timedelta(days=n)] is the matching number of microseconds. *)
Definition timedelta_days (n : Z) : Z := (n * 86400 * 1000000)%Z.

Definition pad (width : nat) (n : Z) : string :=
  let digits := str_of_nat (Z.to_nat n) in
  string_of_list_ascii
    (repeat "0"%char (width - String.length digits)) ++ digits.

(** The civil date of a day number (days since 1970-01-01), as
    (year, month, day). *)
Definition civil_of_days (days : Z) : Z * Z * Z :=
  (let z := days + 719468 in
   let era := z / 146097 in
   let doe := z - era * 146097 in
   let yoe := (doe - doe / 1460 + doe / 36524 - doe / 146096) / 365 in
   let doy := doe - (365 * yoe + yoe / 4 - yoe / 100) in
   let mp := (5 * doy + 2) / 153 in
   let d := doy - (153 * mp + 2) / 5 + 1 in
   let m := if mp <? 10 then mp + 3 else mp - 9 in
   let y := yoe + era * 400 + (if m <=? 2 then 1 else 0) in
   (y, m, d))%Z.

(** [datetime.isoformat()]: [YYYY-MM-DDTHH:MM:SS], followed by [.ffffff]
    when the microsecond field is not zero. *)
Definition isoformat (t : Z) : string :=
  let day_us := timedelta_days 1 in
  let '(y, m, d) := civil_of_days (t / day_us) in
  let us_of_day := (t mod day_us)%Z in
  let secs := (us_of_day / 1000000)%Z in
  let us := (us_of_day mod 1000000)%Z in
  pad 4 y ++ "-" ++ pad 2 m ++ "-" ++ pad 2 d ++ "T" ++
  pad 2 (secs / 3600) ++ ":" ++ pad 2 ((secs / 60) mod 60) ++ ":" ++
  pad 2 (secs mod 60) ++
  (if (us =? 0)%Z then "" else "." ++ pad 6 us).

(** *** Sets and dicts of the script *)

Definition set_mem (x : string) (s : list string) : bool :=
  existsb (String.eqb x) s.

(** [s.add(x)] *)
Definition set_add (x : string) (s : list string) : list string :=
  if set_mem x s then s else s ++ [x].

(** A [dict] from [str] to [int] keeps its keys in insertion order. *)
Definition dict : Type := list (string * nat).

(** [d.get(k, default)] *)
Fixpoint dict_get (k : string) (default : nat) (d : dict) : nat :=
  match d with
  | [] => default
  | (k', v) :: d' => if String.eqb k k' then v else dict_get k default d'
  end.

(** [d[k] = v]: an existing key keeps its position, a new one goes last. *)
Fixpoint dict_set (k : string) (v : nat) (d : dict) : dict :=
  match d with
  | [] => [(k, v)]
  | (k', v') :: d' =>
      if String.eqb k k' then (k', v) :: d' else (k', v') :: dict_set k v d'
  end.

Definition dict_keys (d : dict) : list string := map fst d.

(** *** [csv.writer] with its default dialect

    Fields are joined by commas and the row ends in CR LF.  A field holding
    a comma, a double quote, a CR or a LF is enclosed in double quotes, with
    its own double quotes doubled (QUOTE_MINIMAL). *)
Definition dquote : ascii := "034"%char.
Definition crlf : string := String "013"%char (String "010"%char EmptyString).

Definition csv_special (c : ascii) : bool :=
  Ascii.eqb c ","%char || Ascii.eqb c dquote ||
  Ascii.eqb c "013"%char || Ascii.eqb c "010"%char.

Fixpoint csv_needs_quotes (s : string) : bool :=
  match s with
  | EmptyString => false
  | String c s' => csv_special c || csv_needs_quotes s'
  end.

Fixpoint csv_double_quotes (s : string) : string :=
  match s with
  | EmptyString => EmptyString
  | String c s' =>
      if Ascii.eqb c dquote
      then String c (String c (csv_double_quotes s'))
      else String c (csv_double_quotes s')
  end.

Definition csv_field (s : string) : string :=
  if csv_needs_quotes s
  then String dquote (csv_double_quotes s ++ String dquote EmptyString)
  else s.

(** [writer.writerow(fields)] for a row of two fields or more; a row made of
    one empty field is written differently and the script writes none. *)
Definition csv_row (fields : list string) : string :=
  String.concat "," (map csv_field fields) ++ crlf.

(** ** JSON as the script reads it

    The script reads one key of a repository object ([name]), one key of a
    commit object ([author], whose value is [null] or an object) and one key
    of an author object ([login]).  A JSON object is abstracted to these
    keys; each may be absent from its object, and subscripting an absent key
    raises [KeyError].

    What [commit['author']] stands for:
    - [AuthorMissing]: the commit object has no [author] key;
    - [AuthorNull]: the value is [null];
    - [AuthorObj login]: the value is an object with the key [login];
    - [AuthorEmpty]: the value is the empty object;
    - [AuthorNoLogin]: the value is an object that has keys, [login] not
      being one of them. *)
Inductive author_field : Type :=
| AuthorMissing
| AuthorNull
| AuthorObj (login : string)
| AuthorEmpty
| AuthorNoLogin.

(** The truth value of [commit['author']]: [None] and the empty dict are
    false, any other dict is true. *)
Definition author_truthy (a : author_field) : bool :=
  match a with
  | AuthorObj _ | AuthorNoLogin => true
  | _ => false
  end.

Record jobject : Type := {
  j_name : option string;
  j_author : author_field
}.

Definition repo_obj (n : string) : jobject :=
  {| j_name := Some n; j_author := AuthorMissing |}.

Definition commit_obj (a : author_field) : jobject :=
  {| j_name := None; j_author := a |}.

(** What one GET brings back: a transport failure ([requests.get] raises),
    a status that [raise_for_status] rejects, or a JSON array. *)
Inductive response : Type :=
| Transport (msg : string)
| HttpStatus (msg : string)
| Json (body : list jobject).

(** ** The world *)

Record request : Type := {
  req_url : string;
  req_authorization : string
}.

Record World : Type := {
  feed : list response;          (* responses still to come *)
  requests : list request;       (* requests issued so far, oldest first *)
  clock : nat -> Z;              (* local time once n requests were issued *)
  files : list (string * string);
  unwritable : list string       (* paths that cannot be opened for writing *)
}.

Definition now (w : World) : Z := clock w (List.length (requests w)).

Fixpoint file_lookup (path : string) (fs : list (string * string))
  : option string :=
  match fs with
  | [] => None
  | (p, c) :: fs' => if String.eqb path p then Some c else file_lookup path fs'
  end.

Fixpoint file_store (path content : string) (fs : list (string * string))
  : list (string * string) :=
  match fs with
  | [] => [(path, content)]
  | (p, c) :: fs' =>
      if String.eqb path p then (p, content) :: fs'
      else (p, c) :: file_store path content fs'
  end.

(** ** The monad of the script: world state, exceptions, printed lines *)

Inductive exn : Type :=
| RequestException (msg : string)
| KeyError (key : string)
| IOError (path : string).

(** [Pending]: the feed ran dry, the script is still waiting for a
    response. *)
Inductive outcome (A : Type) : Type :=
| Returned (a : A)
| Raised (e : exn)
| Pending.
Arguments Returned {A} a.
Arguments Raised {A} e.
Arguments Pending {A}.

Record run (A : Type) : Type := mkRun {
  res : outcome A;
  final : World;
  printed : list string
}.
Arguments mkRun {A} res final printed.
Arguments res {A} r.
Arguments final {A} r.
Arguments printed {A} r.

Definition M (A : Type) : Type := World -> run A.

Definition ret {A} (a : A) : M A := fun w => mkRun (Returned a) w [].

Definition raise {A} (e : exn) : M A := fun w => mkRun (Raised e) w [].

Definition bind {A B} (m : M A) (f : A -> M B) : M B :=
  fun w =>
    let r := m w in
    match res r with
    | Returned a =>
        let r' := f a (final r) in
        mkRun (res r') (final r') (printed r ++ printed r')
    | Raised e => mkRun (Raised e) (final r) (printed r)
    | Pending => mkRun Pending (final r) (printed r)
    end.

Notation "x <- m ;; k" := (bind m (fun x => k))
  (at level 61, m at next level, right associativity).
Notation "m ;; k" := (bind m (fun _ => k))
  (at level 61, right associativity).

Definition print (line : string) : M unit :=
  fun w => mkRun (Returned tt) w [line].

Definition when (b : bool) (m : M unit) : M unit :=
  if b then m else ret tt.

(** [try: m except ...: handler]; [handler e = None] when no clause matches
    [e], which then propagates. *)
Definition try_except {A} (m : M A) (handler : exn -> option (M A)) : M A :=
  fun w =>
    let r := m w in
    match res r with
    | Raised e =>
        match handler e with
        | Some h =>
            let r' := h (final r) in
            mkRun (res r') (final r') (printed r ++ printed r')
        | None => r
        end
    | _ => r
    end.

(** [for x in l: body], the body updating the locals [s]. *)
Fixpoint for_loop {A S} (l : list A) (body : A -> S -> M S) (s : S) : M S :=
  match l with
  | [] => ret s
  | x :: l' => s' <- body x s ;; for_loop l' body s'
  end.

Definition for_each {A} (l : list A) (body : A -> M unit) : M unit :=
  for_loop l (fun x _ => body x) tt.

Inductive loop_ctl (S : Type) : Type :=
| Continue (s : S)
| Break (s : S).
Arguments Continue {S} s.
Arguments Break {S} s.

Fixpoint while_fuel {S} (fuel : nat) (body : S -> M (loop_ctl S)) (s : S)
  : M S :=
  match fuel with
  | O => fun w => mkRun Pending w []
  | Datatypes.S n =>
      c <- body s ;;
      match c with
      | Break s' => ret s'
      | Continue s' => while_fuel n body s'
      end
  end.

(** [while True: body].  Both loops of the script issue one request per
    iteration, so an iteration count above the length of the feed is never
    exhausted before the feed is. *)
Definition while_true {S} (body : S -> M (loop_ctl S)) (s : S) : M S :=
  fun w => while_fuel (Datatypes.S (List.length (feed w))) body s w.

(** *** Primitive effects *)

(** [requests.get(url, headers=...)]: logs the request and takes the next
    response of the feed. *)
Definition requests_get (url authorization : string) : M response :=
  fun w =>
    match feed w with
    | [] => mkRun Pending w []
    | r :: rest =>
        let w' := {| feed := rest;
                     requests := requests w ++
                       [{| req_url := url;
                           req_authorization := authorization |}];
                     clock := clock w;
                     files := files w;
                     unwritable := unwritable w |} in
        match r with
        | Transport msg => mkRun (Raised (RequestException msg)) w' []
        | _ => mkRun (Returned r) w' []
        end
    end.

(** [datetime.now()] *)
Definition datetime_now : M Z := fun w => mkRun (Returned (now w)) w [].

Definition with_files (fs : list (string * string)) (w : World) : World :=
  {| feed := feed w; requests := requests w; clock := clock w;
     files := fs; unwritable := unwritable w |}.

(** [open(path, mode='w', newline='')]: fails on an unwritable path, and
    otherwise leaves the file empty. *)
Definition open_w (path : string) : M unit :=
  fun w =>
    if set_mem path (unwritable w)
    then mkRun (Raised (IOError path)) w []
    else mkRun (Returned tt) (with_files (file_store path "" (files w)) w) [].

(** Writing to the file opened at [path]. *)
Definition file_write (path text : string) : M unit :=
  fun w =>
    let old := match file_lookup path (files w) with
               | Some c => c
               | None => ""
               end in
    mkRun (Returned tt) (with_files (file_store path (old ++ text) (files w)) w) [].

(** [obj['name']] and [obj['author']] *)
Definition getitem_name (o : jobject) : M string :=
  match j_name o with
  | Some n => ret n
  | None => raise (KeyError "name")
  end.

Definition getitem_author (o : jobject) : M author_field :=
  match j_author o with
  | AuthorMissing => raise (KeyError "author")
  | a => ret a
  end.

(** [author['login']] for a value [author] that passed the truth test, hence
    a dict with a key at least. *)
Definition getitem_login (a : author_field) : M string :=
  match a with
  | AuthorObj login => ret login
  | _ => raise (KeyError "login")
  end.

(** ** The script *)

Section Script.

Context {py : PyRuntime}.

Definition get_github_api (url token : string) (debug : bool)
  : M (list jobject) :=
  response <- requests_get url ("token " ++ token) ;;
  when debug (print ("Requesting URL: " ++ url)) ;;
  match response with
  | Json body => ret body
  | HttpStatus msg => raise (RequestException msg)
  | Transport msg => raise (RequestException msg)
  end.

Definition repos_url (base_url org : string) (page : nat) : string :=
  base_url ++ "/orgs/" ++ org ++ "/repos?page=" ++ str_of_nat page
    ++ "&per_page=100".

(** [exclude_filter and exclude_filter.lower() in repo_name.lower()] *)
Definition excluded (exclude_filter repo_name : string) : bool :=
  str_truthy exclude_filter &&
  str_contains (str_lower exclude_filter) (str_lower repo_name).

Record lister_locals : Type := {
  repos : list string;
  page : nat;
  total_fetched_repos : nat
}.

(** One iteration of the loop of [get_repositories].  The only statement of
    the [try] block that can raise a [RequestException] is the first one, so
    when the handler runs the locals are those of the start of the
    iteration. *)
Definition lister_step (org token base_url exclude_filter : string)
    (debug : bool) (st : lister_locals) : M (loop_ctl lister_locals) :=
  let url := repos_url base_url org (page st) in
  try_except
    (result <- get_github_api url token debug ;;
     let fetched_repos_count := List.length result in
     let total := total_fetched_repos st + fetched_repos_count in
     when debug
       (print ("Fetched " ++ str_of_nat fetched_repos_count
                 ++ " repositories on page " ++ str_of_nat (page st) ++ ".") ;;
        for_each result (fun repo =>
          n <- getitem_name repo ;; print ("Repo name: " ++ n))) ;;
     match result with
     | [] => ret (Break {| repos := repos st; page := page st;
                           total_fetched_repos := total |})
     | _ =>
         repos' <- for_loop result (fun repo acc =>
                     repo_name <- getitem_name repo ;;
                     if excluded exclude_filter repo_name
                     then ret acc
                     else ret (acc ++ [repo_name])) (repos st) ;;
         ret (Continue {| repos := repos'; page := page st + 1;
                          total_fetched_repos := total |})
     end)
    (fun e =>
       match e with
       | RequestException msg =>
           Some (print ("Error fetching repositories: " ++ msg) ;;
                 ret (Break st))
       | _ => None
       end).

Definition get_repositories (org token base_url exclude_filter : string)
    (debug : bool) : M (list string) :=
  st <- while_true (lister_step org token base_url exclude_filter debug)
          {| repos := []; page := 1; total_fetched_repos := 0 |} ;;
  when debug
    (print ("Total repositories fetched: "
              ++ str_of_nat (total_fetched_repos st)) ;;
     print ("Total repositories found (after filtering): "
              ++ str_of_nat (List.length (repos st)))) ;;
  ret (repos st).

Definition commits_url (base_url org repo since_date : string) (page : nat)
  : string :=
  base_url ++ "/repos/" ++ org ++ "/" ++ repo ++ "/commits?since="
    ++ since_date ++ "&page=" ++ str_of_nat page ++ "&per_page=100".

Record collector_locals : Type := {
  contributors : list string;
  commit_page : nat
}.

Definition collector_step (org repo token base_url : string) (debug : bool)
    (since_date : string) (st : collector_locals)
  : M (loop_ctl collector_locals) :=
  let url := commits_url base_url org repo since_date (commit_page st) in
  commits <- get_github_api url token debug ;;
  match commits with
  | [] => ret (Break st)
  | _ =>
      contributors' <- for_loop commits (fun commit acc =>
          a <- getitem_author commit ;;
          if author_truthy a
          then
            login <- getitem_login a ;;
            when debug
              (print ("Added contributor '" ++ login
                        ++ "' from repository '" ++ repo ++ "'.")) ;;
            ret (set_add login acc)
          else ret acc) (contributors st) ;;
      let page' := commit_page st + 1 in
      when debug
        (print ("Processed page " ++ str_of_nat page'
                  ++ " of commits for repository '" ++ repo ++ "'.")) ;;
      ret (Continue {| contributors := contributors';
                       commit_page := page' |})
  end.

(** The cutoff is computed once per call, before the loop. *)
Definition since_of (t : Z) : string := isoformat (t - timedelta_days 90).

Definition get_recent_contributors (org repo token base_url : string)
    (debug : bool) : M (list string) :=
  t <- datetime_now ;;
  let since_date := since_of t in
  st <- while_true (collector_step org repo token base_url debug since_date)
          {| contributors := []; commit_page := 1 |} ;;
  ret (contributors st).

Definition header : list string := ["Developer"; "Number of Repos"].

Definition write_to_csv (contributors_repo_count : dict) (filename : string)
    (debug : bool) : M unit :=
  open_w filename ;;
  file_write filename (csv_row header) ;;
  for_each contributors_repo_count (fun '(developer, count) =>
    file_write filename (csv_row [developer; str_of_nat count]) ;;
    when debug
      (print ("Wrote developer '" ++ developer ++ "' with count "
                ++ str_of_nat count ++ " to CSV."))) ;;
  when debug (print ("CSV file '" ++ filename ++ "' has been created.")).

Record Args : Type := {
  token : string;
  org : string;
  github_url : string;
  exclude : string;
  output_csv : string;
  debug : bool
}.

(** [contributors_repo_count[c] = contributors_repo_count.get(c, 0) + 1] *)
Definition bump (contributor : string) (d : dict) : dict :=
  dict_set contributor (dict_get contributor 0 d + 1) d.

(** The inner loop of [main]: one contributor set folded into the counts. *)
Definition accumulate (debug : bool) (contributors : list string) (d : dict)
  : M dict :=
  for_loop (set_iter contributors) (fun contributor d =>
    let d' := bump contributor d in
    when debug
      (print ("Updating count for contributor '" ++ contributor ++ "'.")) ;;
    ret d') d.

(** The outer loop of [main], over the repositories of the lister. *)
Definition aggregate (args : Args) (repos : list string) (d : dict)
  : M dict :=
  for_loop repos (fun repo d =>
    contributors <- get_recent_contributors (org args) repo (token args)
                      (github_url args) (debug args) ;;
    accumulate (debug args) contributors d) d.

Definition summary_line (org : string) (count : nat) : string :=
  "Total unique developers in " ++ org
    ++ " who have committed in the past 90 days: " ++ str_of_nat count.

Definition main (args : Args) : M unit :=
  repos <- get_repositories (org args) (token args) (github_url args)
             (exclude args) (debug args) ;;
  contributors_repo_count <- aggregate args repos [] ;;
  print (summary_line (org args) (List.length contributors_repo_count)) ;;
  write_to_csv contributors_repo_count (output_csv args) (debug args).

End Script.

(** * The vocabulary of the properties *)

(** ** Strings *)

(** [sub] occurs in [s]: some characters of [s], then [sub], then the rest
    of [s]. *)
Definition occurs_in (sub s : string) : Prop :=
  exists before after : string, s = (before ++ sub ++ after)%string.

(** [sub] occurs case-insensitively in [name]: lowered, it occurs in the
    lowered name. *)
Definition occurs_case_insensitively {py : PyRuntime} (sub name : string)
  : Prop :=
  occurs_in (str_lower sub) (str_lower name).

(** ** Runs *)

(** [inert m]: running [m] changes nothing in the world (it may print, and
    it may raise). *)
Definition inert {A} (m : M A) : Prop := forall w, final (m w) = w.

Definition ctl_state {S} (c : loop_ctl S) : S :=
  match c with
  | Continue s => s
  | Break s => s
  end.

(** The world once [url] was requested and the head of the feed consumed. *)
Definition sent (url token : string) (rest : list response) (w : World)
  : World :=
  {| feed := rest;
     requests := requests w ++
       [{| req_url := url; req_authorization := "token " ++ token |}];
     clock := clock w;
     files := files w;
     unwritable := unwritable w |}.

(** The world once [reqs] were issued and the feed is down to [rest]. *)
Definition after_requests (reqs : list request) (rest : list response)
    (w : World) : World :=
  {| feed := rest;
     requests := requests w ++ reqs;
     clock := clock w;
     files := files w;
     unwritable := unwritable w |}.

Definition debug_lines (debug : bool) (lines : list string) : list string :=
  if debug then lines else [].

(** [issues P m]: all [m] does to the world is to issue requests, each
    satisfying [P], and to consume responses. *)
Definition issues {A} (P : request -> Prop) (m : M A) : Prop :=
  forall w, exists reqs rest,
    Forall P reqs /\ final (m w) = after_requests reqs rest w.

(** [m1 =~= m2]: from any world, [m1] and [m2] end with the same outcome in
    the same world.  They may differ in what they print. *)
Definition same_effect {A} (m1 m2 : M A) : Prop :=
  forall w, res (m1 w) = res (m2 w) /\ final (m1 w) = final (m2 w).

Infix "=~=" := same_effect (at level 70, no associativity).

(** [silent m]: [m] prints and does nothing else. *)
Definition silent (m : M unit) : Prop := m =~= ret tt.

(** The arguments of a run with the debug flag turned off. *)
Definition without_debug (args : Args) : Args :=
  {| token := token args; org := org args; github_url := github_url args;
     exclude := exclude args; output_csv := output_csv args;
     debug := false |}.

(** ** Pages of the repository listing *)

Definition has_name (o : jobject) : Prop := j_name o <> None.

(** The names carried by the objects of a page, in page order. *)
Definition page_names (body : list jobject) : list string :=
  flat_map (fun o => match j_name o with Some n => [n] | None => [] end) body.

(** A page of the repository listing that is not the last one: it is not
    empty and each of its objects has a name. *)
Definition repo_page (body : list jobject) : Prop :=
  body <> [] /\ Forall has_name body.

(** A response that ends a pagination: a failure or an empty page. *)
Definition stops (r : response) : Prop :=
  match r with
  | Json (_ :: _) => False
  | _ => True
  end.

(** What the filter keeps of a sequence of names. *)
Definition kept {py : PyRuntime} (exclude_filter : string)
    (names : list string) : list string :=
  filter (fun n => negb (excluded exclude_filter n)) names.

(** The request for a page of the repository listing. *)
Definition repos_request (org token base_url : string) (page : nat)
  : request :=
  {| req_url := repos_url base_url org page;
     req_authorization := "token " ++ token |}.

(** ** Pages of a commit listing *)

(** The key the collector finds missing in a commit object, if any: the
    [author] key of the commit or, when the author is an object with keys,
    its [login] key. *)
Definition missing_key (o : jobject) : option string :=
  match j_author o with
  | AuthorMissing => Some "author"
  | AuthorNoLogin => Some "login"
  | _ => None
  end.

(** A commit object the collector reads without a [KeyError]: it has the
    [author] key and, when the value of the key is an object with keys,
    [login] is one of them. *)
Definition has_author (o : jobject) : Prop := missing_key o = None.

(** The logins of the commits of a page that carry an author with a login,
    in page order. *)
Definition page_logins (body : list jobject) : list string :=
  flat_map (fun o => match j_author o with
                     | AuthorObj login => [login]
                     | _ => []
                     end) body.

(** A page of a commit listing that is not the last one: it is not empty and
    each of its commits has the [author] key, with a [login] in it unless
    the author is [null] or the empty object. *)
Definition authored_page (body : list jobject) : Prop :=
  body <> [] /\ Forall has_author body.

(** Adding logins to a set, one after the other. *)
Definition add_all (logins acc : list string) : list string :=
  fold_left (fun acc login => set_add login acc) logins acc.

(** The request for a page of the commit listing of [repo]. *)
Definition commits_request (org repo token base_url since_date : string)
    (page : nat) : request :=
  {| req_url := commits_url base_url org repo since_date page;
     req_authorization := "token " ++ token |}.

(** The requests of one call of the collector carry the cutoff it was given
    and nothing else varies but the page. *)
Definition commits_request_at (org repo token base_url since_date : string)
    (r : request) : Prop :=
  exists page, r = commits_request org repo token base_url since_date page.

(** The body of the loop over the commits of a page, as it stands in
    [collector_step]. *)
Definition add_author (repo : string) (debug : bool) (commit : jobject)
    (acc : list string) : M (list string) :=
  a <- getitem_author commit ;;
  if author_truthy a
  then
    login <- getitem_login a ;;
    when debug
      (print ("Added contributor '" ++ login
                ++ "' from repository '" ++ repo ++ "'.")) ;;
    ret (set_add login acc)
  else ret acc.

(** What a call of the collector comes to when the response [stop] follows
    the full pages of the listing. *)
Definition collector_outcome (stop : response) (logins : list string)
  : outcome (list string) :=
  match stop with
  | Json _ => Returned (add_all logins [])
  | Transport msg => Raised (RequestException msg)
  | HttpStatus msg => Raised (RequestException msg)
  end.

(** ** Counts *)

(** The elements of a list in the order of their first occurrence. *)
Fixpoint first_seen (l : list string) : list string :=
  match l with
  | [] => []
  | x :: l' => x :: filter (fun y => negb (String.eqb x y)) (first_seen l')
  end.

(** One contributor set folded into the counts, without the printing. *)
Definition tally_one (contributors : list string) (d : dict) : dict :=
  fold_left (fun d c => bump c d) contributors d.

(** All the contributor sets of a run folded into the counts. *)
Definition tally {py : PyRuntime} (sets : list (list string)) (d : dict)
  : dict :=
  fold_left (fun d cs => tally_one (set_iter cs) d) sets d.

(** How many of the sets hold [login]. *)
Definition times_listed (login : string) (sets : list (list string)) : nat :=
  List.length (filter (set_mem login) sets).

(** The contributor sets of a run: what the collector returns for each
    entry of the repository list in turn, each call starting in the world the
    previous one left.  [None] when one of the calls does not return. *)
Fixpoint contributor_sets (args : Args) (repos : list string) (w : World)
  : option (list (list string)) :=
  match repos with
  | [] => Some []
  | repo :: rest =>
      let r := get_recent_contributors (org args) repo (token args)
                 (github_url args) (debug args) w in
      match res r with
      | Returned cs =>
          match contributor_sets args rest (final r) with
          | Some sets => Some (cs :: sets)
          | None => None
          end
      | _ => None
      end
  end.

(** ** The text of the CSV file *)

(** The rows [write_to_csv] writes after the header row: one per entry of
    the dict, in the order of the dict. *)
Definition csv_rows (d : dict) : string :=
  String.concat ""
    (map (fun '(developer, count) => csv_row [developer; str_of_nat count]) d).

Definition csv_text (d : dict) : string := (csv_row header ++ csv_rows d)%string.

(** ** A concrete runtime and sample inputs *)

(** ASCII lowering, the behaviour of [str.lower] on ASCII text. *)
Definition ascii_lower (c : ascii) : ascii :=
  let n := nat_of_ascii c in
  if Nat.leb 65 n && Nat.leb n 90 then ascii_of_nat (n + 32) else c.

Fixpoint lower_ascii (s : string) : string :=
  match s with
  | EmptyString => EmptyString
  | String c s' => String (ascii_lower c) (lower_ascii s')
  end.

(** A runtime whose sets iterate in insertion order. *)
Definition ascii_runtime : PyRuntime :=
  {| str_lower := lower_ascii;
     set_iter := fun l => l;
     set_iter_perm := fun l => Permutation_refl l |}.

(** A runtime whose sets iterate in reverse insertion order. *)
Definition reversing_runtime : PyRuntime :=
  {| str_lower := lower_ascii;
     set_iter := @List.rev string;
     set_iter_perm := fun l => Permutation_sym (Permutation_rev l) |}.

(** A fresh world: nothing requested yet, no file. *)
Definition world_of (responses : list response) (tick : nat -> Z)
    (locked : list string) : World :=
  {| feed := responses; requests := []; clock := tick;
     files := []; unwritable := locked |}.

Definition commit_by (login : string) : jobject :=
  commit_obj (AuthorObj login).

Definition sample_args (exclude_filter out : string) (dbg : bool) : Args :=
  {| token := "t0ken"; org := "acme";
     github_url := "https://api.github.com";
     exclude := exclude_filter; output_csv := out; debug := dbg |}.

(** The clock of the samples: 2026-11-03T10:00:00, and one more second for
    each request issued. *)
Definition ticking (n : nat) : Z :=
  (1793700000000000 + Z.of_nat n * 1000000)%Z.

(** The end-to-end scenario of the specification: repositories [api],
    [api-legacy] and [web]; [alice] and [bob] commit to [api], [alice] to
    [web]. *)
Definition scenario_feed : list response :=
  [ Json [repo_obj "api"; repo_obj "api-legacy"; repo_obj "web"];
    Json [];
    Json [commit_by "alice"; commit_by "bob"; commit_by "alice"];
    Json [];
    Json [commit_by "alice"];
    Json [] ].

Definition scenario_args : Args := sample_args "legacy" "out.csv" false.

Definition scenario_world : World := world_of scenario_feed ticking [].

(** A page of exactly a hundred objects. *)
Definition full_page : list jobject :=
  repeat {| j_name := Some "repo"; j_author := AuthorObj "alice" |} 100.

(** Three repositories, the commit listing of the second one failing. *)
Definition failing_feed : list response :=
  [ Json [repo_obj "api"; repo_obj "db"; repo_obj "web"];
    Json [];
    Json [commit_by "alice"];
    Json [];
    HttpStatus "502 Server Error: Bad Gateway";
    Json [commit_by "bob"];
    Json [] ].

(** A listing that returns the repository [api] on two pages, as happens
    when the organization changes while it is being paginated. *)
Definition repeated_feed : list response :=
  [ Json [repo_obj "api"];
    Json [repo_obj "api"];
    Json [];
    Json [commit_by "alice"];
    Json [];
    Json [commit_by "alice"];
    Json [] ].

(** ** Further vocabulary *)

(** [prompt m]: [m] never waits for a response. *)
Definition prompt {A} (m : M A) : Prop := forall w, res (m w) <> Pending.

(** A request that goes to the configured API and carries the token in its
    [Authorization] header. *)
Definition addressed (token base_url : string) (r : request) : Prop :=
  req_authorization r = ("token " ++ token)%string
  /\ String.prefix base_url (req_url r) = true.

(** A request for a page of the commits of one of [listed]. *)
Definition commits_request_of (org token base_url : string)
    (listed : list string) (r : request) : Prop :=
  exists repo since_date page,
    In repo listed
    /\ r = commits_request org repo token base_url since_date page.

(** The sum of the counts of a dict. *)
Definition dict_total (d : dict) : nat := list_sum (map snd d).

(** A page one object of which has no [name] key. *)
Definition nameless_page (body : list jobject) : Prop :=
  Exists (fun o => j_name o = None) body.

(** ** The cutoff of the commit listing *)

(** A clock that advances from one request to the next. *)
Definition advancing (clk : nat -> Z) : Prop :=
  forall i j, i < j -> (clk i < clk j)%Z.

(** The requests of a call of the collector that began at time [t] and went
    through [n] pages. *)
Definition collector_requests (args : Args) (repo : string) (t : Z) (n : nat)
  : list request :=
  map (commits_request (org args) repo (token args) (github_url args)
         (since_of t)) (seq 1 n).

(** The times at which the collector is called in an aggregation loop that
    starts once [n] requests were issued, its calls issuing [pages] requests
    one after the other: each call reads the clock after the requests of the
    calls before it. *)
Fixpoint invocation_times (clk : nat -> Z) (n : nat) (pages : list nat)
  : list Z :=
  match pages with
  | [] => []
  | p :: pages' => clk n :: invocation_times clk (n + p) pages'
  end.

(** The requests of the aggregation loop: for each repository in turn, the
    requests of its call of the collector. *)
Fixpoint loop_requests (args : Args) (repos : list string) (times : list Z)
    (pages : list nat) : list request :=
  match repos, times, pages with
  | repo :: repos', t :: times', p :: pages' =>
      collector_requests args repo t p
        ++ loop_requests args repos' times' pages'
  | _, _, _ => []
  end.

(** *** Reading an ISO date back *)

(** [datetime.min], 0001-01-01T00:00:00, in microseconds since 1970. *)
Definition datetime_min : Z := (-719162 * 86400 * 1000000)%Z.

(** The day number of a civil date, the inverse of [civil_of_days]. *)
Definition days_of_civil (y m d : Z) : Z :=
  (let y' := if m <=? 2 then y - 1 else y in
   let era := y' / 400 in
   let yoe := y' - era * 400 in
   let mp := if m <=? 2 then m + 9 else m - 3 in
   let doy := (153 * mp + 2) / 5 + d - 1 in
   let doe := yoe * 365 + yoe / 4 - yoe / 100 + doy in
   era * 146097 + doe - 719468)%Z.

(** The ranges of the intermediate values of [civil_of_days] for the day
    [doe] of a 400-year era: the year of the era, the month counted from
    March and the day of the month. *)
Definition era_day_in_range (doe : Z) : bool :=
  (let yoe := (doe - doe / 1460 + doe / 36524 - doe / 146096) / 365 in
   let doy := doe - (365 * yoe + yoe / 4 - yoe / 100) in
   let mp := (5 * doy + 2) / 153 in
   let d := doy - (153 * mp + 2) / 5 + 1 in
   (0 <=? yoe) && (yoe <=? 399) && (0 <=? mp) && (mp <=? 11) && (1 <=? d))%Z.

(** [P z], [P (z + 1)], ..., [n] of them. *)
Fixpoint holds_from (n : nat) (P : Z -> bool) (z : Z) : bool :=
  match n with
  | O => true
  | S n' => P z && holds_from n' P (z + 1)
  end.

(** The number a field of digits stands for. *)
Definition field_value (s : string) : nat :=
  match NilEmpty.uint_of_string s with
  | Some d => Nat.of_uint d
  | None => 0
  end.

(** A string of decimal digits. *)
Definition digits (s : string) : Prop := NilEmpty.uint_of_string s <> None.

(** What may follow a field of digits: nothing, or a character that is not
    a digit. *)
Definition ends_field (s : string) : Prop :=
  match s with
  | EmptyString => True
  | String c _ => forall d, uint_of_char c (Some d) = None
  end.

(** * Properties *)

(** ** Substrings *)

Lemma prefix_spec (p s : string) :
  String.prefix p s = true <-> exists after, s = (p ++ after)%string.
Proof.
  revert s. induction p as [|a p IH]; intros s.
  - destruct s; simpl; split; eauto.
  - destruct s as [|b s]; simpl.
    + split; [discriminate | intros [after H]; discriminate].
    + destruct (ascii_dec a b) as [->|Hab].
      * rewrite IH. split; intros [after H]; exists after.
        -- rewrite H. reflexivity.
        -- injection H as H. exact H.
      * split; [discriminate|].
        intros [after H]. injection H as H _. congruence.
Qed.

Lemma str_contains_spec (sub s : string) :
  str_contains sub s = true <-> occurs_in sub s.
Proof.
  unfold occurs_in. induction s as [|c s IH].
  - cbn [str_contains]. rewrite orb_false_r, prefix_spec. split.
    + intros [after H]. exists EmptyString, after. exact H.
    + intros (before & after & H). destruct before as [|b before].
      * exists after. exact H.
      * discriminate.
  - cbn [str_contains]. rewrite orb_true_iff, IH, prefix_spec. split.
    + intros [[after H]|(before & after & H)].
      * exists EmptyString, after. exact H.
      * exists (String c before), after. simpl. rewrite H. reflexivity.
    + intros (before & after & H). destruct before as [|b before].
      * left. exists after. exact H.
      * right. simpl in H. injection H as _ H. exists before, after. exact H.
Qed.

Lemma str_app_assoc (s1 s2 s3 : string) :
  ((s1 ++ s2) ++ s3 = s1 ++ (s2 ++ s3))%string.
Proof. induction s1 as [|c s1 IH]; simpl; [reflexivity | now rewrite IH]. Qed.

Lemma str_app_nil_r (s : string) : (s ++ "")%string = s.
Proof. induction s as [|c s IH]; simpl; [reflexivity | now rewrite IH]. Qed.

Lemma str_truthy_false (s : string) : str_truthy s = false <-> s = EmptyString.
Proof. destruct s; simpl; split; congruence. Qed.

#[local] Arguments String.append : simpl never.
#[local] Arguments str_of_nat : simpl never.

(** ** Reasoning about runs *)

Section Runs.

Context {A B : Type}.

Lemma res_bind (m : M A) (f : A -> M B) (w : World) :
  res (bind m f w) =
  match res (m w) with
  | Returned a => res (f a (final (m w)))
  | Raised e => Raised e
  | Pending => Pending
  end.
Proof. unfold bind. destruct (res (m w)); reflexivity. Qed.

Lemma final_bind (m : M A) (f : A -> M B) (w : World) :
  final (bind m f w) =
  match res (m w) with
  | Returned a => final (f a (final (m w)))
  | _ => final (m w)
  end.
Proof. unfold bind. destruct (res (m w)); reflexivity. Qed.

Lemma printed_bind (m : M A) (f : A -> M B) (w : World) :
  printed (bind m f w) =
  match res (m w) with
  | Returned a => printed (m w) ++ printed (f a (final (m w)))
  | _ => printed (m w)
  end.
Proof. unfold bind. destruct (res (m w)); reflexivity. Qed.

(** A run that returns went through a first part that returned. *)
Lemma bind_returned (m : M A) (f : A -> M B) (w : World) (b : B) :
  res (bind m f w) = Returned b ->
  exists a, res (m w) = Returned a /\ res (f a (final (m w))) = Returned b.
Proof.
  rewrite res_bind. destruct (res (m w)) as [a| |]; try discriminate.
  intros Hb. exists a. split; [reflexivity | exact Hb].
Qed.

(** A run that raises does so in its first part or in its second. *)
Lemma bind_raised (m : M A) (f : A -> M B) (w : World) (e : exn) :
  res (bind m f w) = Raised e ->
  res (m w) = Raised e \/
  exists a, res (m w) = Returned a /\ res (f a (final (m w))) = Raised e.
Proof.
  rewrite res_bind. destruct (res (m w)) as [a| |]; try discriminate.
  - intros He. right. exists a. split; [reflexivity | exact He].
  - intros He. left. injection He as ->. reflexivity.
Qed.

(** A first part that is known reduces the run to its second part. *)
Lemma bind_run (m : M A) (f : A -> M B) (w w' : World) (a : A) out :
  m w = mkRun (Returned a) w' out ->
  bind m f w =
  mkRun (res (f a w')) (final (f a w')) (out ++ printed (f a w')).
Proof. intros H. unfold bind. rewrite H. reflexivity. Qed.

Lemma bind_abort (m : M A) (f : A -> M B) (w w' : World) (e : exn) out :
  m w = mkRun (Raised e) w' out ->
  bind m f w = mkRun (Raised e) w' out.
Proof. intros H. unfold bind. rewrite H. reflexivity. Qed.

Lemma bind_step (m : M A) (f : A -> M B) (w w' : World) (a : A) :
  res (m w) = Returned a -> final (m w) = w' ->
  res (bind m f w) = res (f a w') /\ final (bind m f w) = final (f a w').
Proof.
  intros Hres Hfin. rewrite res_bind, final_bind, Hres, Hfin.
  split; reflexivity.
Qed.

Lemma bind_ret (a : A) (f : A -> M B) (w : World) :
  bind (ret a) f w = f a w.
Proof. unfold bind, ret. simpl. destruct (f a w); reflexivity. Qed.

End Runs.

Lemma bind_print {B} (s : string) (f : unit -> M B) (w : World) :
  bind (print s) f w =
  mkRun (res (f tt w)) (final (f tt w)) (s :: printed (f tt w)).
Proof. reflexivity. Qed.

Lemma bind_bind {A B C} (m : M A) (f : A -> M B) (g : B -> M C) w :
  bind (bind m f) g w = bind m (fun a => bind (f a) g) w.
Proof.
  unfold bind. destruct (res (m w)) as [a| |]; simpl; try reflexivity.
  destruct (res (f a (final (m w)))); simpl; try reflexivity.
  rewrite app_assoc. reflexivity.
Qed.

Lemma bind_ext {A B} (m : M A) (f g : A -> M B) w :
  (forall a w', f a w' = g a w') -> bind m f w = bind m g w.
Proof.
  intros Hfg. unfold bind. destruct (res (m w)); try reflexivity.
  rewrite Hfg. reflexivity.
Qed.

Lemma getitem_name_some (o : jobject) (n : string) :
  j_name o = Some n -> getitem_name o = ret n.
Proof. unfold getitem_name. intros ->. reflexivity. Qed.

Lemma getitem_name_none (o : jobject) :
  j_name o = None -> getitem_name o = raise (KeyError "name").
Proof. unfold getitem_name. intros ->. reflexivity. Qed.

(** *** Computations that leave the world alone *)

Create HintDb inert discriminated.

Lemma inert_ret {A} (a : A) : inert (ret a).
Proof. intros w. reflexivity. Qed.

Lemma inert_raise {A} (e : exn) : inert (@raise A e).
Proof. intros w. reflexivity. Qed.

Lemma inert_print (s : string) : inert (print s).
Proof. intros w. reflexivity. Qed.

Lemma inert_bind {A B} (m : M A) (f : A -> M B) :
  inert m -> (forall a, inert (f a)) -> inert (bind m f).
Proof.
  intros Hm Hf w. rewrite final_bind.
  destruct (res (m w)); rewrite ?Hf; apply Hm.
Qed.

Lemma inert_when (b : bool) (m : M unit) : inert m -> inert (when b m).
Proof. destruct b; simpl; auto using inert_ret. Qed.

Lemma inert_for_loop {A S} (l : list A) (body : A -> S -> M S) :
  (forall x s, inert (body x s)) -> forall s, inert (for_loop l body s).
Proof.
  intros Hbody. induction l as [|x l IH]; intros s; simpl.
  - apply inert_ret.
  - apply inert_bind; auto.
Qed.

Lemma inert_getitem_name (o : jobject) : inert (getitem_name o).
Proof.
  unfold getitem_name. destruct (j_name o); auto using inert_ret, inert_raise.
Qed.

Lemma inert_getitem_author (o : jobject) : inert (getitem_author o).
Proof.
  unfold getitem_author.
  destruct (j_author o); auto using inert_ret, inert_raise.
Qed.

Lemma inert_getitem_login (a : author_field) : inert (getitem_login a).
Proof.
  unfold getitem_login. destruct a; auto using inert_ret, inert_raise.
Qed.

#[export] Hint Resolve inert_ret inert_raise inert_print inert_bind inert_when
  inert_for_loop inert_getitem_name inert_getitem_author
  inert_getitem_login : inert.

(** *** Loop invariants *)

Lemma for_loop_invariant {A S} (P : S -> Prop) (body : A -> S -> M S) :
  (forall x s w s', P s -> res (body x s w) = Returned s' -> P s') ->
  forall l s w s',
    P s -> res (for_loop l body s w) = Returned s' -> P s'.
Proof.
  intros Hbody. induction l as [|x l IH]; intros s w s' Hs Hrun; simpl in Hrun.
  - injection Hrun as <-. exact Hs.
  - apply bind_returned in Hrun. destruct Hrun as (s1 & H1 & H2).
    eapply IH; [|exact H2]. eapply Hbody; eassumption.
Qed.

Lemma while_fuel_invariant {S} (P : S -> Prop) (body : S -> M (loop_ctl S)) :
  (forall s w c, P s -> res (body s w) = Returned c -> P (ctl_state c)) ->
  forall fuel s w s',
    P s -> res (while_fuel fuel body s w) = Returned s' -> P s'.
Proof.
  intros Hbody. induction fuel as [|n IH]; intros s w s' Hs Hrun;
    simpl in Hrun; [discriminate|].
  apply bind_returned in Hrun. destruct Hrun as (c & H1 & H2).
  pose proof (Hbody _ _ _ Hs H1) as Hc.
  destruct c as [s1|s1]; simpl in *.
  - eapply IH; eassumption.
  - injection H2 as <-. exact Hc.
Qed.

(** Whatever a loop raises, one of its iterations raised. *)
Lemma while_fuel_raised {S} (Q : exn -> Prop) (body : S -> M (loop_ctl S)) :
  (forall s w e, res (body s w) = Raised e -> Q e) ->
  forall fuel s w e, res (while_fuel fuel body s w) = Raised e -> Q e.
Proof.
  intros Hbody. induction fuel as [|n IH]; intros s w e Hrun;
    simpl in Hrun; [discriminate|].
  apply bind_raised in Hrun. destruct Hrun as [H|(c & H1 & H2)].
  - eapply Hbody; eassumption.
  - destruct c as [s1|s1]; simpl in H2; [eauto | discriminate].
Qed.

(** *** The API client, one response at a time *)

Lemma after_requests_nil w : after_requests [] (feed w) w = w.
Proof. destruct w. unfold after_requests. simpl. rewrite app_nil_r. reflexivity. Qed.

Lemma after_requests_sent url token reqs rest1 rest2 w :
  after_requests reqs rest2 (sent url token rest1 w) =
  after_requests
    ({| req_url := url; req_authorization := "token " ++ token |} :: reqs)
    rest2 w.
Proof. unfold after_requests, sent. simpl. rewrite <- app_assoc. reflexivity. Qed.

Lemma sent_after_requests url token reqs rest1 rest2 w :
  sent url token rest2 (after_requests reqs rest1 w) =
  after_requests
    (reqs ++ [{| req_url := url; req_authorization := "token " ++ token |}])
    rest2 w.
Proof. unfold after_requests, sent. simpl. rewrite <- app_assoc. reflexivity. Qed.

Section ApiClient.

Context {py : PyRuntime}.
Variables (url token : string) (debug : bool) (w : World).

Lemma api_json body rest :
  feed w = Json body :: rest ->
  get_github_api url token debug w =
  mkRun (Returned body) (sent url token rest w)
        (debug_lines debug [("Requesting URL: " ++ url)%string]).
Proof.
  intros Hfeed. unfold get_github_api, bind, requests_get. rewrite Hfeed.
  destruct debug; reflexivity.
Qed.

Lemma api_status msg rest :
  feed w = HttpStatus msg :: rest ->
  get_github_api url token debug w =
  mkRun (Raised (RequestException msg)) (sent url token rest w)
        (debug_lines debug [("Requesting URL: " ++ url)%string]).
Proof.
  intros Hfeed. unfold get_github_api, bind, requests_get. rewrite Hfeed.
  destruct debug; reflexivity.
Qed.

Lemma api_transport msg rest :
  feed w = Transport msg :: rest ->
  get_github_api url token debug w =
  mkRun (Raised (RequestException msg)) (sent url token rest w) [].
Proof.
  intros Hfeed. unfold get_github_api, bind, requests_get. rewrite Hfeed.
  reflexivity.
Qed.

Lemma api_pending :
  feed w = [] -> get_github_api url token debug w = mkRun Pending w [].
Proof.
  intros Hfeed. unfold get_github_api, bind, requests_get. rewrite Hfeed.
  reflexivity.
Qed.

End ApiClient.

(** ** The repository lister *)

Lemma page_names_cons o body n :
  j_name o = Some n -> page_names (o :: body) = n :: page_names body.
Proof. unfold page_names. simpl. intros ->. reflexivity. Qed.

Section Lister.

Context {py : PyRuntime}.
Variables (org token base_url exclude_filter : string) (debug : bool).

Lemma kept_app l1 l2 : kept exclude_filter (l1 ++ l2) = kept exclude_filter l1 ++ kept exclude_filter l2.
Proof. apply filter_app. Qed.

Lemma kept_cons n l :
  kept exclude_filter (n :: l) = if excluded exclude_filter n then kept exclude_filter l else n :: kept exclude_filter l.
Proof. unfold kept. simpl. destruct (excluded exclude_filter n); reflexivity. Qed.

Lemma filter_loop_named body acc w :
  Forall has_name body ->
  for_loop body (fun repo acc =>
      repo_name <- getitem_name repo ;;
      if excluded exclude_filter repo_name
      then ret acc
      else ret (acc ++ [repo_name])) acc w
  = mkRun (Returned (acc ++ kept exclude_filter (page_names body))) w [].
Proof.
  intros Hnamed. revert acc.
  induction Hnamed as [|o body Ho _ IH]; intros acc; cbn [for_loop].
  - rewrite app_nil_r. reflexivity.
  - unfold has_name in Ho. destruct (j_name o) as [n|] eqn:En;
      [|contradiction].
    rewrite bind_bind, (getitem_name_some _ _ En), bind_ret.
    rewrite (page_names_cons _ _ _ En), kept_cons.
    destruct (excluded exclude_filter n); rewrite bind_ret, IH.
    + reflexivity.
    + rewrite <- app_assoc. reflexivity.
Qed.

Lemma names_loop_named body w :
  Forall has_name body ->
  for_each body (fun repo =>
      n <- getitem_name repo ;; print ("Repo name: " ++ n)) w
  = mkRun (Returned tt) w
      (map (fun n => ("Repo name: " ++ n)%string) (page_names body)).
Proof.
  unfold for_each. intros Hnamed.
  induction Hnamed as [|o body Ho _ IH]; cbn [for_loop].
  - reflexivity.
  - unfold has_name in Ho. destruct (j_name o) as [n|] eqn:En;
      [|contradiction].
    rewrite bind_bind, (getitem_name_some _ _ En), bind_ret, bind_print, IH.
    rewrite (page_names_cons _ _ _ En). reflexivity.
Qed.

Let step := lister_step org token base_url exclude_filter debug.

Lemma lister_step_page st w body rest :
  feed w = Json body :: rest ->
  repo_page body ->
  res (step st w) =
    Returned (Continue
      {| repos := repos st ++ kept exclude_filter (page_names body);
         page := page st + 1;
         total_fetched_repos := total_fetched_repos st + List.length body |})
  /\ final (step st w) = sent (repos_url base_url org (page st)) token rest w.
Proof.
  intros Hfeed [Hne Hnamed]. unfold step, lister_step, try_except.
  rewrite (bind_run _ _ _ _ _ _ (api_json _ _ _ _ _ _ Hfeed)).
  cbn [res final printed].
  assert (Hdbg : forall s,
    when debug
      (print s ;;
       for_each body (fun repo =>
         n <- getitem_name repo ;; print ("Repo name: " ++ n)))
      (sent (repos_url base_url org (page st)) token rest w)
    = mkRun (Returned tt)
        (sent (repos_url base_url org (page st)) token rest w)
        (debug_lines debug
           (s :: map (fun n => ("Repo name: " ++ n)%string)
                   (page_names body)))).
  { intros s. destruct debug; cbn [when debug_lines]; [|reflexivity].
    rewrite bind_print, names_loop_named by assumption. reflexivity. }
  rewrite (bind_run _ _ _ _ _ _ (Hdbg _)). cbn [res final].
  destruct body as [|o body']; [contradiction|].
  rewrite (bind_run _ _ _ _ _ _ (filter_loop_named _ _ _ Hnamed)).
  split; reflexivity.
Qed.

Lemma lister_step_empty st w rest :
  feed w = Json [] :: rest ->
  res (step st w) =
    Returned (Break
      {| repos := repos st; page := page st;
         total_fetched_repos := total_fetched_repos st + 0 |})
  /\ final (step st w) = sent (repos_url base_url org (page st)) token rest w
  /\ (debug = false -> printed (step st w) = []).
Proof.
  intros Hfeed. unfold step, lister_step, try_except.
  rewrite (bind_run _ _ _ _ _ _ (api_json _ _ _ _ _ _ Hfeed)).
  destruct debug; repeat split; intros; try reflexivity; discriminate.
Qed.

Lemma lister_step_failure st w msg rest :
  feed w = Transport msg :: rest \/ feed w = HttpStatus msg :: rest ->
  res (step st w) = Returned (Break st)
  /\ final (step st w) = sent (repos_url base_url org (page st)) token rest w
  /\ In ("Error fetching repositories: " ++ msg)%string (printed (step st w)).
Proof.
  intros [Hfeed|Hfeed]; unfold step, lister_step, try_except.
  - rewrite (bind_abort _ _ _ _ _ _ (api_transport _ _ _ _ _ _ Hfeed)).
    repeat split. left. reflexivity.
  - rewrite (bind_abort _ _ _ _ _ _ (api_status _ _ _ _ _ _ Hfeed)).
    repeat split. cbn [res final printed]. apply in_or_app. right. left.
    reflexivity.
Qed.

(** The loop over a run of full pages: it goes through all of them and
    carries on with what follows in the feed. *)
Lemma lister_loop_pages pages :
  Forall repo_page pages ->
  forall fuel st w rest,
    feed w = map Json pages ++ rest ->
    let st' := {| repos := repos st ++ kept exclude_filter (flat_map page_names pages);
                  page := page st + List.length pages;
                  total_fetched_repos :=
                    total_fetched_repos st + List.length (List.concat pages) |} in
    let w' := after_requests
                (map (repos_request org token base_url) (seq (page st) (List.length pages)))
                rest w in
    res (while_fuel (List.length pages + fuel) step st w)
      = res (while_fuel fuel step st' w')
    /\ final (while_fuel (List.length pages + fuel) step st w)
      = final (while_fuel fuel step st' w').
Proof.
  induction 1 as [|body pages Hbody _ IH]; intros fuel st w rest Hfeed.
  - simpl in *. subst rest. rewrite after_requests_nil, !app_nil_r, !Nat.add_0_r.
    destruct st; split; reflexivity.
  - simpl in Hfeed.
    destruct (lister_step_page st w body _ Hfeed Hbody) as [Hres Hfin].
    cbn [List.length Nat.add while_fuel].
    rewrite res_bind, final_bind, Hres, Hfin.
    match goal with
    | |- context [while_fuel _ step ?s ?v] =>
        specialize (IH fuel s v rest eq_refl)
    end.
    cbn [repos page total_fetched_repos] in IH.
    rewrite after_requests_sent in IH.
    cbn [flat_map List.concat seq map].
    rewrite kept_app, length_app, app_assoc, Nat.add_assoc.
    replace (page st + S (List.length pages))
      with (page st + 1 + List.length pages) by lia.
    replace (S (page st)) with (page st + 1) by lia.
    exact IH.
Qed.

Lemma lister_epilogue (st : lister_locals) w :
  let m := when debug
      (print ("Total repositories fetched: "
                ++ str_of_nat (total_fetched_repos st)) ;;
       print ("Total repositories found (after filtering): "
                ++ str_of_nat (List.length (repos st)))) ;;
    ret (repos st) in
  res (m w) = Returned (repos st) /\ final (m w) = w
  /\ (debug = false -> printed (m w) = []).
Proof.
  destruct debug; repeat split; intros; try reflexivity; discriminate.
Qed.

(** The lister on a feed that opens with full pages and then a response
    that stops it: the result is what the filter keeps of the names of those
    pages, and one request was issued per response consumed. *)
Lemma get_repositories_run pages stop rest w :
  Forall repo_page pages ->
  stops stop ->
  feed w = map Json pages ++ stop :: rest ->
  let r := get_repositories org token base_url exclude_filter debug w in
  res r = Returned (kept exclude_filter (flat_map page_names pages))
  /\ final r = after_requests
                 (map (repos_request org token base_url) (seq 1 (S (List.length pages)))) rest w.
Proof.
  intros Hpages Hstop Hfeed. cbv zeta. unfold get_repositories.
  rewrite res_bind, final_bind. unfold while_true.
  replace (S (List.length (feed w)))
    with (List.length pages + S (S (List.length rest))).
  2:{ rewrite Hfeed, length_app, length_map. simpl. lia. }
  fold step.
  destruct (lister_loop_pages pages Hpages (S (S (List.length rest)))
              {| repos := []; page := 1; total_fetched_repos := 0 |}
              w (stop :: rest) Hfeed) as [Hres Hfin].
  rewrite Hres, Hfin. clear Hres Hfin.
  cbn [repos page total_fetched_repos app while_fuel].
  rewrite res_bind, final_bind.
  set (w1 := after_requests _ (stop :: rest) w).
  set (st1 := Build_lister_locals _ _ _).
  assert (Hstep : exists st2,
    res (step st1 w1) = Returned (Break st2)
    /\ repos st2 = kept exclude_filter (flat_map page_names pages)
    /\ final (step st1 w1)
       = sent (repos_url base_url org (1 + List.length pages)) token rest w1).
  { destruct stop as [msg|msg|[|o body]]; [| |
      |contradiction].
    - destruct (lister_step_failure st1 w1 msg rest) as (H1 & H2 & _).
      { left. reflexivity. }
      exists st1. auto.
    - destruct (lister_step_failure st1 w1 msg rest) as (H1 & H2 & _).
      { right. reflexivity. }
      exists st1. auto.
    - destruct (lister_step_empty st1 w1 rest eq_refl) as (H1 & H2 & _).
      eexists. split; [exact H1|]. auto. }
  destruct Hstep as (st2 & Hres & Hrepos & Hfin).
  rewrite Hres, Hfin. cbn [ret res final].
  destruct (lister_epilogue st2
    (sent (repos_url base_url org (1 + List.length pages)) token rest w1))
    as (He1 & He2 & _).
  rewrite He1, He2, Hrepos. split; [reflexivity|].
  unfold w1. rewrite sent_after_requests. f_equal.
  rewrite seq_S, map_app. reflexivity.
Qed.

End Lister.

(** ** The contributor collector *)

Lemma add_all_app l1 l2 acc :
  add_all (l1 ++ l2) acc = add_all l2 (add_all l1 acc).
Proof. apply fold_left_app. Qed.

Section Collector.

Context {py : PyRuntime}.
Variables (org repo token base_url : string) (debug : bool).

Lemma inert_add_author commit acc : inert (add_author repo debug commit acc).
Proof.
  unfold add_author. apply inert_bind; [auto with inert|].
  intros a. destruct (author_truthy a); auto 6 with inert.
Qed.

Lemma commits_loop_authored body acc w :
  Forall has_author body ->
  res (for_loop body (add_author repo debug) acc w)
    = Returned (add_all (page_logins body) acc)
  /\ final (for_loop body (add_author repo debug) acc w) = w.
Proof.
  intros Hauth. split; [|apply inert_for_loop, inert_add_author].
  revert acc w. induction Hauth as [|o body Ho _ IH]; intros acc w;
    cbn [for_loop].
  - reflexivity.
  - rewrite res_bind.
    assert (Hstep : res (add_author repo debug o acc w)
                    = Returned (add_all (page_logins [o]) acc)).
    { unfold add_author, getitem_author, page_logins, has_author,
        missing_key in *.
      cbn [flat_map].
      destruct (j_author o) as [| |login| |];
        [discriminate|reflexivity| |reflexivity|discriminate].
      rewrite bind_ret. destruct debug; reflexivity. }
    rewrite Hstep, IH.
    change (o :: body) with ([o] ++ body).
    unfold page_logins at 3. rewrite flat_map_app. fold (page_logins [o]).
    fold (page_logins body). rewrite add_all_app. reflexivity.
Qed.

Variable since_date : string.

Let step := collector_step org repo token base_url debug since_date.

Lemma collector_step_unfold st :
  step st =
  (commits <- get_github_api
                (commits_url base_url org repo since_date (commit_page st))
                token debug ;;
   match commits with
   | [] => ret (Break st)
   | _ =>
       contributors' <- for_loop commits (add_author repo debug) (contributors st) ;;
       let page' := commit_page st + 1 in
       when debug
         (print ("Processed page " ++ str_of_nat page'
                   ++ " of commits for repository '" ++ repo ++ "'.")) ;;
       ret (Continue {| contributors := contributors';
                        commit_page := page' |})
   end).
Proof. reflexivity. Qed.

Lemma collector_step_page st w body rest :
  feed w = Json body :: rest ->
  authored_page body ->
  res (step st w) =
    Returned (Continue
      {| contributors := add_all (page_logins body) (contributors st);
         commit_page := commit_page st + 1 |})
  /\ final (step st w)
     = sent (commits_url base_url org repo since_date (commit_page st))
         token rest w.
Proof.
  intros Hfeed [Hne Hauth]. rewrite collector_step_unfold.
  rewrite (bind_run _ _ _ _ _ _ (api_json _ _ _ _ _ _ Hfeed)).
  cbn [res final]. destruct body as [|o body]; [contradiction|].
  destruct (commits_loop_authored (o :: body) (contributors st)
              (sent (commits_url base_url org repo since_date (commit_page st))
                 token rest w) Hauth) as [Hres Hfin].
  rewrite res_bind, final_bind, Hres, Hfin.
  destruct debug; split; reflexivity.
Qed.

Lemma collector_step_empty st w rest :
  feed w = Json [] :: rest ->
  res (step st w) = Returned (Break st)
  /\ final (step st w)
     = sent (commits_url base_url org repo since_date (commit_page st))
         token rest w.
Proof.
  intros Hfeed. rewrite collector_step_unfold.
  rewrite (bind_run _ _ _ _ _ _ (api_json _ _ _ _ _ _ Hfeed)).
  split; reflexivity.
Qed.

Lemma collector_step_failure st w msg rest :
  feed w = Transport msg :: rest \/ feed w = HttpStatus msg :: rest ->
  res (step st w) = Raised (RequestException msg)
  /\ final (step st w)
     = sent (commits_url base_url org repo since_date (commit_page st))
         token rest w.
Proof.
  intros [Hfeed|Hfeed]; rewrite collector_step_unfold.
  - rewrite (bind_abort _ _ _ _ _ _ (api_transport _ _ _ _ _ _ Hfeed)).
    split; reflexivity.
  - rewrite (bind_abort _ _ _ _ _ _ (api_status _ _ _ _ _ _ Hfeed)).
    split; reflexivity.
Qed.

Lemma collector_loop_pages pages :
  Forall authored_page pages ->
  forall fuel st w rest,
    feed w = map Json pages ++ rest ->
    let st' := {| contributors :=
                    add_all (flat_map page_logins pages) (contributors st);
                  commit_page := commit_page st + List.length pages |} in
    let w' := after_requests
                (map (commits_request org repo token base_url since_date)
                   (seq (commit_page st) (List.length pages)))
                rest w in
    res (while_fuel (List.length pages + fuel) step st w)
      = res (while_fuel fuel step st' w')
    /\ final (while_fuel (List.length pages + fuel) step st w)
      = final (while_fuel fuel step st' w').
Proof.
  induction 1 as [|body pages Hbody _ IH]; intros fuel st w rest Hfeed.
  - simpl in *. subst rest. rewrite after_requests_nil, !Nat.add_0_r.
    destruct st; split; reflexivity.
  - simpl in Hfeed.
    destruct (collector_step_page st w body _ Hfeed Hbody) as [Hres Hfin].
    cbn [List.length Nat.add while_fuel].
    rewrite res_bind, final_bind, Hres, Hfin.
    match goal with
    | |- context [while_fuel _ step ?s ?v] =>
        specialize (IH fuel s v rest eq_refl)
    end.
    cbn [contributors commit_page] in IH.
    rewrite after_requests_sent in IH.
    cbn [flat_map seq map].
    rewrite add_all_app.
    replace (commit_page st + S (List.length pages))
      with (commit_page st + 1 + List.length pages) by lia.
    replace (S (commit_page st)) with (commit_page st + 1) by lia.
    exact IH.
Qed.

End Collector.

Section CollectorRun.

Context {py : PyRuntime}.
Variables (org repo token base_url : string) (debug : bool).

Lemma get_recent_contributors_run pages stop rest w :
  Forall authored_page pages ->
  stops stop ->
  feed w = map Json pages ++ stop :: rest ->
  let r := get_recent_contributors org repo token base_url debug w in
  res r = collector_outcome stop (flat_map page_logins pages)
  /\ final r = after_requests
                 (map (commits_request org repo token base_url
                         (since_of (now w)))
                    (seq 1 (S (List.length pages)))) rest w.
Proof.
  intros Hpages Hstop Hfeed. cbv zeta. unfold get_recent_contributors.
  rewrite (bind_run datetime_now _ w w (now w) [] eq_refl).
  cbn [res final]. rewrite res_bind, final_bind. unfold while_true.
  replace (S (List.length (feed w)))
    with (List.length pages + S (S (List.length rest))).
  2:{ rewrite Hfeed, length_app, length_map. simpl. lia. }
  set (step := collector_step org repo token base_url debug
                 (since_of (now w))).
  destruct (collector_loop_pages org repo token base_url debug
              (since_of (now w)) pages Hpages (S (S (List.length rest)))
              {| contributors := []; commit_page := 1 |}
              w (stop :: rest) Hfeed) as [Hres Hfin].
  fold step in Hres, Hfin. rewrite Hres, Hfin. clear Hres Hfin.
  cbn [contributors commit_page while_fuel].
  rewrite res_bind, final_bind.
  set (w1 := after_requests _ (stop :: rest) w).
  set (st1 := Build_collector_locals _ _).
  assert (Hsent : sent (commits_url base_url org repo (since_of (now w))
                          (1 + List.length pages)) token rest w1
                  = after_requests
                      (map (commits_request org repo token base_url
                              (since_of (now w)))
                         (seq 1 (S (List.length pages)))) rest w).
  { unfold w1. rewrite sent_after_requests. f_equal.
    rewrite seq_S, map_app. reflexivity. }
  destruct stop as [msg|msg|[|o body]]; [| | |contradiction].
  - destruct (collector_step_failure org repo token base_url debug
                (since_of (now w)) st1 w1 msg rest) as (H1 & H2).
    { left. reflexivity. }
    fold step in H1, H2. rewrite H1, H2. split; [reflexivity|exact Hsent].
  - destruct (collector_step_failure org repo token base_url debug
                (since_of (now w)) st1 w1 msg rest) as (H1 & H2).
    { right. reflexivity. }
    fold step in H1, H2. rewrite H1, H2. split; [reflexivity|exact Hsent].
  - destruct (collector_step_empty org repo token base_url debug
                (since_of (now w)) st1 w1 rest eq_refl) as (H1 & H2).
    fold step in H1, H2. rewrite H1, H2. split; [reflexivity|exact Hsent].
Qed.

End CollectorRun.

(** ** Runs that differ in what they print only *)

Create HintDb quiet discriminated.

Lemma same_effect_refl {A} (m : M A) : m =~= m.
Proof. intros w. split; reflexivity. Qed.

Lemma same_effect_trans {A} (m1 m2 m3 : M A) :
  m1 =~= m2 -> m2 =~= m3 -> m1 =~= m3.
Proof.
  intros H12 H23 w. destruct (H12 w) as [-> ->]. apply H23.
Qed.

Lemma same_effect_bind {A B} (m1 m2 : M A) (f1 f2 : A -> M B) :
  m1 =~= m2 -> (forall a, f1 a =~= f2 a) -> bind m1 f1 =~= bind m2 f2.
Proof.
  intros Hm Hf w. rewrite !res_bind, !final_bind.
  destruct (Hm w) as [-> ->].
  destruct (res (m2 w)) as [a| |]; [apply Hf | split; reflexivity ..].
Qed.

Lemma same_effect_skip {B} (m : M unit) (k1 k2 : M B) :
  silent m -> k1 =~= k2 -> (m ;; k1) =~= k2.
Proof.
  intros Hm Hk w. rewrite res_bind, final_bind.
  destruct (Hm w) as [-> ->]. apply Hk.
Qed.

Lemma same_effect_sym {A} (m1 m2 : M A) : m1 =~= m2 -> m2 =~= m1.
Proof. intros H w. destruct (H w) as [-> ->]. split; reflexivity. Qed.

(** A prologue that changes nothing, and that raises only what the rest
    would raise on the spot, may be dropped. *)
Lemma same_effect_guard {B} (m : M unit) (k : M B) :
  inert m ->
  (forall w,
     res (m w) = Returned tt
     \/ exists e, res (m w) = Raised e
                  /\ res (k w) = Raised e /\ final (k w) = w) ->
  (m ;; k) =~= k.
Proof.
  intros Hinert Hm w. rewrite res_bind, final_bind, Hinert.
  destruct (Hm w) as [->|(e & -> & -> & ->)]; split; reflexivity.
Qed.

Lemma silent_ret : silent (ret tt).
Proof. apply same_effect_refl. Qed.

Lemma silent_print (s : string) : silent (print s).
Proof. intros w. split; reflexivity. Qed.

Lemma silent_when (b : bool) (m : M unit) : silent m -> silent (when b m).
Proof. destruct b; [trivial | intros _; apply silent_ret]. Qed.

Lemma silent_seq (m1 m2 : M unit) :
  silent m1 -> silent m2 -> silent (m1 ;; m2).
Proof. intros H1 H2. apply same_effect_skip; assumption. Qed.

Lemma same_effect_when (b1 b2 : bool) (m : M unit) :
  silent m -> when b1 m =~= when b2 m.
Proof.
  intros Hm w.
  destruct (silent_when b1 m Hm w) as [-> ->].
  destruct (silent_when b2 m Hm w) as [-> ->]. split; reflexivity.
Qed.

Lemma same_effect_for_loop {A S} (l : list A) (b1 b2 : A -> S -> M S) :
  (forall x s, b1 x s =~= b2 x s) ->
  forall s, for_loop l b1 s =~= for_loop l b2 s.
Proof.
  intros Hb. induction l as [|x l IH]; intros s; cbn [for_loop].
  - apply same_effect_refl.
  - apply same_effect_bind; auto.
Qed.

Lemma same_effect_while_fuel {S} (b1 b2 : S -> M (loop_ctl S)) :
  (forall s, b1 s =~= b2 s) ->
  forall fuel s, while_fuel fuel b1 s =~= while_fuel fuel b2 s.
Proof.
  intros Hb. induction fuel as [|n IH]; intros s; cbn [while_fuel].
  - apply same_effect_refl.
  - apply same_effect_bind; [apply Hb|].
    intros [s'|s']; [apply IH | apply same_effect_refl].
Qed.

Lemma same_effect_while_true {S} (b1 b2 : S -> M (loop_ctl S)) :
  (forall s, b1 s =~= b2 s) ->
  forall s, while_true b1 s =~= while_true b2 s.
Proof.
  intros Hb s w. unfold while_true. apply same_effect_while_fuel, Hb.
Qed.

Lemma same_effect_try_except {A} (m1 m2 : M A) (h : exn -> option (M A)) :
  m1 =~= m2 -> try_except m1 h =~= try_except m2 h.
Proof.
  intros Hm w. unfold try_except. destruct (Hm w) as [Hres Hfin].
  rewrite Hres. destruct (res (m2 w)) as [a|e|] eqn:E2;
    [split; [congruence | assumption] | | split; [congruence | assumption]].
  destruct (h e) as [k|]; [|split; [congruence | assumption]].
  cbn [res final]. rewrite Hfin. split; reflexivity.
Qed.

#[export] Hint Resolve same_effect_refl same_effect_bind same_effect_when
  same_effect_for_loop same_effect_while_true same_effect_try_except
  silent_ret silent_print silent_when silent_seq : quiet.

Section Quiet.

Context {py : PyRuntime}.

Lemma get_github_api_quiet url token debug :
  get_github_api url token debug =~= get_github_api url token false.
Proof.
  unfold get_github_api. apply same_effect_bind; [apply same_effect_refl|].
  intros r. apply same_effect_bind; auto with quiet.
Qed.

(** In debug mode the lister prints the names of a page before it filters
    them.  An object without a name stops either loop with the same
    [KeyError]. *)
Lemma names_then_filter exclude_filter (result : list jobject) :
  Forall has_name result
  \/ (result <> []
      /\ (forall w,
            res (for_each result (fun repo =>
                   n <- getitem_name repo ;; print ("Repo name: " ++ n)) w)
            = Raised (KeyError "name"))
      /\ (forall acc w,
            res (for_loop result (fun repo acc =>
                   repo_name <- getitem_name repo ;;
                   if excluded exclude_filter repo_name
                   then ret acc
                   else ret (acc ++ [repo_name])) acc w)
            = Raised (KeyError "name"))).
Proof.
  induction result as [|o result IH].
  - left. constructor.
  - destruct (j_name o) as [n|] eqn:En.
    + destruct IH as [IH|(_ & IH1 & IH2)].
      * left. constructor; [unfold has_name; congruence | exact IH].
      * right. split; [discriminate|]. split.
        -- intros w. unfold for_each in *. cbn [for_loop].
           rewrite bind_bind, (getitem_name_some _ _ En), bind_ret, bind_print.
           apply IH1.
        -- intros acc w. cbn [for_loop].
           rewrite bind_bind, (getitem_name_some _ _ En), bind_ret.
           destruct (excluded exclude_filter n); rewrite bind_ret; apply IH2.
    + right. split; [discriminate|]. split.
      * intros w. unfold for_each. cbn [for_loop].
        rewrite bind_bind, (getitem_name_none _ En). reflexivity.
      * intros acc w. cbn [for_loop].
        rewrite bind_bind, (getitem_name_none _ En). reflexivity.
Qed.

Lemma lister_step_quiet org token base_url exclude_filter debug st :
  lister_step org token base_url exclude_filter debug st
  =~= lister_step org token base_url exclude_filter false st.
Proof.
  unfold lister_step. apply same_effect_try_except.
  apply same_effect_bind; [apply get_github_api_quiet|].
  intros result. destruct debug; [|apply same_effect_refl].
  cbn [when].
  eapply same_effect_trans;
    [|apply same_effect_sym, same_effect_skip;
       [apply silent_ret | apply same_effect_refl]].
  apply same_effect_guard.
  - unfold for_each. auto 8 with inert.
  - intros w.
    destruct (names_then_filter exclude_filter result) as [Hn|(Hne & H1 & H2)].
    + left. rewrite bind_print. cbn [res].
      rewrite (names_loop_named _ _ Hn). reflexivity.
    + right. exists (KeyError "name"). rewrite bind_print. cbn [res].
      split; [apply H1|].
      destruct result as [|o result]; [contradiction|].
      rewrite res_bind, final_bind, H2. split; [reflexivity|].
      apply inert_for_loop. intros x s.
      apply inert_bind; [apply inert_getitem_name|].
      intros n. destruct (excluded exclude_filter n); apply inert_ret.
Qed.

Lemma get_repositories_quiet org token base_url exclude_filter debug :
  get_repositories org token base_url exclude_filter debug
  =~= get_repositories org token base_url exclude_filter false.
Proof.
  unfold get_repositories. apply same_effect_bind.
  - apply same_effect_while_true. intros st. apply lister_step_quiet.
  - intros st. apply same_effect_bind; auto 6 with quiet.
Qed.

Lemma collector_step_quiet org repo token base_url debug since_date st :
  collector_step org repo token base_url debug since_date st
  =~= collector_step org repo token base_url false since_date st.
Proof.
  unfold collector_step. apply same_effect_bind;
    [apply get_github_api_quiet|].
  intros [|o commits]; [apply same_effect_refl|].
  apply same_effect_bind.
  - apply same_effect_for_loop. intros commit acc.
    apply same_effect_bind; [apply same_effect_refl|].
    intros a. destruct (author_truthy a); [|apply same_effect_refl].
    apply same_effect_bind; [apply same_effect_refl|].
    intros login. auto 6 with quiet.
  - intros cs. apply same_effect_bind; auto with quiet.
Qed.

Lemma get_recent_contributors_quiet org repo token base_url debug :
  get_recent_contributors org repo token base_url debug
  =~= get_recent_contributors org repo token base_url false.
Proof.
  unfold get_recent_contributors.
  apply same_effect_bind; [apply same_effect_refl|]. intros t.
  apply same_effect_bind; [|intros st; apply same_effect_refl].
  apply same_effect_while_true. intros st. apply collector_step_quiet.
Qed.

Lemma accumulate_quiet debug contributors d :
  accumulate debug contributors d =~= accumulate false contributors d.
Proof.
  unfold accumulate. apply same_effect_for_loop. intros c d'.
  apply same_effect_bind; auto with quiet.
Qed.

Lemma aggregate_quiet args repos d :
  aggregate args repos d =~= aggregate (without_debug args) repos d.
Proof.
  unfold aggregate. apply same_effect_for_loop. intros repo d'.
  apply same_effect_bind.
  - apply get_recent_contributors_quiet.
  - intros cs. apply accumulate_quiet.
Qed.

Lemma write_to_csv_quiet d filename debug :
  write_to_csv d filename debug =~= write_to_csv d filename false.
Proof.
  unfold write_to_csv.
  apply same_effect_bind; [apply same_effect_refl|]. intros _.
  apply same_effect_bind; [apply same_effect_refl|]. intros _.
  apply same_effect_bind.
  - unfold for_each. apply same_effect_for_loop. intros [developer count] _.
    apply same_effect_bind; auto with quiet.
  - intros _. auto with quiet.
Qed.

Lemma main_quiet args : main args =~= main (without_debug args).
Proof.
  unfold main. apply same_effect_bind; [apply get_repositories_quiet|].
  intros repos. apply same_effect_bind; [apply aggregate_quiet|].
  intros d. apply same_effect_bind; [apply same_effect_refl|]. intros _.
  apply write_to_csv_quiet.
Qed.

End Quiet.

(** ** Sets and dicts *)

Lemma set_mem_In x s : set_mem x s = true <-> In x s.
Proof.
  unfold set_mem. rewrite existsb_exists. split.
  - intros (y & Hy & Heq). apply String.eqb_eq in Heq. congruence.
  - intros Hx. exists x. split; [exact Hx | apply String.eqb_refl].
Qed.

Lemma set_mem_false x s : set_mem x s = false <-> ~ In x s.
Proof.
  rewrite <- set_mem_In. destruct (set_mem x s); split; congruence.
Qed.

Lemma set_mem_app x s1 s2 : set_mem x (s1 ++ s2) = set_mem x s1 || set_mem x s2.
Proof. apply existsb_app. Qed.

Lemma set_add_NoDup x s : NoDup s -> NoDup (set_add x s).
Proof.
  intros Hs. unfold set_add. destruct (set_mem x s) eqn:E; [exact Hs|].
  apply set_mem_false in E. apply NoDup_app; try assumption.
  - repeat constructor. intros [].
  - intros y Hy [<-|[]]. contradiction.
Qed.

Lemma set_add_In x y s : In y (set_add x s) <-> y = x \/ In y s.
Proof.
  unfold set_add. destruct (set_mem x s) eqn:E.
  - apply set_mem_In in E. split; [auto | intros [->|H]; assumption].
  - rewrite in_app_iff. simpl. split; [intros [H|[H|[]]] | intros [H|H]]; auto.
Qed.

Lemma add_all_NoDup l acc : NoDup acc -> NoDup (add_all l acc).
Proof.
  revert acc. induction l as [|x l IH]; intros acc Hacc; simpl; [exact Hacc|].
  apply IH, set_add_NoDup, Hacc.
Qed.

Lemma add_all_In l acc y : In y (add_all l acc) <-> In y l \/ In y acc.
Proof.
  revert acc. induction l as [|x l IH]; intros acc; simpl.
  - tauto.
  - rewrite IH, set_add_In. intuition congruence.
Qed.

Lemma filter_outside_member x acc (l : list string) :
  set_mem x acc = true ->
  filter (fun y => negb (set_mem y acc))
    (filter (fun y => negb (String.eqb x y)) l)
  = filter (fun y => negb (set_mem y acc)) l.
Proof.
  intros E. induction l as [|y l IH]; simpl; [reflexivity|].
  destruct (String.eqb_spec x y) as [<-|Hxy]; simpl.
  - rewrite E. simpl. exact IH.
  - rewrite IH. reflexivity.
Qed.

Lemma filter_outside_snoc x acc (l : list string) :
  filter (fun y => negb (set_mem y (acc ++ [x]))) l
  = filter (fun y => negb (set_mem y acc))
      (filter (fun y => negb (String.eqb x y)) l).
Proof.
  induction l as [|y l IH]; simpl; [reflexivity|].
  rewrite set_mem_app. simpl. rewrite orb_false_r, String.eqb_sym.
  destruct (String.eqb_spec x y) as [<-|Hxy]; simpl.
  - rewrite orb_true_r. simpl. exact IH.
  - rewrite orb_false_r. destruct (set_mem y acc); simpl;
      rewrite IH; reflexivity.
Qed.

Lemma add_all_first_seen l acc :
  add_all l acc = acc ++ filter (fun y => negb (set_mem y acc)) (first_seen l).
Proof.
  revert acc. induction l as [|x l IH]; intros acc; simpl.
  - rewrite app_nil_r. reflexivity.
  - rewrite IH. unfold set_add. destruct (set_mem x acc) eqn:E; simpl.
    + rewrite filter_outside_member by assumption. reflexivity.
    + rewrite <- app_assoc, filter_outside_snoc. reflexivity.
Qed.

Lemma add_all_nil_first_seen l : add_all l [] = first_seen l.
Proof.
  rewrite add_all_first_seen. simpl. apply forallb_filter_id.
  apply forallb_forall. reflexivity.
Qed.

Lemma dict_get_set k k' v d :
  dict_get k 0 (dict_set k' v d)
  = if String.eqb k k' then v else dict_get k 0 d.
Proof.
  induction d as [|[k0 v0] d IH]; simpl.
  - destruct (String.eqb k k'); reflexivity.
  - destruct (String.eqb_spec k' k0) as [->|Hk0]; simpl.
    + destruct (String.eqb k k0); reflexivity.
    + rewrite IH. destruct (String.eqb_spec k k0) as [->|Hk];
        [|reflexivity].
      destruct (String.eqb_spec k0 k'); [congruence | reflexivity].
Qed.

Lemma dict_keys_set k v d : dict_keys (dict_set k v d) = set_add k (dict_keys d).
Proof.
  unfold set_add. induction d as [|[k0 v0] d IH]; simpl; [reflexivity|].
  destruct (String.eqb k k0); simpl; [reflexivity|].
  rewrite IH. destruct (set_mem k (dict_keys d)); reflexivity.
Qed.

Lemma tally_one_get k l d :
  dict_get k 0 (tally_one l d) = dict_get k 0 d + count_occ string_dec l k.
Proof.
  unfold tally_one. revert d. induction l as [|c l IH]; intros d; simpl.
  - lia.
  - rewrite IH. unfold bump. rewrite dict_get_set.
    destruct (string_dec c k) as [->|Hck].
    + rewrite String.eqb_refl. lia.
    + destruct (String.eqb_spec k c); [congruence | lia].
Qed.

Lemma tally_one_keys l d :
  dict_keys (tally_one l d) = add_all l (dict_keys d).
Proof.
  unfold tally_one, add_all. revert d.
  induction l as [|c l IH]; intros d; simpl; [reflexivity|].
  rewrite IH. unfold bump. rewrite dict_keys_set. reflexivity.
Qed.

Lemma count_occ_NoDup l k :
  NoDup l -> count_occ string_dec l k = if set_mem k l then 1 else 0.
Proof.
  intros Hl. destruct (set_mem k l) eqn:E.
  - apply set_mem_In in E. apply NoDup_count_occ'; assumption.
  - apply set_mem_false in E. apply count_occ_not_In. exact E.
Qed.

Section Tally.

Context {py : PyRuntime}.

Lemma tally_get login sets d :
  Forall (@NoDup string) sets ->
  dict_get login 0 (tally sets d) = dict_get login 0 d + times_listed login sets.
Proof.
  unfold tally, times_listed. intros Hsets. revert d.
  induction Hsets as [|cs sets Hcs _ IH]; intros d; simpl.
  - lia.
  - rewrite IH, tally_one_get.
    rewrite (proj1 (Permutation_count_occ string_dec _ _) (set_iter_perm cs)).
    rewrite (count_occ_NoDup _ _ Hcs).
    destruct (set_mem login cs); simpl; lia.
Qed.

Lemma tally_keys sets d :
  dict_keys (tally sets d) = add_all (flat_map set_iter sets) (dict_keys d).
Proof.
  unfold tally. revert d. induction sets as [|cs sets IH]; intros d; simpl.
  - reflexivity.
  - rewrite IH, tally_one_keys, add_all_app. reflexivity.
Qed.

Lemma accumulate_run debug cs d w :
  res (accumulate debug cs d w) = Returned (tally_one (set_iter cs) d)
  /\ final (accumulate debug cs d w) = w.
Proof.
  unfold accumulate, tally_one. split.
  - revert d w. induction (set_iter cs) as [|c l IH]; intros d w;
      cbn [for_loop fold_left]; [reflexivity|].
    rewrite res_bind.
    replace (res ((when debug
                     (print ("Updating count for contributor '" ++ c ++ "'."));;
                   ret (bump c d)) w))
      with (Returned (A:=dict) (bump c d)) by (destruct debug; reflexivity).
    replace (final ((when debug
                     (print ("Updating count for contributor '" ++ c ++ "'."));;
                   ret (bump c d)) w))
      with w by (destruct debug; reflexivity).
    apply IH.
  - apply inert_for_loop. intros c d'. auto with inert.
Qed.

End Tally.

(** ** What a computation does to the world *)

Lemma issues_inert {A} P (m : M A) : inert m -> issues P m.
Proof.
  intros Hm w. exists [], (feed w). split; [constructor|].
  rewrite after_requests_nil. apply Hm.
Qed.

Lemma after_requests_twice reqs1 reqs2 rest1 rest2 w :
  after_requests reqs2 rest2 (after_requests reqs1 rest1 w)
  = after_requests (reqs1 ++ reqs2) rest2 w.
Proof. unfold after_requests. simpl. rewrite app_assoc. reflexivity. Qed.

Lemma issues_bind {A B} P (m : M A) (f : A -> M B) :
  issues P m -> (forall a, issues P (f a)) -> issues P (bind m f).
Proof.
  intros Hm Hf w. rewrite final_bind.
  destruct (Hm w) as (reqs1 & rest1 & HP1 & Hw1).
  destruct (res (m w)) as [a| |]; [|eauto ..].
  destruct (Hf a (final (m w))) as (reqs2 & rest2 & HP2 & Hw2).
  exists (reqs1 ++ reqs2), rest2. split; [apply Forall_app; auto|].
  rewrite Hw2, Hw1. apply after_requests_twice.
Qed.

Lemma issues_for_loop {A S} P (l : list A) (body : A -> S -> M S) :
  (forall x s, issues P (body x s)) -> forall s, issues P (for_loop l body s).
Proof.
  intros Hbody. induction l as [|x l IH]; intros s; cbn [for_loop].
  - apply issues_inert, inert_ret.
  - apply issues_bind; auto.
Qed.

Lemma issues_while_fuel {S} P (body : S -> M (loop_ctl S)) :
  (forall s, issues P (body s)) ->
  forall fuel s, issues P (while_fuel fuel body s).
Proof.
  intros Hbody. induction fuel as [|n IH]; intros s; cbn [while_fuel].
  - apply issues_inert. intros w. reflexivity.
  - apply issues_bind; [apply Hbody|].
    intros [s'|s']; [apply IH | apply issues_inert, inert_ret].
Qed.

Lemma issues_while_true {S} P (body : S -> M (loop_ctl S)) :
  (forall s, issues P (body s)) -> forall s, issues P (while_true body s).
Proof.
  intros Hbody s w. unfold while_true. apply issues_while_fuel, Hbody.
Qed.

Lemma issues_try_except {A} P (m : M A) (h : exn -> option (M A)) :
  issues P m -> (forall e k, h e = Some k -> issues P k) ->
  issues P (try_except m h).
Proof.
  intros Hm Hh w. unfold try_except.
  destruct (Hm w) as (reqs1 & rest1 & HP1 & Hw1).
  destruct (res (m w)) as [a|e|]; [eauto| |eauto].
  destruct (h e) as [k|] eqn:Ek; [|eauto].
  destruct (Hh e k Ek (final (m w))) as (reqs2 & rest2 & HP2 & Hw2).
  exists (reqs1 ++ reqs2), rest2. split; [apply Forall_app; auto|].
  cbn [final]. rewrite Hw2, Hw1. apply after_requests_twice.
Qed.

Lemma issues_files {A} P (m : M A) w :
  issues P m -> files (final (m w)) = files w.
Proof. intros Hm. destruct (Hm w) as (? & ? & _ & ->). reflexivity. Qed.

Lemma issues_unwritable {A} P (m : M A) w :
  issues P m -> unwritable (final (m w)) = unwritable w.
Proof. intros Hm. destruct (Hm w) as (? & ? & _ & ->). reflexivity. Qed.

Section Issues.

Context {py : PyRuntime}.

Lemma issues_get_github_api (P : request -> Prop) url token debug :
  P {| req_url := url; req_authorization := "token " ++ token |} ->
  issues P (get_github_api url token debug).
Proof.
  intros HP w. destruct (feed w) as [|[msg|msg|body] rest] eqn:Hfeed.
  - rewrite (api_pending _ _ _ _ Hfeed). exists [], (feed w).
    split; [constructor|]. symmetry. apply after_requests_nil.
  - rewrite (api_transport _ _ _ _ _ _ Hfeed). eexists [_], rest.
    split; [constructor; [exact HP|constructor]|reflexivity].
  - rewrite (api_status _ _ _ _ _ _ Hfeed). eexists [_], rest.
    split; [constructor; [exact HP|constructor]|reflexivity].
  - rewrite (api_json _ _ _ _ _ _ Hfeed). eexists [_], rest.
    split; [constructor; [exact HP|constructor]|reflexivity].
Qed.

Lemma issues_lister_step org token base_url exclude_filter debug st :
  issues (fun _ => True)
    (lister_step org token base_url exclude_filter debug st).
Proof.
  unfold lister_step. apply issues_try_except.
  - apply issues_bind; [apply issues_get_github_api; exact I|].
    intros result. apply issues_inert.
    apply inert_bind; [unfold for_each; auto 8 with inert|]. intros _.
    destruct result as [|o result]; [apply inert_ret|].
    apply inert_bind; [|auto with inert].
    apply inert_for_loop. intros x s.
    apply inert_bind; [apply inert_getitem_name|].
    intros n. destruct (excluded exclude_filter n); apply inert_ret.
  - intros [msg|key|path] k Hk; try discriminate.
    injection Hk as <-. apply issues_inert. auto with inert.
Qed.

Lemma issues_get_repositories org token base_url exclude_filter debug :
  issues (fun _ => True)
    (get_repositories org token base_url exclude_filter debug).
Proof.
  unfold get_repositories. apply issues_bind.
  - apply issues_while_true. intros st. apply issues_lister_step.
  - intros st. apply issues_inert. auto 8 with inert.
Qed.

Lemma issues_collector_step org repo token base_url debug since_date st :
  issues (commits_request_at org repo token base_url since_date)
    (collector_step org repo token base_url debug since_date st).
Proof.
  unfold collector_step. apply issues_bind.
  - apply issues_get_github_api. exists (commit_page st). reflexivity.
  - intros [|o commits]; apply issues_inert; [apply inert_ret|].
    apply inert_bind; [|auto with inert].
    apply inert_for_loop. intros commit acc.
    apply inert_bind; [apply inert_getitem_author|].
    intros a. destruct (author_truthy a); auto 6 with inert.
Qed.

Lemma issues_get_recent_contributors org repo token base_url debug w :
  exists reqs rest,
    Forall (commits_request_at org repo token base_url (since_of (now w)))
      reqs
    /\ final (get_recent_contributors org repo token base_url debug w)
       = after_requests reqs rest w.
Proof.
  unfold get_recent_contributors.
  rewrite (bind_run datetime_now _ w w (now w) [] eq_refl). cbn [final].
  apply (issues_bind (commits_request_at org repo token base_url
                        (since_of (now w)))).
  - apply issues_while_true. intros st. apply issues_collector_step.
  - intros st. apply issues_inert, inert_ret.
Qed.

Lemma inert_accumulate debug cs d : inert (accumulate debug cs d).
Proof. intros w. apply accumulate_run. Qed.

Lemma issues_aggregate args repos d :
  issues (fun _ => True) (aggregate args repos d).
Proof.
  unfold aggregate. apply issues_for_loop. intros repo d'.
  apply issues_bind.
  - intros w.
    destruct (issues_get_recent_contributors (org args) repo (token args)
                (github_url args) (debug args) w) as (reqs & rest & _ & Hw).
    exists reqs, rest. split; [|exact Hw].
    apply Forall_forall. trivial.
  - intros cs. apply issues_inert, inert_accumulate.
Qed.

(** The collector returns a set: no login twice. *)
Lemma get_recent_contributors_NoDup org repo token base_url debug w cs :
  res (get_recent_contributors org repo token base_url debug w) = Returned cs ->
  NoDup cs.
Proof.
  unfold get_recent_contributors. intros Hrun.
  apply bind_returned in Hrun. destruct Hrun as (t & _ & Hrun).
  apply bind_returned in Hrun. destruct Hrun as (st & Hloop & Hret).
  injection Hret as <-. unfold while_true in Hloop.
  revert Hloop.
  apply (while_fuel_invariant (fun st => NoDup (contributors st)));
    [|constructor].
  clear. intros st w c Hst Hstep. unfold collector_step in Hstep.
  apply bind_returned in Hstep. destruct Hstep as (commits & _ & Hstep).
  destruct commits as [|o commits].
  - injection Hstep as <-. exact Hst.
  - apply bind_returned in Hstep. destruct Hstep as (cs' & Hloop & Hrest).
    assert (Hcs' : NoDup cs').
    { revert Hloop.
      apply (for_loop_invariant (@NoDup string)); [|exact Hst].
      clear. intros commit acc w acc' Hacc Hbody.
      apply bind_returned in Hbody. destruct Hbody as (a & _ & Hbody).
      destruct (author_truthy a).
      - apply bind_returned in Hbody. destruct Hbody as (login & _ & Hbody).
        apply bind_returned in Hbody. destruct Hbody as (_ & _ & Hbody).
        injection Hbody as <-. apply set_add_NoDup, Hacc.
      - injection Hbody as <-. exact Hacc. }
    apply bind_returned in Hrest. destruct Hrest as (_ & _ & Hrest).
    injection Hrest as <-. exact Hcs'.
Qed.

End Issues.

(** ** The file system and the CSV writer *)

Lemma file_lookup_store path content fs :
  file_lookup path (file_store path content fs) = Some content.
Proof.
  induction fs as [|[p c] fs IH]; simpl.
  - rewrite String.eqb_refl. reflexivity.
  - destruct (String.eqb path p) eqn:E; simpl; rewrite E; [reflexivity|exact IH].
Qed.

Lemma file_lookup_store_other path path' content fs :
  path' <> path ->
  file_lookup path' (file_store path content fs) = file_lookup path' fs.
Proof.
  intros Hne. induction fs as [|[p c] fs IH]; simpl.
  - destruct (String.eqb_spec path' path); [contradiction|reflexivity].
  - destruct (String.eqb_spec path p) as [->|Hp]; simpl.
    + destruct (String.eqb_spec path' p); [contradiction|reflexivity].
    + rewrite IH. reflexivity.
Qed.

Lemma file_store_twice path c1 c2 fs :
  file_store path c2 (file_store path c1 fs) = file_store path c2 fs.
Proof.
  induction fs as [|[p c] fs IH]; simpl.
  - rewrite String.eqb_refl. reflexivity.
  - destruct (String.eqb path p) eqn:E; simpl; rewrite E; [reflexivity|].
    rewrite IH. reflexivity.
Qed.

Lemma csv_rows_cons developer count d :
  csv_rows ((developer, count) :: d)
  = (csv_row [developer; str_of_nat count] ++ csv_rows d)%string.
Proof.
  unfold csv_rows. cbn [map String.concat].
  destruct (map _ d) eqn:E; [|reflexivity].
  cbn [String.concat]. rewrite str_app_nil_r. reflexivity.
Qed.

Section CsvWriter.

Context {py : PyRuntime}.
Variables (filename : string) (debug : bool).

Lemma rows_loop d content w :
  file_lookup filename (files w) = Some content ->
  let m := for_each d (fun '(developer, count) =>
      file_write filename (csv_row [developer; str_of_nat count]) ;;
      when debug
        (print ("Wrote developer '" ++ developer ++ "' with count "
                  ++ str_of_nat count ++ " to CSV."))) in
  res (m w) = Returned tt
  /\ final (m w)
     = with_files (file_store filename (content ++ csv_rows d) (files w)) w.
Proof.
  cbv zeta. unfold for_each. revert content w.
  induction d as [|[developer count] d IH]; intros content w Hfile;
    cbn [for_loop].
  - split; [reflexivity|]. unfold csv_rows. cbn [map String.concat ret final].
    rewrite str_app_nil_r. destruct w as [fd rq ck fs uw]. unfold with_files.
    cbn in *. f_equal. clear - Hfile.
    induction fs as [|[p c] fs IHfs]; simpl in *; [discriminate|].
    destruct (String.eqb filename p) eqn:E.
    + injection Hfile as ->. reflexivity.
    + rewrite <- IHfs by assumption. reflexivity.
  - set (row := csv_row [developer; str_of_nat count]).
    set (w1 := with_files
                 (file_store filename (content ++ row) (files w)) w).
    assert (H1 : res ((file_write filename row ;;
             when debug
               (print ("Wrote developer '" ++ developer ++ "' with count "
                         ++ str_of_nat count ++ " to CSV."))) w)
              = Returned tt
            /\ final ((file_write filename row ;;
             when debug
               (print ("Wrote developer '" ++ developer ++ "' with count "
                         ++ str_of_nat count ++ " to CSV."))) w) = w1).
    { unfold bind, file_write. rewrite Hfile.
      destruct debug; split; reflexivity. }
    destruct H1 as [H1r H1f].
    match goal with
    | |- res (bind ?m ?f w) = _ /\ _ =>
        destruct (bind_step m f w w1 tt H1r H1f) as [Hr Hf]
    end.
    rewrite Hr, Hf.
    destruct (IH (content ++ row)%string w1) as [IHr IHf].
    { unfold w1. apply file_lookup_store. }
    rewrite IHr, IHf. split; [reflexivity|].
    unfold w1, with_files. cbn [feed requests clock files unwritable].
    rewrite file_store_twice, csv_rows_cons, str_app_assoc. reflexivity.
Qed.

Lemma write_to_csv_run d w :
  set_mem filename (unwritable w) = false ->
  res (write_to_csv d filename debug w) = Returned tt
  /\ final (write_to_csv d filename debug w)
     = with_files (file_store filename (csv_text d) (files w)) w.
Proof.
  intros Hw. unfold write_to_csv.
  assert (Hopen : open_w filename w
    = mkRun (Returned tt) (with_files (file_store filename "" (files w)) w) []).
  { unfold open_w. rewrite Hw. reflexivity. }
  rewrite (bind_run _ _ _ _ _ _ Hopen). cbn [res final].
  set (w1 := with_files (file_store filename "" (files w)) w).
  assert (Hhead : file_write filename (csv_row header) w1
    = mkRun (Returned tt)
        (with_files (file_store filename (csv_row header) (files w)) w) []).
  { unfold file_write, w1. cbn [files with_files].
    rewrite file_lookup_store, file_store_twice. reflexivity. }
  rewrite (bind_run _ _ _ _ _ _ Hhead). cbn [res final].
  set (w2 := with_files (file_store filename (csv_row header) (files w)) w).
  destruct (rows_loop d (csv_row header) w2) as [Hr Hf].
  { unfold w2. apply file_lookup_store. }
  rewrite res_bind, final_bind, Hr, Hf.
  unfold w2, with_files. cbn [feed requests clock files unwritable].
  rewrite file_store_twice. fold (csv_text d).
  destruct debug; split; reflexivity.
Qed.

Lemma write_to_csv_fails d w :
  set_mem filename (unwritable w) = true ->
  write_to_csv d filename debug w = mkRun (Raised (IOError filename)) w [].
Proof.
  intros Hw. unfold write_to_csv.
  assert (Hopen : open_w filename w = mkRun (Raised (IOError filename)) w []).
  { unfold open_w. rewrite Hw. reflexivity. }
  apply (bind_abort _ _ _ _ _ _ Hopen).
Qed.

End CsvWriter.

(** ** The aggregation loop *)

Section Aggregate.

Context {py : PyRuntime}.
Variable args : Args.

Lemma aggregate_cons repo rest d w :
  aggregate args (repo :: rest) d w =
  ((d' <- (contributors <- get_recent_contributors (org args) repo
                             (token args) (github_url args) (debug args) ;;
           accumulate (debug args) contributors d) ;;
    aggregate args rest d') w).
Proof. reflexivity. Qed.

(** A repository whose collection returns: the loop carries on from the
    world the collector left, with the set tallied. *)
Lemma aggregate_step repo rest d w cs :
  res (get_recent_contributors (org args) repo (token args)
         (github_url args) (debug args) w) = Returned cs ->
  let w1 := final (get_recent_contributors (org args) repo (token args)
                     (github_url args) (debug args) w) in
  res (aggregate args (repo :: rest) d w)
    = res (aggregate args rest (tally_one (set_iter cs) d) w1)
  /\ final (aggregate args (repo :: rest) d w)
    = final (aggregate args rest (tally_one (set_iter cs) d) w1).
Proof.
  intros Hcs w1. rewrite aggregate_cons.
  apply bind_step.
  - rewrite res_bind, Hcs. apply accumulate_run.
  - rewrite final_bind, Hcs. apply accumulate_run.
Qed.

(** A repository whose collection does not return ends the loop there. *)
Lemma aggregate_stop repo rest d w :
  (forall cs, res (get_recent_contributors (org args) repo (token args)
                     (github_url args) (debug args) w) <> Returned cs) ->
  (forall d', res (aggregate args (repo :: rest) d w) <> Returned d')
  /\ final (aggregate args (repo :: rest) d w)
     = final (get_recent_contributors (org args) repo (token args)
                (github_url args) (debug args) w)
  /\ (forall e,
        res (get_recent_contributors (org args) repo (token args)
               (github_url args) (debug args) w) = Raised e ->
        res (aggregate args (repo :: rest) d w) = Raised e).
Proof.
  intros Hcs. rewrite aggregate_cons.
  set (c := get_recent_contributors _ _ _ _ _) in *.
  unfold bind. destruct (res (c w)) as [cs|e|] eqn:E; cbn [res final].
  - exfalso. apply (Hcs cs). reflexivity.
  - repeat split; [discriminate | congruence].
  - repeat split; [discriminate | discriminate].
Qed.

Lemma aggregate_sets repos : forall d w sets,
  contributor_sets args repos w = Some sets ->
  res (aggregate args repos d w) = Returned (tally sets d).
Proof.
  induction repos as [|repo rest IH]; intros d w sets Hsets.
  - injection Hsets as <-. reflexivity.
  - cbn [contributor_sets] in Hsets.
    destruct (res (get_recent_contributors _ _ _ _ _ w)) as [cs| |] eqn:Ecs;
      try discriminate.
    destruct (contributor_sets args rest _) as [sets'|] eqn:Erest;
      try discriminate.
    injection Hsets as <-.
    destruct (aggregate_step repo rest d w cs Ecs) as [-> _].
    change (tally (cs :: sets') d) with (tally sets' (tally_one (set_iter cs) d)).
    apply IH. exact Erest.
Qed.

Lemma aggregate_returned repos : forall d w d',
  res (aggregate args repos d w) = Returned d' ->
  exists sets,
    contributor_sets args repos w = Some sets
    /\ d' = tally sets d
    /\ List.length sets = List.length repos
    /\ Forall (@NoDup string) sets.
Proof.
  induction repos as [|repo rest IH]; intros d w d' Hrun.
  - injection Hrun as <-. exists []. repeat split. constructor.
  - cbn [contributor_sets].
    destruct (res (get_recent_contributors _ _ _ _ _ w)) as [cs|e|] eqn:Ecs.
    + destruct (aggregate_step repo rest d w cs Ecs) as [Hres _].
      rewrite Hres in Hrun.
      destruct (IH _ _ _ Hrun) as (sets & -> & -> & Hlen & Hnd).
      exists (cs :: sets). repeat split.
      * simpl. rewrite Hlen. reflexivity.
      * constructor; [|exact Hnd].
        eapply get_recent_contributors_NoDup. exact Ecs.
    + exfalso. destruct (aggregate_stop repo rest d w) as (Hno & _).
      { intros cs. rewrite Ecs. discriminate. }
      apply (Hno d'). exact Hrun.
    + exfalso. destruct (aggregate_stop repo rest d w) as (Hno & _).
      { intros cs. rewrite Ecs. discriminate. }
      apply (Hno d'). exact Hrun.
Qed.

End Aggregate.

(** ** The whole run *)

Lemma for_loop_app {A S} (l1 l2 : list A) (body : A -> S -> M S) s w :
  for_loop (l1 ++ l2) body s w
  = (s' <- for_loop l1 body s ;; for_loop l2 body s') w.
Proof.
  revert s w. induction l1 as [|x l1 IH]; intros s w; cbn [app for_loop].
  - rewrite bind_ret. reflexivity.
  - rewrite bind_bind. apply bind_ext. intros s' w'. apply IH.
Qed.

Section Main.

Context {py : PyRuntime}.
Variable args : Args.

Let lister := get_repositories (org args) (token args) (github_url args)
                (exclude args) (debug args).

(** A run whose listing and aggregation return goes on to print the summary
    line and then to write the CSV file. *)
Lemma main_reaches_writer w repos d :
  res (lister w) = Returned repos ->
  res (aggregate args repos [] (final (lister w))) = Returned d ->
  let w2 := final (aggregate args repos [] (final (lister w))) in
  let wr := write_to_csv d (output_csv args) (debug args) w2 in
  res (main args w) = res wr
  /\ final (main args w) = final wr
  /\ printed (main args w)
     = printed (lister w)
       ++ printed (aggregate args repos [] (final (lister w)))
       ++ summary_line (org args) (List.length d) :: printed wr.
Proof.
  intros Hl Ha. cbv zeta. unfold main. fold lister. unfold bind.
  rewrite Hl. cbn [res final printed]. rewrite Ha. cbn [res final printed].
  repeat split.
Qed.

(** A run whose aggregation raises stops there. *)
Lemma main_aggregate_raised w repos e :
  res (lister w) = Returned repos ->
  res (aggregate args repos [] (final (lister w))) = Raised e ->
  res (main args w) = Raised e
  /\ final (main args w) = final (aggregate args repos [] (final (lister w))).
Proof.
  intros Hl Ha. unfold main. fold lister. unfold bind.
  rewrite Hl. cbn [res final printed]. rewrite Ha. split; reflexivity.
Qed.

(** Until the CSV writer is reached the files are not touched, and the
    writer either fails on opening the file or writes it whole. *)
Lemma main_files_untouched w :
  (forall u, res (main args w) <> Returned u) ->
  files (final (main args w)) = files w.
Proof.
  intros Hno.
  pose proof (issues_files _ lister w
    (issues_get_repositories _ _ _ _ _)) as Hfl.
  destruct (res (lister w)) as [repos|e|] eqn:Hl.
  - pose proof (issues_files _ (aggregate args repos []) (final (lister w))
      (issues_aggregate args repos [])) as Hfa.
    assert (Hua : unwritable (final (aggregate args repos [] (final (lister w))))
                  = unwritable w).
    { destruct (issues_aggregate args repos [] (final (lister w)))
        as (? & ? & _ & ->).
      destruct (issues_get_repositories (org args) (token args)
                  (github_url args) (exclude args) (debug args) w)
        as (? & ? & _ & Hw). fold lister in Hw. rewrite Hw. reflexivity. }
    destruct (res (aggregate args repos [] (final (lister w))))
      as [d|e|] eqn:Ha.
    + destruct (main_reaches_writer w repos d Hl Ha) as (Hr & Hf & _).
      destruct (set_mem (output_csv args) (unwritable w)) eqn:Hw.
      * rewrite Hf, write_to_csv_fails by (rewrite Hua; exact Hw).
        cbn [final]. congruence.
      * exfalso. apply (Hno tt). rewrite Hr.
        apply write_to_csv_run. rewrite Hua. exact Hw.
    + destruct (main_aggregate_raised w repos e Hl Ha) as [_ ->]. congruence.
    + unfold main. fold lister. unfold bind. rewrite Hl.
      cbn [res final]. rewrite Ha. cbn [final]. congruence.
  - unfold main. fold lister. unfold bind. rewrite Hl. exact Hfl.
  - unfold main. fold lister. unfold bind. rewrite Hl. exact Hfl.
Qed.

End Main.

(** * The properties of the specification *)

(** Discharges the shape conditions on concrete pages. *)
Ltac shape :=
  repeat first
    [ progress unfold repo_page, authored_page, has_name, has_author
    | split
    | apply Forall_cons
    | apply Forall_nil
    | discriminate
    | exact I
    | reflexivity ].

Lemma excluded_spec {py : PyRuntime} (exclude_filter name : string) :
  negb (excluded exclude_filter name) = true
  <-> exclude_filter = "" \/ ~ occurs_case_insensitively exclude_filter name.
Proof.
  unfold excluded, occurs_case_insensitively.
  rewrite negb_true_iff, andb_false_iff, str_truthy_false.
  rewrite <- str_contains_spec.
  destruct (str_contains _ _); intuition congruence.
Qed.

(** C2.  On a feed that holds the pages of the organization's listing, the
    result of the repository lister is the sequence of the fetched names, in
    the order of the API, restricted to the names to keep; and a name is to
    keep if and only if the exclude substring is empty or does not occur
    case-insensitively in it. *)
Theorem lister_keeps_names_not_excluded {py : PyRuntime}
    (org token base_url exclude_filter : string) (debug : bool)
    (pages : list (list jobject)) (stop : response) (rest : list response)
    (w : World) :
  Forall repo_page pages ->
  stops stop ->
  feed w = map Json pages ++ stop :: rest ->
  exists keep : string -> bool,
    (forall name,
       keep name = true
       <-> exclude_filter = ""
           \/ ~ occurs_case_insensitively exclude_filter name)
    /\ res (get_repositories org token base_url exclude_filter debug w)
       = Returned (filter keep (flat_map page_names pages))
    /\ (forall name result,
          res (get_repositories org token base_url exclude_filter debug w)
          = Returned result ->
          In name (flat_map page_names pages) ->
          (In name result
           <-> exclude_filter = ""
               \/ ~ occurs_case_insensitively exclude_filter name)).
Proof.
  intros Hpages Hstop Hfeed.
  exists (fun name => negb (excluded exclude_filter name)).
  destruct (get_repositories_run org token base_url exclude_filter debug
              pages stop rest w Hpages Hstop Hfeed) as [Hres _].
  split; [apply excluded_spec|]. split; [exact Hres|].
  intros name result Hresult Hin. rewrite Hres in Hresult.
  injection Hresult as <-. unfold kept. rewrite filter_In, excluded_spec.
  tauto.
Qed.

Lemma lister_keeps_names_not_excluded_witness :
  exists keep : string -> bool,
    (forall name,
       keep name = true
       <-> "legacy" = ""
           \/ ~ @occurs_case_insensitively ascii_runtime "legacy" name)
    /\ res (@get_repositories ascii_runtime "acme" "t0ken"
              "https://api.github.com" "legacy" false scenario_world)
       = Returned (filter keep ["api"; "api-legacy"; "web"]).
Proof.
  destruct (@lister_keeps_names_not_excluded ascii_runtime
              "acme" "t0ken" "https://api.github.com" "legacy" false
              [[repo_obj "api"; repo_obj "api-legacy"; repo_obj "web"]]
              (Json []) (skipn 2 scenario_feed) scenario_world)
    as (keep & Hkeep & Hres & _); [shape ..|].
  exists keep. split; [exact Hkeep | exact Hres].
Defined.

(** The scenario of the specification, filter included. *)
Example scenario_repositories :
  res (@get_repositories ascii_runtime "acme" "t0ken"
         "https://api.github.com" "legacy" false scenario_world)
  = Returned ["api"; "web"].
Proof. vm_compute. reflexivity. Qed.

(** C5.  On a feed that opens with the non-empty pages of a listing and
    then an empty page, each pagination loop requests the pages 1, 2, ... in
    turn, one request per page, up to and including the request that the
    empty page answers, and then returns without consuming anything more.
    The size of the pages plays no part. *)
Theorem pagination_runs_until_an_empty_page {py : PyRuntime}
    (org repo token base_url exclude_filter : string) (debug : bool)
    (pages : list (list jobject)) (rest : list response) (w : World) :
  feed w = map Json pages ++ Json [] :: rest ->
  (Forall repo_page pages ->
   let r := get_repositories org token base_url exclude_filter debug w in
   (exists names, res r = Returned names)
   /\ requests (final r)
      = requests w ++ map (repos_request org token base_url)
                        (seq 1 (List.length pages + 1))
   /\ feed (final r) = rest)
  /\
  (Forall authored_page pages ->
   let r := get_recent_contributors org repo token base_url debug w in
   (exists logins, res r = Returned logins)
   /\ requests (final r)
      = requests w ++ map (commits_request org repo token base_url
                             (since_of (now w)))
                        (seq 1 (List.length pages + 1))
   /\ feed (final r) = rest).
Proof.
  intros Hfeed. rewrite Nat.add_1_r. split; intros Hpages; cbv zeta.
  - destruct (get_repositories_run org token base_url exclude_filter debug
                pages (Json []) rest w Hpages I Hfeed) as [Hres Hfin].
    rewrite Hfin. repeat split. eexists. exact Hres.
  - destruct (get_recent_contributors_run org repo token base_url debug
                pages (Json []) rest w Hpages I Hfeed) as [Hres Hfin].
    rewrite Hfin. repeat split. eexists. exact Hres.
Qed.

Lemma full_page_shape : repo_page full_page /\ authored_page full_page.
Proof.
  unfold repo_page, authored_page. repeat split; try discriminate;
    apply Forall_forall; intros o Ho; apply repeat_spec in Ho; subst o;
    first [discriminate | reflexivity].
Qed.

Lemma pagination_runs_until_an_empty_page_witness :
  let w := world_of [Json full_page; Json []; Json [repo_obj "late"]]
             ticking [] in
  map req_url
    (requests (final (@get_repositories ascii_runtime "acme" "t0ken"
                        "https://api.github.com" "" false w)))
  = ["https://api.github.com/orgs/acme/repos?page=1&per_page=100";
     "https://api.github.com/orgs/acme/repos?page=2&per_page=100"]
  /\ feed (final (get_recent_contributors "acme" "api" "t0ken"
                    "https://api.github.com" false w))
     = [Json [repo_obj "late"]].
Proof.
  intros w.
  destruct (@pagination_runs_until_an_empty_page ascii_runtime
              "acme" "api" "t0ken" "https://api.github.com" "" false
              [full_page] [Json [repo_obj "late"]] w eq_refl)
    as [Hlister Hcollector].
  destruct (Hlister (Forall_cons _ (proj1 full_page_shape) (Forall_nil _)))
    as (_ & Hreqs & _).
  destruct (Hcollector (Forall_cons _ (proj2 full_page_shape) (Forall_nil _)))
    as (_ & _ & Hfeed).
  split; [rewrite Hreqs; reflexivity | exact Hfeed].
Defined.

Lemma lister_step_never_propagates {py : PyRuntime}
    org token base_url exclude_filter debug st w e :
  res (lister_step org token base_url exclude_filter debug st w) = Raised e ->
  forall msg, e <> RequestException msg.
Proof.
  unfold lister_step, try_except.
  match goal with |- context [res (?m w)] => set (inner := m) end.
  destruct (res (inner w)) as [c|e0|] eqn:E; rewrite ?E; try discriminate.
  destruct e0 as [msg0|key|path]; cbn [res]; try discriminate;
    rewrite E; intros He; injection He as <-; discriminate.
Qed.

Lemma get_repositories_never_propagates {py : PyRuntime}
    org token base_url exclude_filter debug w msg :
  res (get_repositories org token base_url exclude_filter debug w)
  <> Raised (RequestException msg).
Proof.
  unfold get_repositories. intros Hrun.
  apply bind_raised in Hrun. destruct Hrun as [Hloop|(st & _ & Hend)].
  - unfold while_true in Hloop.
    apply (while_fuel_raised (fun e => e <> RequestException msg)
             (lister_step org token base_url exclude_filter debug))
      in Hloop; [apply Hloop; reflexivity|].
    intros st w' e He. eapply lister_step_never_propagates. exact He.
  - destruct (lister_epilogue org token base_url exclude_filter debug st
                (final (while_true
                   (lister_step org token base_url exclude_filter debug)
                   {| repos := []; page := 1; total_fetched_repos := 0 |} w)))
      as (Hres & _).
    cbv zeta in Hres. rewrite Hres in Hend. discriminate.
Qed.

Lemma aggregate_app {py : PyRuntime} (args : Args) l1 l2 d w :
  aggregate args (l1 ++ l2) d w
  = (d' <- aggregate args l1 d ;; aggregate args l2 d') w.
Proof. unfold aggregate. apply for_loop_app. Qed.

Lemma main_collector_raised {py : PyRuntime} (args : Args) w listed done repo
    rest sets e :
  let lister := get_repositories (org args) (token args) (github_url args)
                  (exclude args) (debug args) in
  res (lister w) = Returned listed ->
  listed = done ++ repo :: rest ->
  contributor_sets args done (final (lister w)) = Some sets ->
  res (get_recent_contributors (org args) repo (token args) (github_url args)
         (debug args) (final (aggregate args done [] (final (lister w)))))
  = Raised e ->
  res (main args w) = Raised e /\ files (final (main args w)) = files w.
Proof.
  intros lister Hl Hsplit Hsets Hraise.
  assert (Hagg : res (aggregate args listed [] (final (lister w))) = Raised e).
  { subst listed.
    rewrite aggregate_app, res_bind, (aggregate_sets args done [] _ sets Hsets).
    apply (aggregate_stop args repo rest); [|exact Hraise].
    intros cs. rewrite Hraise. discriminate. }
  destruct (main_aggregate_raised args w listed e Hl Hagg) as [Hres _].
  split; [exact Hres|].
  apply main_files_untouched. intros u. rewrite Hres. discriminate.
Qed.

(** C3.  A failed request ([requests.get] raising, or a status that
    [raise_for_status] rejects) is handled in two ways.
    In the repository lister it never propagates: the lister returns what
    the pages before the failure gave.
    In the contributor collector it propagates, and a run whose collection
    of some repository raises ends with that exception without having
    touched any file. *)
Theorem request_failures_soft_in_lister_hard_in_collector {py : PyRuntime}
    (args : Args) :
  let lister := get_repositories (org args) (token args) (github_url args)
                  (exclude args) (debug args) in
  let collector repo := get_recent_contributors (org args) repo (token args)
                          (github_url args) (debug args) in
  (forall w msg, res (lister w) <> Raised (RequestException msg))
  /\ (forall pages failure msg rest w,
        Forall repo_page pages ->
        failure = Transport msg \/ failure = HttpStatus msg ->
        feed w = map Json pages ++ failure :: rest ->
        res (lister w)
        = Returned (kept (exclude args) (flat_map page_names pages)))
  /\ (forall repo pages failure msg rest w,
        Forall authored_page pages ->
        failure = Transport msg \/ failure = HttpStatus msg ->
        feed w = map Json pages ++ failure :: rest ->
        res (collector repo w) = Raised (RequestException msg))
  /\ (forall w repos done repo rest sets e,
        res (lister w) = Returned repos ->
        repos = done ++ repo :: rest ->
        contributor_sets args done (final (lister w)) = Some sets ->
        res (collector repo (final (aggregate args done [] (final (lister w)))))
        = Raised e ->
        res (main args w) = Raised e
        /\ files (final (main args w)) = files w).
Proof.
  cbv zeta. split; [|split; [|split]].
  - intros w msg. apply get_repositories_never_propagates.
  - intros pages failure msg rest w Hpages Hfail Hfeed.
    apply (get_repositories_run _ _ _ _ _ pages failure rest w Hpages);
      [destruct Hfail; subst; exact I | exact Hfeed].
  - intros repo pages failure msg rest w Hpages Hfail Hfeed.
    destruct (get_recent_contributors_run (org args) repo (token args)
                (github_url args) (debug args) pages failure rest w Hpages)
      as [Hres _]; [destruct Hfail; subst; exact I | exact Hfeed |].
    cbv zeta in Hres. rewrite Hres. destruct Hfail; subst; reflexivity.
  - intros w listed done repo rest sets e.
    apply main_collector_raised.
Qed.

Lemma request_failures_soft_in_lister_hard_in_collector_witness :
  let w := world_of failing_feed ticking [] in
  res (@main ascii_runtime (sample_args "" "out.csv" false) w)
  = Raised (RequestException "502 Server Error: Bad Gateway")
  /\ files (final (@main ascii_runtime (sample_args "" "out.csv" false) w))
     = [].
Proof.
  intros w.
  apply (proj2 (proj2 (proj2
           (@request_failures_soft_in_lister_hard_in_collector ascii_runtime
              (sample_args "" "out.csv" false))))
         w ["api"; "db"; "web"] ["api"] "db" ["web"] [["alice"]]
         (RequestException "502 Server Error: Bad Gateway"));
    vm_compute; reflexivity.
Defined.

(** The lister of the same organization when page 2 of its listing fails:
    the first page is kept. *)
Example lister_keeps_partial_result :
  let w := world_of [Json [repo_obj "api"; repo_obj "db"];
                     Transport "Connection reset by peer";
                     Json [repo_obj "web"]] ticking [] in
  res (@get_repositories ascii_runtime "acme" "t0ken"
         "https://api.github.com" "" false w) = Returned ["api"; "db"]
  /\ printed (@get_repositories ascii_runtime "acme" "t0ken"
                "https://api.github.com" "" false w)
     = ["Error fetching repositories: Connection reset by peer"].
Proof. vm_compute. split; reflexivity. Qed.

Lemma add_author_key_error repo debug bad acc w key :
  missing_key bad = Some key ->
  res (add_author repo debug bad acc w) = Raised (KeyError key).
Proof.
  unfold missing_key, add_author, getitem_author.
  destruct (j_author bad); intros H; try discriminate;
    injection H as <-; reflexivity.
Qed.

Lemma commits_loop_key_error repo debug good bad rest acc w key :
  Forall has_author good ->
  missing_key bad = Some key ->
  res (for_loop (good ++ bad :: rest) (add_author repo debug) acc w)
  = Raised (KeyError key).
Proof.
  intros Hgood Hbad. rewrite for_loop_app, res_bind.
  destruct (commits_loop_authored repo debug good acc w Hgood) as [Hres Hfin].
  rewrite Hres, Hfin. cbn [for_loop]. rewrite res_bind.
  rewrite (add_author_key_error repo debug bad _ w key Hbad). reflexivity.
Qed.

Lemma collector_step_key_error org repo token base_url debug since_date
    st w good bad after rest key :
  feed w = Json (good ++ bad :: after) :: rest ->
  Forall has_author good ->
  missing_key bad = Some key ->
  res (collector_step org repo token base_url debug since_date st w)
  = Raised (KeyError key).
Proof.
  intros Hfeed Hgood Hbad. rewrite collector_step_unfold.
  rewrite (bind_run _ _ _ _ _ _ (api_json _ _ _ _ _ _ Hfeed)). cbn [res].
  destruct (good ++ bad :: after) as [|o body] eqn:E;
    [destruct good; discriminate|].
  rewrite res_bind, <- E.
  rewrite (commits_loop_key_error repo debug good bad after _ _ key
             Hgood Hbad).
  reflexivity.
Qed.

(** After full pages, a page with a commit that lacks a key ends the
    collector with the [KeyError] of that key. *)
Lemma get_recent_contributors_key_error org repo token base_url debug
    pages good bad after rest w key :
  Forall authored_page pages ->
  Forall has_author good ->
  missing_key bad = Some key ->
  feed w = map Json pages ++ Json (good ++ bad :: after) :: rest ->
  res (get_recent_contributors org repo token base_url debug w)
  = Raised (KeyError key).
Proof.
  intros Hpages Hgood Hbad Hfeed. unfold get_recent_contributors.
  rewrite (bind_run datetime_now _ w w (now w) [] eq_refl).
  cbn [res]. rewrite res_bind. unfold while_true.
  replace (S (List.length (feed w)))
    with (List.length pages + S (S (List.length rest))).
  2:{ rewrite Hfeed, length_app, length_map. simpl. lia. }
  destruct (collector_loop_pages org repo token base_url debug
              (since_of (now w)) pages Hpages (S (S (List.length rest)))
              {| contributors := []; commit_page := 1 |}
              w (Json (good ++ bad :: after) :: rest) Hfeed) as [Hres _].
  rewrite Hres. cbn [while_fuel]. rewrite res_bind.
  rewrite (collector_step_key_error _ _ _ _ _ _ _ _ good bad after rest key);
    [reflexivity | reflexivity | exact Hgood | exact Hbad].
Qed.

(** C4, as stated, fails on a commit without the [author] key: subscripting
    it raises [KeyError], which nothing catches. *)
Lemma commit_without_author_key_raises :
  let w := world_of [Json [commit_by "alice"; commit_obj AuthorMissing;
                           commit_by "alice"];
                     Json []] ticking [] in
  res (get_recent_contributors "acme" "api" "t0ken"
         "https://api.github.com" false w) = Raised (KeyError "author")
  /\ res (@main ascii_runtime (sample_args "" "out.csv" false)
            (world_of (Json [repo_obj "api"] :: Json [] :: feed w)
               ticking []))
     = Raised (KeyError "author").
Proof. vm_compute. split; reflexivity. Qed.

Lemma page_logins_In pages login :
  In login (flat_map page_logins pages)
  <-> exists body commit,
        In body pages /\ In commit body /\ j_author commit = AuthorObj login.
Proof.
  rewrite in_flat_map. split.
  - intros (body & Hbody & Hin). unfold page_logins in Hin.
    rewrite in_flat_map in Hin. destruct Hin as (commit & Hcommit & Hlogin).
    exists body, commit. repeat split; try assumption.
    destruct (j_author commit) as [| |l| |]; simpl in Hlogin;
      try contradiction.
    destruct Hlogin as [->|[]]. reflexivity.
  - intros (body & commit & Hbody & Hcommit & Hauthor).
    exists body. split; [exact Hbody|]. unfold page_logins.
    rewrite in_flat_map. exists commit. split; [exact Hcommit|].
    rewrite Hauthor. left. reflexivity.
Qed.

(** The same subscripting reaches into the author: an author object that
    has keys but no [login] raises [KeyError] too, whereas the empty object
    is false like [null] and is skipped. *)
Example author_without_login_raises :
  let run commits :=
    res (get_recent_contributors "acme" "api" "t0ken"
           "https://api.github.com" false
           (world_of [Json commits; Json []] ticking [])) in
  run [commit_by "alice"; commit_obj AuthorNoLogin] = Raised (KeyError "login")
  /\ run [commit_by "alice"; commit_obj AuthorEmpty] = Returned ["alice"].
Proof. vm_compute. split; reflexivity. Qed.

(** C4, amended.  When every commit of the listing has the [author] key and
    every author that is an object with keys has the [login] key
    ([authored_page]), the collector returns and its result is the set of
    the logins of these authors: the commits whose author is [null] add
    nothing and raise nothing.  The proviso cannot be dropped: when, after
    such pages, a page holds a commit that lacks one of the two keys, the
    commits before it in the page having theirs, the collector ends with the
    [KeyError] of that key. *)
Theorem null_authors_are_skipped
    (org repo token base_url : string) (debug : bool)
    (pages : list (list jobject)) (rest : list response) (w : World) :
  Forall authored_page pages ->
  feed w = map Json pages ++ Json [] :: rest ->
  let r := get_recent_contributors org repo token base_url debug w in
  res r = Returned (add_all (flat_map page_logins pages) [])
  /\ NoDup (add_all (flat_map page_logins pages) [])
  /\ (forall login,
        In login (add_all (flat_map page_logins pages) [])
        <-> exists body commit,
              In body pages /\ In commit body
              /\ j_author commit = AuthorObj login)
  /\ (forall good bad after key w',
        Forall has_author good ->
        missing_key bad = Some key ->
        feed w' = map Json pages ++ Json (good ++ bad :: after) :: rest ->
        res (get_recent_contributors org repo token base_url debug w')
        = Raised (KeyError key)).
Proof.
  intros Hpages Hfeed.
  destruct (get_recent_contributors_run org repo token base_url debug
              pages (Json []) rest w Hpages I Hfeed) as [Hres _].
  split; [exact Hres|]. split; [|split].
  - apply add_all_NoDup. constructor.
  - intros login. rewrite add_all_In, page_logins_In. simpl. tauto.
  - intros good bad after key w' Hgood Hbad Hfeed'.
    apply (get_recent_contributors_key_error org repo token base_url debug
             pages good bad after rest w' key Hpages Hgood Hbad Hfeed').
Qed.

(** Three commits, two by [alice] and one whose author is [null]: the
    contributor set is [{alice}].  With an author that has keys but no
    [login] in place of the [null] one, the collector raises. *)
Lemma null_authors_are_skipped_witness :
  let run commits :=
    res (get_recent_contributors "acme" "api" "t0ken"
           "https://api.github.com" false
           (world_of [Json commits; Json []] ticking [])) in
  run [commit_by "alice"; commit_obj AuthorNull; commit_by "alice"]
  = Returned ["alice"]
  /\ run [commit_by "alice"; commit_obj AuthorNoLogin; commit_by "alice"]
     = Raised (KeyError "login").
Proof.
  intros run. split.
  - apply (null_authors_are_skipped
             "acme" "api" "t0ken" "https://api.github.com" false
             [[commit_by "alice"; commit_obj AuthorNull; commit_by "alice"]]
             [] (world_of [Json [commit_by "alice"; commit_obj AuthorNull;
                                 commit_by "alice"]; Json []] ticking []));
      shape.
  - apply (proj2 (proj2 (proj2
             (null_authors_are_skipped
                "acme" "api" "t0ken" "https://api.github.com" false
                [] [Json []] (world_of [Json []; Json []] ticking [])
                (Forall_nil _) eq_refl)))
             [commit_by "alice"] (commit_obj AuthorNoLogin)
             [commit_by "alice"] "login"); shape.
Defined.

(** C1, as stated, fails when the lister returns a repository twice: the
    list holds one distinct repository, and [alice] is counted twice. *)
Lemma repository_listed_twice_is_counted_twice :
  let args := sample_args "" "out.csv" false in
  let w := world_of repeated_feed ticking [] in
  let listing := @get_repositories ascii_runtime (org args) (token args)
                   (github_url args) (exclude args) (debug args) w in
  exists listed counts,
    res listing = Returned listed
    /\ res (@aggregate ascii_runtime args listed [] (final listing))
       = Returned counts
    /\ nodup string_dec listed = ["api"]
    /\ dict_get "alice" 0 counts = 2
    /\ file_lookup "out.csv" (files (final (@main ascii_runtime args w)))
       = Some ("Developer,Number of Repos" ++ crlf ++ "alice,2" ++ crlf)%string.
Proof.
  exists ["api"; "api"], [("alice", 2)]. vm_compute. repeat split.
Qed.

(** C1, amended.  Take a run whose repository listing returns and in which
    the collector returns for every entry of the list.  The aggregation
    returns, and the count it ends with for a login is the number of entries
    of the list (a repository listed twice counting twice) whose
    contributor set, as the collector returned it for that entry, holds the
    login.  Each entry adds one or nothing, whatever the number of commits:
    the sets hold no login twice.  A login has a count if and only if some
    set holds it.  These counts are the ones written to the CSV file. *)
Theorem count_is_number_of_listed_entries {py : PyRuntime} (args : Args)
    (w : World) (listed : list string) (sets : list (list string)) :
  let listing := get_repositories (org args) (token args) (github_url args)
                   (exclude args) (debug args) w in
  res listing = Returned listed ->
  contributor_sets args listed (final listing) = Some sets ->
  exists counts,
    res (aggregate args listed [] (final listing)) = Returned counts
    /\ List.length sets = List.length listed
    /\ Forall (@NoDup string) sets
    /\ (forall login,
          dict_get login 0 counts
          = List.length (filter (set_mem login) sets))
    /\ (forall login,
          In login (dict_keys counts)
          <-> exists cs, In cs sets /\ In login cs)
    /\ (set_mem (output_csv args) (unwritable w) = false ->
        res (main args w) = Returned tt
        /\ file_lookup (output_csv args) (files (final (main args w)))
           = Some (csv_text counts)).
Proof.
  intros listing Hl Hsets. subst listing.
  pose proof (aggregate_sets args listed [] _ sets Hsets) as Ha.
  destruct (aggregate_returned args listed [] _ _ Ha)
    as (sets' & Hsets' & _ & Hlen & Hnd).
  rewrite Hsets in Hsets'. injection Hsets' as <-.
  exists (tally sets []). split; [exact Ha|].
  split; [exact Hlen|]. split; [exact Hnd|]. split; [|split].
  - intros login. rewrite (tally_get login sets [] Hnd). reflexivity.
  - intros login. rewrite tally_keys, add_all_In, in_flat_map. simpl. split.
    + intros [(cs & Hcs & Hin)|[]]. exists cs. split; [exact Hcs|].
      eapply Permutation_in; [apply set_iter_perm | exact Hin].
    + intros (cs & Hcs & Hin). left. exists cs. split; [exact Hcs|].
      eapply Permutation_in; [apply Permutation_sym, set_iter_perm | exact Hin].
  - intros Hw.
    destruct (main_reaches_writer args w listed _ Hl Ha) as (Hres & Hfin & _).
    match type of Hres with
    | _ = res (write_to_csv _ _ _ ?v) =>
        assert (Hv : set_mem (output_csv args) (unwritable v) = false)
    end.
    { rewrite (issues_unwritable _ _ _ (issues_aggregate args listed [])).
      rewrite (issues_unwritable _ _ _
                 (issues_get_repositories _ _ _ _ _)). exact Hw. }
    destruct (write_to_csv_run (output_csv args) (debug args)
                (tally sets []) _ Hv) as [Hwres Hwfin].
    rewrite Hres, Hfin, Hwres, Hwfin. split; [reflexivity|].
    cbn [files with_files]. apply file_lookup_store.
Qed.

(** The scenario of the specification: [alice] is counted for [api] and for
    [web], [bob] for [api]. *)
Lemma count_is_number_of_listed_entries_witness :
  exists counts,
    res (@aggregate ascii_runtime scenario_args ["api"; "web"] []
           (final (@get_repositories ascii_runtime "acme" "t0ken"
                     "https://api.github.com" "legacy" false scenario_world)))
    = Returned counts
    /\ dict_get "alice" 0 counts = 2
    /\ dict_get "bob" 0 counts = 1
    /\ dict_get "carol" 0 counts = 0.
Proof.
  destruct (@count_is_number_of_listed_entries ascii_runtime scenario_args
              scenario_world ["api"; "web"] [["alice"; "bob"]; ["alice"]])
    as (counts & Hres & _ & _ & Hcount & _);
    [vm_compute; reflexivity | vm_compute; reflexivity |].
  exists counts. split; [exact Hres|].
  rewrite !Hcount. repeat split.
Defined.

(** *** The text of the rows *)

Lemma digits_need_no_quotes (d : uint) :
  csv_needs_quotes (NilEmpty.string_of_uint d) = false.
Proof. induction d; simpl; assumption || reflexivity. Qed.

Lemma str_of_nat_needs_no_quotes (n : nat) :
  csv_needs_quotes (str_of_nat n) = false.
Proof.
  unfold str_of_nat, NilZero.string_of_uint.
  destruct (Nat.to_uint n) eqn:E; try reflexivity;
    rewrite <- E; apply digits_need_no_quotes.
Qed.

Lemma csv_row_plain (developer : string) (count : nat) :
  csv_needs_quotes developer = false ->
  csv_row [developer; str_of_nat count]
  = (developer ++ "," ++ str_of_nat count ++ crlf)%string.
Proof.
  intros Hplain. unfold csv_row, csv_field. cbn [map String.concat].
  rewrite Hplain, str_of_nat_needs_no_quotes, !str_app_assoc. reflexivity.
Qed.

(** C6.  On a path that can be written, the CSV writer returns and leaves
    in the file, whatever was there before, the header row
    [Developer,Number of Repos] followed by one row per entry of the dict,
    in the order of the dict; a row is [<login>,<count>], the login being
    quoted by the rules of CSV when it holds a special character.  No other
    file changes.  The order of the dict that the aggregation builds is the
    order in which the logins were first met, going through the contributor
    sets repository by repository. *)
Theorem csv_is_header_then_rows_in_first_seen_order {py : PyRuntime}
    (args : Args) :
  (forall d filename debug w,
     set_mem filename (unwritable w) = false ->
     let r := write_to_csv d filename debug w in
     res r = Returned tt
     /\ file_lookup filename (files (final r))
        = Some (csv_row ["Developer"; "Number of Repos"]
                ++ String.concat ""
                     (map (fun '(developer, count) =>
                             csv_row [developer; str_of_nat count]) d))%string
     /\ (forall other, other <> filename ->
           file_lookup other (files (final r)) = file_lookup other (files w)))
  /\ csv_row ["Developer"; "Number of Repos"]
     = ("Developer,Number of Repos" ++ crlf)%string
  /\ (forall developer count,
        csv_needs_quotes developer = false ->
        csv_row [developer; str_of_nat count]
        = (developer ++ "," ++ str_of_nat count ++ crlf)%string)
  /\ (forall listed w counts,
        res (aggregate args listed [] w) = Returned counts ->
        exists sets,
          contributor_sets args listed w = Some sets
          /\ dict_keys counts = first_seen (flat_map set_iter sets)).
Proof.
  split; [|split; [|split]].
  - intros d filename debug w Hw r.
    destruct (write_to_csv_run filename debug d w Hw) as [Hres Hfin].
    subst r. rewrite Hfin. cbn [files with_files].
    split; [exact Hres|]. split.
    + apply file_lookup_store.
    + intros other Hother. apply file_lookup_store_other. exact Hother.
  - reflexivity.
  - apply csv_row_plain.
  - intros listed w counts Hrun.
    destruct (aggregate_returned args listed [] w counts Hrun)
      as (sets & Hsets & -> & _).
    exists sets. split; [exact Hsets|].
    rewrite tally_keys. apply add_all_nil_first_seen.
Qed.

Lemma csv_is_header_then_rows_in_first_seen_order_witness :
  let w := {| feed := []; requests := []; clock := ticking;
              files := [("out.csv", "stale"); ("notes.txt", "kept")];
              unwritable := [] |} in
  let r := write_to_csv [("alice", 2); ("bob", 1)] "out.csv" false w in
  res r = Returned tt
  /\ file_lookup "out.csv" (files (final r))
     = Some ("Developer,Number of Repos" ++ crlf
             ++ "alice,2" ++ crlf ++ "bob,1" ++ crlf)%string
  /\ file_lookup "notes.txt" (files (final r)) = Some "kept".
Proof.
  intros w r.
  destruct (proj1 (@csv_is_header_then_rows_in_first_seen_order ascii_runtime
                     scenario_args)
              [("alice", 2); ("bob", 1)] "out.csv" false w eq_refl)
    as (Hres & Hfile & Hother).
  split; [exact Hres|]. split; [exact Hfile|].
  unfold r. rewrite (Hother "notes.txt"); [reflexivity | discriminate].
Defined.

(** The same commits with sets that iterate the other way round: [bob] is
    met first and comes first in the file. *)
Example first_seen_order_follows_set_iteration :
  file_lookup "out.csv"
    (files (final (@main reversing_runtime scenario_args scenario_world)))
  = Some ("Developer,Number of Repos" ++ crlf
          ++ "bob,1" ++ crlf ++ "alice,2" ++ crlf)%string.
Proof. vm_compute. reflexivity. Qed.

(** C7, as stated, fails: the summary line is printed before the CSV file
    is opened, so a run that ends in [IOError] has printed it. *)
Lemma summary_is_printed_although_csv_fails :
  let args := sample_args "" "/srv/report/out.csv" false in
  let w := world_of [Json []] ticking ["/srv/report/out.csv"] in
  res (@main ascii_runtime args w) = Raised (IOError "/srv/report/out.csv")
  /\ printed (@main ascii_runtime args w)
     = ["Total unique developers in acme who have committed in the past 90 days: 0"].
Proof. vm_compute. split; reflexivity. Qed.

(** C7, amended.  In a run whose listing and aggregation return, the
    summary line is printed before the CSV writer starts, whether writing
    then succeeds or not: it comes after all that the listing and the
    aggregation printed and before all that the writer prints.  When the
    output path cannot be written the run ends in [IOError] with the
    summary as the last line printed and no file changed. *)
Theorem summary_is_printed_before_csv_is_written {py : PyRuntime}
    (args : Args) (w : World) (listed : list string) (counts : dict) :
  let listing := get_repositories (org args) (token args) (github_url args)
                   (exclude args) (debug args) w in
  let aggregation := aggregate args listed [] (final listing) in
  let writing := write_to_csv counts (output_csv args) (debug args)
                   (final aggregation) in
  res listing = Returned listed ->
  res aggregation = Returned counts ->
  res (main args w) = res writing
  /\ printed (main args w)
     = printed listing ++ printed aggregation
       ++ summary_line (org args) (List.length counts) :: printed writing
  /\ (set_mem (output_csv args) (unwritable w) = true ->
      res (main args w) = Raised (IOError (output_csv args))
      /\ printed writing = []
      /\ files (final (main args w)) = files w).
Proof.
  intros listing aggregation writing Hl Ha.
  subst listing aggregation writing.
  destruct (main_reaches_writer args w listed counts Hl Ha)
    as (Hres & Hfin & Hprinted).
  split; [exact Hres|]. split; [exact Hprinted|].
  intros Hlocked.
  match type of Hres with
  | _ = res (write_to_csv _ _ _ ?v) =>
      assert (Hw : set_mem (output_csv args) (unwritable v) = true)
  end.
  { rewrite (issues_unwritable _ _ _ (issues_aggregate args listed [])).
    rewrite (issues_unwritable _ _ _
               (issues_get_repositories _ _ _ _ _)). exact Hlocked. }
  pose proof (write_to_csv_fails (output_csv args) (debug args) counts
                _ Hw) as Hfail.
  rewrite Hres, Hfail. repeat split.
  apply main_files_untouched. intros u. rewrite Hres, Hfail. discriminate.
Qed.

Lemma summary_is_printed_before_csv_is_written_witness :
  let args := sample_args "legacy" "/srv/report/out.csv" false in
  let w := world_of scenario_feed ticking ["/srv/report/out.csv"] in
  res (@main ascii_runtime args w) = Raised (IOError "/srv/report/out.csv")
  /\ files (final (@main ascii_runtime args w)) = [].
Proof.
  intros args w.
  destruct (@summary_is_printed_before_csv_is_written ascii_runtime args w
              ["api"; "web"] [("alice", 2); ("bob", 1)])
    as (_ & _ & Hlocked); [vm_compute; reflexivity ..|].
  destruct (Hlocked eq_refl) as (Hres & _ & Hfiles).
  split; [exact Hres | exact Hfiles].
Defined.

Lemma while_fuel_break {S} (body : S -> M (loop_ctl S)) s w n s' :
  res (body s w) = Returned (Break s') ->
  while_fuel (Datatypes.S n) body s w
  = mkRun (Returned s') (final (body s w)) (printed (body s w) ++ []).
Proof. intros H. cbn [while_fuel]. unfold bind. rewrite H. reflexivity. Qed.

(** The lister on an organization whose first page is empty. *)
Lemma get_repositories_empty {py : PyRuntime}
    org token base_url exclude_filter debug rest w :
  feed w = Json [] :: rest ->
  let r := get_repositories org token base_url exclude_filter debug w in
  res r = Returned []
  /\ final r = sent (repos_url base_url org 1) token rest w
  /\ (debug = false -> printed r = []).
Proof.
  intros Hfeed. cbv zeta. unfold get_repositories.
  destruct (lister_step_empty org token base_url exclude_filter debug
              {| repos := []; page := 1; total_fetched_repos := 0 |}
              w rest Hfeed) as (Hres & Hfin & Hprinted).
  pose proof (while_fuel_break _ _ _ (List.length (feed w)) _ Hres) as Hloop.
  rewrite Hfin in Hloop.
  change (while_fuel (S (List.length (feed w)))
            (lister_step org token base_url exclude_filter debug)
            {| repos := []; page := 1; total_fetched_repos := 0 |} w)
    with (while_true (lister_step org token base_url exclude_filter debug)
            {| repos := []; page := 1; total_fetched_repos := 0 |} w)
    in Hloop.
  rewrite (bind_run _ _ _ _ _ _ Hloop). cbn [res final printed].
  match goal with
  | |- context [final (_ ?v)] =>
      destruct (lister_epilogue org token base_url exclude_filter debug
                  {| repos := []; page := 1; total_fetched_repos := 0 + 0 |} v)
        as (He1 & He2 & He3)
  end.
  cbv zeta in He1, He2, He3. cbn [repos total_fetched_repos] in He1, He2, He3.
  split; [exact He1|]. split; [exact He2|].
  intros Hdebug. subst debug. rewrite (Hprinted eq_refl). reflexivity.
Qed.

(** C8.  When page 1 of the organization's listing is empty and the output
    path can be written, the run returns, the CSV file holds the header row
    and nothing else, and the summary line, which reports 0 developers, is
    printed; without the debug flag it is the only line printed. *)
Theorem empty_organization_gives_header_only {py : PyRuntime}
    (args : Args) (rest : list response) (w : World) :
  feed w = Json [] :: rest ->
  set_mem (output_csv args) (unwritable w) = false ->
  let r := main args w in
  res r = Returned tt
  /\ file_lookup (output_csv args) (files (final r))
     = Some ("Developer,Number of Repos" ++ crlf)%string
  /\ In ("Total unique developers in " ++ org args
           ++ " who have committed in the past 90 days: 0")%string
        (printed r)
  /\ (debug args = false ->
      printed r
      = [("Total unique developers in " ++ org args
            ++ " who have committed in the past 90 days: 0")%string]).
Proof.
  intros Hfeed Hw r.
  destruct (get_repositories_empty (org args) (token args) (github_url args)
              (exclude args) (debug args) rest w Hfeed)
    as (Hl & Hlfin & Hlprinted).
  cbv zeta in Hl, Hlfin, Hlprinted.
  destruct (main_reaches_writer args w [] [] Hl eq_refl)
    as (Hres & Hfin & Hprinted).
  cbn [aggregate for_loop ret final printed] in Hres, Hfin, Hprinted.
  rewrite Hlfin in Hres, Hfin, Hprinted.
  set (w1 := sent (repos_url (github_url args) (org args) 1) (token args)
               rest w) in *.
  assert (Hw1 : set_mem (output_csv args) (unwritable w1) = false)
    by exact Hw.
  destruct (write_to_csv_run (output_csv args) (debug args) [] w1 Hw1)
    as [Hwres Hwfin].
  subst r. rewrite Hres, Hfin, Hprinted, Hwres, Hwfin.
  split; [reflexivity|]. split.
  { cbn [files with_files]. rewrite file_lookup_store. reflexivity. }
  split.
  - apply in_or_app. right. left. reflexivity.
  - intros Hdebug. rewrite (Hlprinted Hdebug), Hdebug. cbn [app].
    unfold write_to_csv, open_w, bind. rewrite Hw1. reflexivity.
Qed.

Lemma empty_organization_gives_header_only_witness :
  let w := world_of [Json []] ticking [] in
  res (@main ascii_runtime (sample_args "" "out.csv" false) w) = Returned tt
  /\ files (final (@main ascii_runtime (sample_args "" "out.csv" false) w))
     = [("out.csv", ("Developer,Number of Repos" ++ crlf)%string)].
Proof.
  intros w.
  destruct (@empty_organization_gives_header_only ascii_runtime
              (sample_args "" "out.csv" false) [] w eq_refl eq_refl)
    as (Hres & _).
  split; [exact Hres | reflexivity].
Defined.

(** C10.  For the same world, hence the same responses of the API, a run
    with the debug flag and the run without it have the same outcome and
    leave the same world: the same requests issued, the same responses
    consumed, the same files.  So do the lister, the collector, the
    aggregation and the CSV writer taken one by one; they differ in the
    lines printed only. *)
Theorem debug_flag_changes_printed_lines_only {py : PyRuntime}
    (args : Args) :
  let quiet := without_debug args in
  debug quiet = false
  /\ (forall w,
        let f dbg := get_repositories (org args) (token args)
                       (github_url args) (exclude args) dbg w in
        res (f (debug args)) = res (f false)
        /\ final (f (debug args)) = final (f false))
  /\ (forall repo w,
        let f dbg := get_recent_contributors (org args) repo (token args)
                       (github_url args) dbg w in
        res (f (debug args)) = res (f false)
        /\ final (f (debug args)) = final (f false))
  /\ (forall listed counts w,
        res (aggregate args listed counts w)
        = res (aggregate quiet listed counts w)
        /\ final (aggregate args listed counts w)
           = final (aggregate quiet listed counts w))
  /\ (forall counts w,
        let f dbg := write_to_csv counts (output_csv args) dbg w in
        res (f (debug args)) = res (f false)
        /\ final (f (debug args)) = final (f false))
  /\ (forall w,
        res (main args w) = res (main quiet w)
        /\ final (main args w) = final (main quiet w)
        /\ files (final (main args w)) = files (final (main quiet w))).
Proof.
  cbv zeta. split; [reflexivity|]. split; [|split; [|split; [|split]]].
  - intros w. apply get_repositories_quiet.
  - intros repo w. apply get_recent_contributors_quiet.
  - intros listed counts w. apply aggregate_quiet.
  - intros counts w. apply write_to_csv_quiet.
  - intros w. destruct (main_quiet args w) as [Hres Hfin].
    rewrite Hres, Hfin. repeat split.
Qed.

(** The scenario with the flag and without it. *)
Example scenario_debug_and_quiet :
  let loud := @main ascii_runtime (sample_args "legacy" "out.csv" true)
                scenario_world in
  let quiet := @main ascii_runtime (sample_args "legacy" "out.csv" false)
                 scenario_world in
  files (final loud) = files (final quiet)
  /\ List.length (printed loud) = 26
  /\ List.length (printed quiet) = 1.
Proof. vm_compute. repeat split. Qed.

(** * Further properties of the code *)

(** ** Computations that never wait *)

Lemma prompt_ret {A} (a : A) : prompt (ret a).
Proof. intros w. discriminate. Qed.

Lemma prompt_raise {A} (e : exn) : prompt (@raise A e).
Proof. intros w. discriminate. Qed.

Lemma prompt_print (s : string) : prompt (print s).
Proof. intros w. discriminate. Qed.

Lemma prompt_bind {A B} (m : M A) (f : A -> M B) :
  prompt m -> (forall a, prompt (f a)) -> prompt (bind m f).
Proof.
  intros Hm Hf w. rewrite res_bind.
  destruct (res (m w)) as [a| |] eqn:E; [apply Hf | discriminate |].
  exfalso. exact (Hm w E).
Qed.

Lemma prompt_when (b : bool) (m : M unit) : prompt m -> prompt (when b m).
Proof. destruct b; simpl; auto using prompt_ret. Qed.

Lemma prompt_for_loop {A S} (l : list A) (body : A -> S -> M S) :
  (forall x s, prompt (body x s)) -> forall s, prompt (for_loop l body s).
Proof.
  intros Hbody. induction l as [|x l IH]; intros s; cbn [for_loop].
  - apply prompt_ret.
  - apply prompt_bind; auto.
Qed.

Lemma prompt_getitem_name (o : jobject) : prompt (getitem_name o).
Proof.
  unfold getitem_name. destruct (j_name o); auto using prompt_ret, prompt_raise.
Qed.

Lemma prompt_getitem_author (o : jobject) : prompt (getitem_author o).
Proof.
  unfold getitem_author.
  destruct (j_author o); auto using prompt_ret, prompt_raise.
Qed.

Lemma prompt_getitem_login (a : author_field) : prompt (getitem_login a).
Proof.
  unfold getitem_login. destruct a; auto using prompt_ret, prompt_raise.
Qed.

#[export] Hint Resolve prompt_ret prompt_raise prompt_print prompt_bind
  prompt_when prompt_for_loop prompt_getitem_name prompt_getitem_author
  prompt_getitem_login : inert.

(** A handler that leaves the world alone leaves the [try] where its body
    left it. *)
Lemma final_try_except {A} (m : M A) (h : exn -> option (M A)) w :
  (forall e k, h e = Some k -> inert k) ->
  final (try_except m h w) = final (m w).
Proof.
  intros Hh. unfold try_except.
  destruct (res (m w)) as [a|e|]; try reflexivity.
  destruct (h e) as [k|] eqn:Ek; [|reflexivity].
  cbn [final]. apply (Hh e k Ek).
Qed.

Lemma res_try_except {A} (m : M A) (h : exn -> option (M A)) w :
  res (try_except m h w) =
  match res (m w) with
  | Raised e =>
      match h e with
      | Some k => res (k (final (m w)))
      | None => Raised e
      end
  | other => other
  end.
Proof.
  unfold try_except. destruct (res (m w)) as [a|e|] eqn:E; try exact E.
  destruct (h e); [reflexivity | exact E].
Qed.

(** ** One request per iteration *)

Section ListerSteps.

Context {py : PyRuntime}.
Variables (org token base_url exclude_filter : string) (debug : bool).

Let step := lister_step org token base_url exclude_filter debug.

(** What follows the request in an iteration of the lister. *)
Let after_fetch (st : lister_locals) (result : list jobject)
  : M (loop_ctl lister_locals) :=
  when debug
    (print ("Fetched " ++ str_of_nat (List.length result)
              ++ " repositories on page " ++ str_of_nat (page st) ++ ".") ;;
     for_each result (fun repo =>
       n <- getitem_name repo ;; print ("Repo name: " ++ n))) ;;
  match result with
  | [] => ret (Break {| repos := repos st; page := page st;
                        total_fetched_repos :=
                          total_fetched_repos st + List.length result |})
  | _ =>
      repos' <- for_loop result (fun repo acc =>
                  repo_name <- getitem_name repo ;;
                  if excluded exclude_filter repo_name
                  then ret acc
                  else ret (acc ++ [repo_name])) (repos st) ;;
      ret (Continue {| repos := repos'; page := page st + 1;
                       total_fetched_repos :=
                         total_fetched_repos st + List.length result |})
  end.

Lemma after_fetch_inert st result : inert (after_fetch st result).
Proof.
  unfold after_fetch.
  apply inert_bind; [unfold for_each; auto 8 with inert|]. intros _.
  destruct result as [|o result]; [apply inert_ret|].
  apply inert_bind; [|auto with inert].
  apply inert_for_loop. intros x s.
  apply inert_bind; [apply inert_getitem_name|].
  intros n. destruct (excluded exclude_filter n); apply inert_ret.
Qed.

Lemma after_fetch_prompt st result : prompt (after_fetch st result).
Proof.
  unfold after_fetch.
  apply prompt_bind; [unfold for_each; auto 8 with inert|]. intros _.
  destruct result as [|o result]; [apply prompt_ret|].
  apply prompt_bind; [|auto with inert].
  apply prompt_for_loop. intros x s.
  apply prompt_bind; [apply prompt_getitem_name|].
  intros n. destruct (excluded exclude_filter n); apply prompt_ret.
Qed.

(** The state an iteration hands to the next one. *)
Lemma after_fetch_continue st result w st' :
  res (after_fetch st result w) = Returned (Continue st') ->
  page st' = page st + 1
  /\ exists names,
       repos st' = repos st ++ names
       /\ Forall (fun n => excluded exclude_filter n = false) names.
Proof.
  unfold after_fetch. intros Hrun.
  apply bind_returned in Hrun. destruct Hrun as (_ & _ & Hrun).
  destruct result as [|o result]; [discriminate|].
  apply bind_returned in Hrun. destruct Hrun as (repos' & Hloop & Hret).
  injection Hret as <-. cbn [page repos]. split; [reflexivity|].
  revert Hloop.
  apply (for_loop_invariant
           (fun acc => exists names,
              acc = repos st ++ names
              /\ Forall (fun n => excluded exclude_filter n = false) names)).
  - clear. intros repo acc w acc' (names & -> & Hnames) Hbody.
    apply bind_returned in Hbody. destruct Hbody as (n & _ & Hbody).
    destruct (excluded exclude_filter n) eqn:En; injection Hbody as <-.
    + exists names. split; [reflexivity | exact Hnames].
    + exists (names ++ [n]). split; [symmetry; apply app_assoc|].
      apply Forall_app. split; [exact Hnames|]. repeat constructor. exact En.
  - exists []. split; [symmetry; apply app_nil_r | constructor].
Qed.

Lemma after_fetch_break st result w st' :
  res (after_fetch st result w) = Returned (Break st') ->
  repos st' = repos st.
Proof.
  unfold after_fetch. intros Hrun.
  apply bind_returned in Hrun. destruct Hrun as (_ & _ & Hrun).
  destruct result as [|o result].
  - injection Hrun as <-. reflexivity.
  - apply bind_returned in Hrun. destruct Hrun as (? & _ & Hret).
    discriminate.
Qed.

Lemma lister_step_shape st :
  step st =
  try_except
    (result <- get_github_api (repos_url base_url org (page st)) token debug ;;
     after_fetch st result)
    (fun e =>
       match e with
       | RequestException msg =>
           Some (print ("Error fetching repositories: " ++ msg) ;;
                 ret (Break st))
       | _ => None
       end).
Proof. reflexivity. Qed.

Lemma lister_handler_inert st e (k : M (loop_ctl lister_locals)) :
  match e with
  | RequestException msg =>
      Some (print ("Error fetching repositories: " ++ msg) ;;
            ret (Break st))
  | _ => None
  end = Some k ->
  inert k /\ forall w, res (k w) = Returned (Break st).
Proof.
  destruct e as [msg|key|path]; try discriminate.
  intros H. injection H as <-. split; [auto with inert|].
  intros w. reflexivity.
Qed.

Lemma lister_step_pending st w :
  feed w = [] -> res (step st w) = Pending /\ final (step st w) = w.
Proof.
  intros Hfeed. rewrite lister_step_shape. unfold try_except, bind.
  rewrite (api_pending _ _ _ _ Hfeed). split; reflexivity.
Qed.

(** An iteration that finds a response consumes it, whatever it is, having
    issued the request for the current page; it does not wait; if it
    continues, the page number is one more and the names added are names the
    filter does not exclude; if it breaks, the names are as they were. *)
Lemma lister_step_consumes st w r rest :
  feed w = r :: rest ->
  final (step st w) = sent (repos_url base_url org (page st)) token rest w
  /\ res (step st w) <> Pending
  /\ (forall st',
        res (step st w) = Returned (Continue st') ->
        page st' = page st + 1
        /\ exists names,
             repos st' = repos st ++ names
             /\ Forall (fun n => excluded exclude_filter n = false) names)
  /\ (forall st', res (step st w) = Returned (Break st') ->
        repos st' = repos st).
Proof.
  intros Hfeed. destruct r as [msg|msg|body].
  - destruct (lister_step_failure org token base_url exclude_filter debug
                st w msg rest (or_introl Hfeed)) as (Hres & Hfin & _).
    fold step in Hres, Hfin. rewrite Hres, Hfin.
    repeat split; try discriminate.
    intros st' H. injection H as <-. reflexivity.
  - destruct (lister_step_failure org token base_url exclude_filter debug
                st w msg rest (or_intror Hfeed)) as (Hres & Hfin & _).
    fold step in Hres, Hfin. rewrite Hres, Hfin.
    repeat split; try discriminate.
    intros st' H. injection H as <-. reflexivity.
  - rewrite lister_step_shape.
    set (w1 := sent (repos_url base_url org (page st)) token rest w).
    match goal with
    | |- context [try_except ?m ?h] => set (inner := m); set (handler := h)
    end.
    assert (Hinner : res (inner w) = res (after_fetch st body w1)
                     /\ final (inner w) = w1).
    { unfold inner.
      rewrite (bind_run _ _ _ _ _ _ (api_json _ _ _ _ _ _ Hfeed)).
      cbn [res final]. split; [reflexivity | apply after_fetch_inert]. }
    destruct Hinner as [Hires Hifin].
    split.
    { rewrite final_try_except; [exact Hifin|].
      intros e k Hk. apply (lister_handler_inert st e k Hk). }
    assert (Hres : res (try_except inner handler w) = res (inner w)
                   \/ res (try_except inner handler w) = Returned (Break st)).
    { rewrite res_try_except.
      destruct (res (inner w)) as [c|e|]; auto.
      destruct (handler e) as [k|] eqn:Ek; auto.
      right. apply (lister_handler_inert st e k Ek). }
    split; [|split].
    + destruct Hres as [-> | ->]; [|discriminate].
      rewrite Hires. apply after_fetch_prompt.
    + intros st' H. destruct Hres as [Hr|Hr]; rewrite Hr in H;
        [|discriminate].
      rewrite Hires in H. eapply after_fetch_continue. exact H.
    + intros st' H. destruct Hres as [Hr|Hr]; rewrite Hr in H.
      * rewrite Hires in H. eapply after_fetch_break. exact H.
      * injection H as <-. reflexivity.
Qed.

End ListerSteps.

Section ListerLoop.

Context {py : PyRuntime}.
Variables (org token base_url exclude_filter : string) (debug : bool).

Let step := lister_step org token base_url exclude_filter debug.
Let allowed (names : list string) : Prop :=
  Forall (fun n => excluded exclude_filter n = false) names.

(** The loop of the lister on any feed at all. *)
Lemma lister_loop_any fuel : forall st w,
  List.length (feed w) < fuel ->
  allowed (repos st) ->
  exists n,
    n <= List.length (feed w)
    /\ final (while_fuel fuel step st w)
       = after_requests
           (map (repos_request org token base_url) (seq (page st) n))
           (skipn n (feed w)) w
    /\ (res (while_fuel fuel step st w) = Pending ->
        n = List.length (feed w))
    /\ (forall st', res (while_fuel fuel step st w) = Returned st' ->
        allowed (repos st')).
Proof.
  induction fuel as [|k IH]; intros st w Hfuel Hst; [lia|].
  cbn [while_fuel]. rewrite res_bind, final_bind.
  destruct (feed w) as [|r rest] eqn:Hfeed.
  - destruct (lister_step_pending org token base_url exclude_filter debug
                st w Hfeed) as [Hres Hfin].
    fold step in Hres, Hfin. rewrite Hres, Hfin.
    exists 0. cbn [seq map skipn List.length]. rewrite <- Hfeed.
    rewrite after_requests_nil.
    repeat split; try reflexivity; try discriminate.
  - destruct (lister_step_consumes org token base_url exclude_filter debug
                st w r rest Hfeed) as (Hfin & Hprompt & Hcont & Hbreak).
    fold step in Hfin, Hprompt, Hcont, Hbreak.
    destruct (res (step st w)) as [[st'|st']|e|] eqn:Hres.
    + destruct (Hcont st' eq_refl) as (Hpage & names & Hrepos & Hnames).
      destruct (IH st' (final (step st w))) as (n & Hn & Hf & Hp & Hr).
      { rewrite Hfin. cbn [sent feed List.length] in *. lia. }
      { unfold allowed. rewrite Hrepos. apply Forall_app. split; assumption. }
      rewrite Hfin in Hn, Hf, Hp, Hr. cbn [sent feed] in Hn, Hf, Hp.
      fold (sent (repos_url base_url org (page st)) token rest w) in Hf.
      rewrite after_requests_sent in Hf.
      exists (S n). cbn [List.length skipn seq map]. rewrite Hfin.
      rewrite Hpage in Hf. replace (page st + 1) with (S (page st)) in Hf by lia.
      repeat split.
      * lia.
      * exact Hf.
      * intros HP. rewrite (Hp HP). reflexivity.
      * exact Hr.
    + exists 1. cbn [List.length skipn seq map ret res final].
      rewrite Hfin.
      repeat split; try discriminate; try lia.
      intros st'' H. injection H as <-. unfold allowed.
      rewrite (Hbreak st' eq_refl). exact Hst.
    + exists 1. cbn [List.length skipn seq map]. rewrite Hfin.
      repeat split; try discriminate; lia.
    + contradiction.
Qed.

Lemma get_repositories_any w :
  let r := get_repositories org token base_url exclude_filter debug w in
  exists n,
    n <= List.length (feed w)
    /\ final r
       = after_requests (map (repos_request org token base_url) (seq 1 n))
           (skipn n (feed w)) w
    /\ (res r = Pending -> n = List.length (feed w))
    /\ (forall names, res r = Returned names -> allowed names).
Proof.
  cbv zeta. unfold get_repositories. rewrite res_bind, final_bind.
  unfold while_true.
  destruct (lister_loop_any (S (List.length (feed w)))
              {| repos := []; page := 1; total_fetched_repos := 0 |} w)
    as (n & Hn & Hf & Hp & Hr); [lia | constructor |].
  fold step. cbn [page] in Hf.
  exists n. split; [exact Hn|].
  destruct (res (while_fuel (S (List.length (feed w))) step
                   {| repos := []; page := 1; total_fetched_repos := 0 |} w))
    as [st| |] eqn:Hres.
  - destruct (lister_epilogue org token base_url exclude_filter debug st
                (final (while_fuel (S (List.length (feed w))) step
                   {| repos := []; page := 1; total_fetched_repos := 0 |} w)))
      as (He1 & He2 & _).
    cbv zeta in He1, He2. rewrite He1, He2.
    repeat split; try discriminate; try exact Hf.
    intros names H. injection H as <-. apply Hr. reflexivity.
  - repeat split; try discriminate. exact Hf.
  - repeat split; try discriminate; [exact Hf | intros _; apply Hp; reflexivity].
Qed.

End ListerLoop.

(** X1.  Whatever the responses, the repository lister requests the pages
    1, 2, ..., n of the organization's listing in this order, each once,
    and consumes exactly one response per request; it touches no file; and
    it is left waiting only when it has consumed every response of the
    feed. *)
Theorem lister_requests_consecutive_pages {py : PyRuntime}
    (org token base_url exclude_filter : string) (debug : bool) (w : World) :
  let r := get_repositories org token base_url exclude_filter debug w in
  exists n,
    n <= List.length (feed w)
    /\ requests (final r)
       = requests w ++ map (repos_request org token base_url) (seq 1 n)
    /\ feed (final r) = skipn n (feed w)
    /\ files (final r) = files w
    /\ (res r = Pending -> feed (final r) = []).
Proof.
  cbv zeta.
  destruct (get_repositories_any org token base_url exclude_filter debug w)
    as (n & Hn & Hf & Hp & _).
  cbv zeta in Hf, Hp. exists n. rewrite Hf.
  cbn [after_requests requests feed files].
  repeat split; try assumption.
  intros HP. rewrite (Hp HP). apply skipn_all.
Qed.

(** X2.  Whatever the responses, a name that the exclude filter excludes is
    never in the list the repository lister returns. *)
Theorem lister_never_returns_excluded_name {py : PyRuntime}
    (org token base_url exclude_filter : string) (debug : bool) (w : World)
    (names : list string) (name : string) :
  res (get_repositories org token base_url exclude_filter debug w)
  = Returned names ->
  In name names ->
  excluded exclude_filter name = false.
Proof.
  intros Hres Hin.
  destruct (get_repositories_any org token base_url exclude_filter debug w)
    as (n & _ & _ & _ & Hallowed).
  cbv zeta in Hallowed.
  apply (proj1 (Forall_forall _ _) (Hallowed names Hres)). exact Hin.
Qed.

Lemma lister_never_returns_excluded_name_witness :
  @excluded ascii_runtime "legacy" "web" = false.
Proof.
  apply (@lister_never_returns_excluded_name ascii_runtime
           "acme" "t0ken" "https://api.github.com" "legacy" false
           scenario_world ["api"; "web"] "web").
  - vm_compute. reflexivity.
  - right. left. reflexivity.
Defined.

Section CollectorLoop.

Variables (org repo token base_url : string) (debug : bool)
  (since_date : string).

Let step := collector_step org repo token base_url debug since_date.

(** What follows the request in an iteration of the collector. *)
Let after_fetch (st : collector_locals) (commits : list jobject)
  : M (loop_ctl collector_locals) :=
  match commits with
  | [] => ret (Break st)
  | _ =>
      contributors' <- for_loop commits (add_author repo debug)
                         (contributors st) ;;
      let page' := commit_page st + 1 in
      when debug
        (print ("Processed page " ++ str_of_nat page'
                  ++ " of commits for repository '" ++ repo ++ "'.")) ;;
      ret (Continue {| contributors := contributors';
                       commit_page := page' |})
  end.

Lemma collector_step_shape st :
  step st =
  (commits <- get_github_api
                (commits_url base_url org repo since_date (commit_page st))
                token debug ;;
   after_fetch st commits).
Proof. reflexivity. Qed.

Lemma prompt_add_author commit acc : prompt (add_author repo debug commit acc).
Proof.
  unfold add_author. apply prompt_bind; [auto with inert|].
  intros a. destruct (author_truthy a); auto 6 with inert.
Qed.

Lemma collector_after_fetch_inert st commits : inert (after_fetch st commits).
Proof.
  unfold after_fetch. destruct commits as [|o commits]; [apply inert_ret|].
  apply inert_bind; [|auto with inert].
  apply inert_for_loop. intros commit acc. apply inert_add_author.
Qed.

Lemma collector_after_fetch_prompt st commits :
  prompt (after_fetch st commits).
Proof.
  unfold after_fetch. destruct commits as [|o commits]; [apply prompt_ret|].
  apply prompt_bind; [|auto with inert].
  apply prompt_for_loop. intros commit acc. apply prompt_add_author.
Qed.

Lemma collector_after_fetch_continue st commits w st' :
  res (after_fetch st commits w) = Returned (Continue st') ->
  commit_page st' = commit_page st + 1.
Proof.
  unfold after_fetch. destruct commits as [|o commits]; [discriminate|].
  intros Hrun. apply bind_returned in Hrun.
  destruct Hrun as (cs & _ & Hrun).
  apply bind_returned in Hrun. destruct Hrun as (_ & _ & Hret).
  injection Hret as <-. reflexivity.
Qed.

Lemma collector_step_pending st w :
  feed w = [] -> res (step st w) = Pending /\ final (step st w) = w.
Proof.
  intros Hfeed. rewrite collector_step_shape. unfold bind.
  rewrite (api_pending _ _ _ _ Hfeed). split; reflexivity.
Qed.

Lemma collector_step_consumes st w r rest :
  feed w = r :: rest ->
  final (step st w)
  = sent (commits_url base_url org repo since_date (commit_page st))
      token rest w
  /\ res (step st w) <> Pending
  /\ (forall st', res (step st w) = Returned (Continue st') ->
        commit_page st' = commit_page st + 1).
Proof.
  intros Hfeed. destruct r as [msg|msg|body].
  - destruct (collector_step_failure org repo token base_url debug since_date
                st w msg rest (or_introl Hfeed)) as (Hres & Hfin).
    fold step in Hres, Hfin. rewrite Hres, Hfin.
    repeat split; discriminate.
  - destruct (collector_step_failure org repo token base_url debug since_date
                st w msg rest (or_intror Hfeed)) as (Hres & Hfin).
    fold step in Hres, Hfin. rewrite Hres, Hfin.
    repeat split; discriminate.
  - rewrite collector_step_shape.
    rewrite (bind_run _ _ _ _ _ _ (api_json _ _ _ _ _ _ Hfeed)).
    cbn [res final]. split; [apply collector_after_fetch_inert|].
    split; [apply collector_after_fetch_prompt|].
    intros st'. apply collector_after_fetch_continue.
Qed.

Lemma collector_loop_any fuel : forall st w,
  List.length (feed w) < fuel ->
  exists n,
    n <= List.length (feed w)
    /\ final (while_fuel fuel step st w)
       = after_requests
           (map (commits_request org repo token base_url since_date)
              (seq (commit_page st) n))
           (skipn n (feed w)) w
    /\ (res (while_fuel fuel step st w) = Pending ->
        n = List.length (feed w))
    /\ (feed w <> [] -> 1 <= n).
Proof.
  induction fuel as [|k IH]; intros st w Hfuel; [lia|].
  cbn [while_fuel]. rewrite res_bind, final_bind.
  destruct (feed w) as [|r rest] eqn:Hfeed.
  - destruct (collector_step_pending st w Hfeed) as [Hres Hfin].
    rewrite Hres, Hfin.
    exists 0. cbn [seq map skipn List.length]. rewrite <- Hfeed.
    rewrite after_requests_nil. repeat split; try reflexivity.
    intros Hne. contradiction.
  - destruct (collector_step_consumes st w r rest Hfeed)
      as (Hfin & Hprompt & Hcont).
    destruct (res (step st w)) as [[st'|st']|e|] eqn:Hres.
    + pose proof (Hcont st' eq_refl) as Hpage.
      destruct (IH st' (final (step st w))) as (n & Hn & Hf & Hp & _).
      { rewrite Hfin. cbn [sent feed List.length] in *. lia. }
      rewrite Hfin in Hn, Hf, Hp. cbn [sent feed] in Hn, Hf, Hp.
      fold (sent (commits_url base_url org repo since_date (commit_page st))
              token rest w) in Hf.
      rewrite after_requests_sent in Hf.
      exists (S n). cbn [List.length skipn seq map]. rewrite Hfin.
      rewrite Hpage in Hf.
      replace (commit_page st + 1) with (S (commit_page st)) in Hf by lia.
      repeat split.
      * lia.
      * exact Hf.
      * intros HP. rewrite (Hp HP). reflexivity.
      * lia.
    + exists 1. cbn [List.length skipn seq map ret res final].
      rewrite Hfin. repeat split; try discriminate; lia.
    + exists 1. cbn [List.length skipn seq map]. rewrite Hfin.
      repeat split; try discriminate; lia.
    + contradiction.
Qed.

End CollectorLoop.

Lemma get_recent_contributors_any org repo token base_url debug w :
  let r := get_recent_contributors org repo token base_url debug w in
  exists n,
    n <= List.length (feed w)
    /\ final r
       = after_requests
           (map (commits_request org repo token base_url (since_of (now w)))
              (seq 1 n))
           (skipn n (feed w)) w
    /\ (res r = Pending -> n = List.length (feed w))
    /\ (feed w <> [] -> 1 <= n).
Proof.
  cbv zeta. unfold get_recent_contributors.
  rewrite (bind_run datetime_now _ w w (now w) [] eq_refl).
  cbn [res final]. rewrite res_bind, final_bind. unfold while_true.
  destruct (collector_loop_any org repo token base_url debug
              (since_of (now w)) (S (List.length (feed w)))
              {| contributors := []; commit_page := 1 |} w)
    as (n & Hn & Hf & Hp & Hfirst); [lia|].
  cbn [commit_page] in Hf. exists n. split; [exact Hn|].
  destruct (res (while_fuel _ _ _ w)) as [st| |] eqn:Hres;
    cbn [ret res final]; repeat split; try discriminate; try exact Hf;
    try exact Hfirst.
  intros _. apply Hp. reflexivity.
Qed.

(** A call of the collector that returns has read an empty page, so it had
    a response to read. *)
Lemma get_recent_contributors_returned org repo token base_url debug w cs :
  res (get_recent_contributors org repo token base_url debug w) = Returned cs ->
  feed w <> [].
Proof.
  intros Hres Hfeed. unfold get_recent_contributors in Hres.
  rewrite (bind_run datetime_now _ w w (now w) [] eq_refl) in Hres.
  cbn [res] in Hres. rewrite res_bind in Hres. unfold while_true in Hres.
  rewrite Hfeed in Hres. cbn [List.length while_fuel] in Hres.
  rewrite res_bind in Hres.
  destruct (collector_step_pending org repo token base_url debug
              (since_of (now w)) {| contributors := []; commit_page := 1 |}
              w Hfeed) as [Hp _].
  rewrite Hp in Hres. discriminate.
Qed.

(** X3.  Whatever the responses, a call of the contributor collector
    requests the pages 1, 2, ..., n of the commits of its repository in this
    order, each once and all with the cutoff read when the call began, and
    consumes exactly one response per request; it touches no file; and it is
    left waiting only when it has consumed every response of the feed. *)
Theorem collector_requests_consecutive_pages
    (org repo token base_url : string) (debug : bool) (w : World) :
  let r := get_recent_contributors org repo token base_url debug w in
  exists n,
    n <= List.length (feed w)
    /\ requests (final r)
       = requests w
         ++ map (commits_request org repo token base_url (since_of (now w)))
              (seq 1 n)
    /\ feed (final r) = skipn n (feed w)
    /\ files (final r) = files w
    /\ (res r = Pending -> feed (final r) = []).
Proof.
  cbv zeta.
  destruct (get_recent_contributors_any org repo token base_url debug w)
    as (n & Hn & Hf & Hp & _).
  cbv zeta in Hf, Hp. exists n. rewrite Hf.
  cbn [after_requests requests feed files].
  repeat split; try assumption.
  intros HP. rewrite (Hp HP). apply skipn_all.
Qed.

(** ** The requests of a whole run *)

Lemma commits_request_of_weaken org token base_url (l1 l2 : list string) r :
  (forall repo, In repo l1 -> In repo l2) ->
  commits_request_of org token base_url l1 r ->
  commits_request_of org token base_url l2 r.
Proof.
  intros Hincl (repo & since_date & page & Hin & ->).
  exists repo, since_date, page. split; [apply Hincl, Hin | reflexivity].
Qed.

Section RunRequests.

Context {py : PyRuntime}.
Variable args : Args.

(** The aggregation loop on any feed: its requests are for commits of the
    repositories it was given, one response is consumed per request, and it
    is left waiting only when the feed is over. *)
Lemma aggregate_any repos : forall d w,
  exists reqs,
    List.length reqs <= List.length (feed w)
    /\ final (aggregate args repos d w)
       = after_requests reqs (skipn (List.length reqs) (feed w)) w
    /\ Forall (commits_request_of (org args) (token args) (github_url args)
                 repos) reqs
    /\ (res (aggregate args repos d w) = Pending ->
        List.length reqs = List.length (feed w)).
Proof.
  induction repos as [|repo rest IH]; intros d w.
  - exists []. cbn [List.length skipn]. rewrite after_requests_nil.
    repeat split; try constructor; try discriminate. lia.
  - destruct (get_recent_contributors_any (org args) repo (token args)
                (github_url args) (debug args) w) as (n & Hn & Hf & Hp & _).
    cbv zeta in Hf, Hp.
    set (reqs1 := map (commits_request (org args) repo (token args)
                         (github_url args) (since_of (now w))) (seq 1 n))
      in *.
    assert (Hlen1 : List.length reqs1 = n)
      by (unfold reqs1; rewrite length_map, length_seq; reflexivity).
    assert (Hreqs1 : Forall (commits_request_of (org args) (token args)
                               (github_url args) (repo :: rest)) reqs1).
    { unfold reqs1. apply Forall_forall. intros r Hr.
      apply in_map_iff in Hr. destruct Hr as (page & <- & _).
      exists repo, (since_of (now w)), page.
      split; [left; reflexivity | reflexivity]. }
    destruct (res (get_recent_contributors (org args) repo (token args)
                     (github_url args) (debug args) w)) as [cs|e|] eqn:Ecs.
    + destruct (aggregate_step args repo rest d w cs Ecs) as [Hres Hfin].
      cbv zeta in Hres, Hfin. rewrite Hres, Hfin, Hf.
      destruct (IH (tally_one (set_iter cs) d)
                  (after_requests reqs1 (skipn n (feed w)) w))
        as (reqs2 & Hlen2 & Hf2 & Hreqs2 & Hp2).
      cbn [after_requests feed] in Hlen2, Hf2, Hp2.
      fold (after_requests reqs1 (skipn n (feed w)) w) in Hf2, Hp2.
      rewrite length_skipn in Hlen2, Hp2.
      exists (reqs1 ++ reqs2). rewrite length_app, Hlen1.
      split; [lia|]. split; [|split].
      * rewrite Hf2, after_requests_twice, skipn_skipn.
        rewrite (Nat.add_comm (List.length reqs2) n). reflexivity.
      * apply Forall_app. split; [exact Hreqs1|].
        eapply Forall_impl; [|exact Hreqs2].
        intros r. apply commits_request_of_weaken.
        intros x Hx. right. exact Hx.
      * intros HP. specialize (Hp2 HP). lia.
    + destruct (aggregate_stop args repo rest d w) as (_ & Hfin & Hraise).
      { intros cs. rewrite Ecs. discriminate. }
      rewrite Hfin, Hf, (Hraise e Ecs). exists reqs1. rewrite Hlen1.
      repeat split; try assumption. discriminate.
    + destruct (aggregate_stop args repo rest d w) as (_ & Hfin & _).
      { intros cs. rewrite Ecs. discriminate. }
      rewrite Hfin, Hf. exists reqs1. rewrite Hlen1.
      repeat split; try assumption. intros _. apply Hp. reflexivity.
Qed.

Lemma write_to_csv_net d filename debug w :
  let r := write_to_csv d filename debug w in
  res r <> Pending
  /\ feed (final r) = feed w
  /\ requests (final r) = requests w.
Proof.
  cbv zeta. destruct (set_mem filename (unwritable w)) eqn:Hw.
  - rewrite (write_to_csv_fails filename debug d w Hw).
    repeat split. discriminate.
  - destruct (write_to_csv_run filename debug d w Hw) as [-> ->].
    repeat split. discriminate.
Qed.

Let listing (w : World) :=
  get_repositories (org args) (token args) (github_url args) (exclude args)
    (debug args) w.

(** The end of a run, after the listing. *)
Lemma main_after_listing w :
  match res (listing w) with
  | Returned listed =>
      let aggregation := aggregate args listed [] (final (listing w)) in
      feed (final (main args w)) = feed (final aggregation)
      /\ requests (final (main args w)) = requests (final aggregation)
      /\ (res (main args w) = Pending -> res aggregation = Pending)
  | _ =>
      final (main args w) = final (listing w)
      /\ (res (main args w) = Pending -> res (listing w) = Pending)
  end.
Proof.
  unfold listing.
  destruct (res (get_repositories _ _ _ _ _ w)) as [listed|e|] eqn:Hl.
  - cbv zeta.
    destruct (res (aggregate args listed [] _))
      as [d|e|] eqn:Ha.
    + destruct (main_reaches_writer args w listed d Hl Ha)
        as (Hres & Hfin & _).
      match type of Hres with
      | _ = res (write_to_csv _ _ _ ?v) =>
          destruct (write_to_csv_net d (output_csv args) (debug args) v)
            as (Hprompt & Hfeed & Hreqs)
      end.
      cbv zeta in Hprompt, Hfeed, Hreqs.
      rewrite Hres, Hfin, Hfeed, Hreqs.
      repeat split. intros HP. contradiction.
    + destruct (main_aggregate_raised args w listed e Hl Ha) as [Hres Hfin].
      rewrite Hres, Hfin. repeat split. discriminate.
    + unfold main, bind. rewrite Hl.
      cbn [res final]. rewrite Ha. repeat split.
  - unfold main, bind. rewrite Hl.
    repeat split. discriminate.
  - unfold main, bind. rewrite Hl.
    repeat split.
Qed.

(** A run on any feed: first the requests of the listing, pages 1 to [n],
    then requests for commits of listed repositories; a response consumed
    per request; waiting only when the feed is over. *)
Lemma main_any w :
  exists n reqs,
    n + List.length reqs <= List.length (feed w)
    /\ requests (final (main args w))
       = requests w
         ++ map (repos_request (org args) (token args) (github_url args))
              (seq 1 n)
         ++ reqs
    /\ feed (final (main args w))
       = skipn (n + List.length reqs) (feed w)
    /\ match res (listing w) with
       | Returned listed =>
           Forall (commits_request_of (org args) (token args)
                     (github_url args) listed) reqs
       | _ => reqs = []
       end
    /\ (res (main args w) = Pending ->
        n + List.length reqs = List.length (feed w)).
Proof.
  destruct (get_repositories_any (org args) (token args) (github_url args)
              (exclude args) (debug args) w) as (n & Hn & Hf & Hp & _).
  cbv zeta in Hf, Hp. fold (listing w) in Hf, Hp.
  pose proof (main_after_listing w) as Hmain.
  destruct (res (listing w)) as [listed|e|] eqn:Hl.
  - cbv zeta in Hmain. destruct Hmain as (Hfeed & Hreqs & Hpending).
    destruct (aggregate_any listed [] (final (listing w)))
      as (reqs & Hlen & Hfa & Hfor & Hpa).
    rewrite Hf in Hlen, Hfa, Hpa, Hpending.
    cbn [after_requests feed] in Hlen, Hfa, Hpa.
    rewrite length_skipn in Hlen, Hpa.
    exists n, reqs. rewrite Hfeed, Hreqs, Hf, Hfa.
    cbn [after_requests feed requests].
    rewrite skipn_skipn, <- app_assoc, (Nat.add_comm (List.length reqs) n).
    repeat split; try assumption; try lia.
    intros HP. specialize (Hpa (Hpending HP)). lia.
  - destruct Hmain as (Hfin & Hpending). exists n, [].
    rewrite Hfin, Hf. cbn [after_requests feed requests List.length].
    rewrite app_nil_r, Nat.add_0_r.
    repeat split; try assumption.
    intros HP. apply Hpending in HP. discriminate.
  - destruct Hmain as (Hfin & _). exists n, [].
    rewrite Hfin, Hf. cbn [after_requests feed requests List.length].
    rewrite app_nil_r, Nat.add_0_r.
    repeat split; try assumption. intros _. apply Hp. reflexivity.
Qed.

End RunRequests.

Lemma prefix_app (p s : string) : String.prefix p (p ++ s) = true.
Proof. apply prefix_spec. exists s. reflexivity. Qed.

Lemma repos_request_addressed org token base_url page :
  addressed token base_url (repos_request org token base_url page).
Proof. split; [reflexivity | apply prefix_app]. Qed.

Lemma commits_request_addressed org token base_url listed r :
  commits_request_of org token base_url listed r ->
  addressed token base_url r.
Proof.
  intros (repo & since_date & page & _ & ->).
  split; [reflexivity | apply prefix_app].
Qed.

(** X4.  Whatever the responses and however the run ends, every request a
    run issues carries the header [Authorization: token <token>] with the
    token of the command line, and its URL starts with the configured base
    URL. *)
Theorem every_request_is_authorized_and_under_base_url {py : PyRuntime}
    (args : Args) (w : World) :
  exists reqs,
    requests (final (main args w)) = requests w ++ reqs
    /\ Forall (fun r =>
                 req_authorization r = ("token " ++ token args)%string
                 /\ String.prefix (github_url args) (req_url r) = true) reqs.
Proof.
  destruct (main_any args w) as (n & reqs & _ & Hreqs & _ & Hkind & _).
  exists (map (repos_request (org args) (token args) (github_url args))
            (seq 1 n) ++ reqs).
  split; [exact Hreqs|]. apply Forall_app. split.
  - apply Forall_forall. intros r Hr. apply in_map_iff in Hr.
    destruct Hr as (page & <- & _). apply repos_request_addressed.
  - destruct (res (get_repositories _ _ _ _ _ w)) as [listed|e|];
      try (subst reqs; constructor).
    eapply Forall_impl; [|exact Hkind].
    intros r. apply commits_request_addressed.
Qed.

(** X5.  Whatever the responses, a run first issues the requests of the
    repository listing, for the pages 1 to n, and only then requests for
    commits; it requests commits only when the listing has returned, and
    only of repositories that are in the returned list, none of which the
    exclude filter excludes. *)
Theorem commits_are_requested_for_listed_repositories_only {py : PyRuntime}
    (args : Args) (w : World) :
  exists n reqs,
    requests (final (main args w))
    = requests w
      ++ map (repos_request (org args) (token args) (github_url args))
           (seq 1 n)
      ++ reqs
    /\ forall r, In r reqs ->
         exists listed repo since_date page,
           res (get_repositories (org args) (token args) (github_url args)
                  (exclude args) (debug args) w) = Returned listed
           /\ In repo listed
           /\ excluded (exclude args) repo = false
           /\ r = commits_request (org args) repo (token args)
                    (github_url args) since_date page.
Proof.
  destruct (main_any args w) as (n & reqs & _ & Hreqs & _ & Hkind & _).
  exists n, reqs. split; [exact Hreqs|]. intros r Hr.
  destruct (get_repositories_any (org args) (token args) (github_url args)
              (exclude args) (debug args) w) as (_ & _ & _ & _ & Hallowed).
  cbv zeta in Hallowed.
  destruct (res (get_repositories _ _ _ _ _ w)) as [listed|e|];
    try (subst reqs; contradiction).
  destruct (proj1 (Forall_forall _ _) Hkind r Hr)
    as (repo & since_date & page & Hin & ->).
  exists listed, repo, since_date, page. repeat split; try assumption.
  apply (proj1 (Forall_forall _ _) (Hallowed listed eq_refl)). exact Hin.
Qed.

(** X6.  Whatever the responses, a whole run consumes exactly one response
    per request it issues, in the order of the feed, and it is left waiting
    only when it has consumed every response of the feed: while a response
    is left, the run has returned or raised. *)
Theorem run_consumes_one_response_per_request {py : PyRuntime}
    (args : Args) (w : World) :
  exists k,
    k <= List.length (feed w)
    /\ List.length (requests (final (main args w)))
       = List.length (requests w) + k
    /\ feed (final (main args w)) = skipn k (feed w)
    /\ (res (main args w) = Pending -> feed (final (main args w)) = []).
Proof.
  destruct (main_any args w) as (n & reqs & Hlen & Hreqs & Hfeed & _ & Hp).
  exists (n + List.length reqs). split; [exact Hlen|]. split; [|split].
  - rewrite Hreqs, !length_app, length_map, length_seq. lia.
  - exact Hfeed.
  - intros HP. rewrite Hfeed, (Hp HP). apply skipn_all.
Qed.

(** ** Pages that stop the lister *)

Lemma nameless_not_named body : nameless_page body -> ~ Forall has_name body.
Proof.
  intros Hex Hall. apply Exists_exists in Hex.
  destruct Hex as (o & Ho & Hnone).
  apply (proj1 (Forall_forall _ _) Hall o Ho). exact Hnone.
Qed.

Section ListerStops.

Context {py : PyRuntime}.
Variables (org token base_url exclude_filter : string) (debug : bool).

Let step := lister_step org token base_url exclude_filter debug.

Lemma lister_step_nameless st w body rest :
  feed w = Json body :: rest ->
  nameless_page body ->
  res (step st w) = Raised (KeyError "name").
Proof.
  intros Hfeed Hnameless.
  destruct (lister_step_quiet org token base_url exclude_filter debug st w)
    as [Hres _].
  unfold step. rewrite Hres. clear Hres.
  unfold lister_step. rewrite res_try_except.
  rewrite (bind_run _ _ _ _ _ _ (api_json _ _ _ _ _ _ Hfeed)).
  cbn [res final when]. rewrite bind_ret.
  destruct (names_then_filter exclude_filter body) as [Hn|(Hne & _ & H2)];
    [exfalso; exact (nameless_not_named body Hnameless Hn)|].
  destruct body as [|o body]; [contradiction|].
  rewrite res_bind, H2. reflexivity.
Qed.

Lemma lister_loop_pages_printed pages :
  Forall repo_page pages ->
  forall fuel st w rest,
    feed w = map Json pages ++ rest ->
    let st' := {| repos := repos st
                           ++ kept exclude_filter (flat_map page_names pages);
                  page := page st + List.length pages;
                  total_fetched_repos :=
                    total_fetched_repos st
                    + List.length (List.concat pages) |} in
    let w' := after_requests
                (map (repos_request org token base_url)
                   (seq (page st) (List.length pages)))
                rest w in
    exists out,
      printed (while_fuel (List.length pages + fuel) step st w)
      = out ++ printed (while_fuel fuel step st' w').
Proof.
  induction 1 as [|body pages Hbody _ IH]; intros fuel st w rest Hfeed.
  - simpl in *. subst rest. exists [].
    rewrite after_requests_nil, !app_nil_r, !Nat.add_0_r.
    destruct st; reflexivity.
  - simpl in Hfeed.
    destruct (lister_step_page org token base_url exclude_filter debug
                st w body _ Hfeed Hbody) as [Hres Hfin].
    fold step in Hres, Hfin.
    cbn [List.length Nat.add while_fuel].
    rewrite printed_bind, Hres, Hfin.
    match goal with
    | |- context [while_fuel _ step ?s ?v] =>
        destruct (IH fuel s v rest eq_refl) as (out & Hout)
    end.
    cbn [repos page total_fetched_repos] in Hout.
    rewrite after_requests_sent in Hout.
    rewrite Hout. exists (printed (step st w) ++ out).
    rewrite <- app_assoc. cbn [flat_map List.concat seq map].
    rewrite kept_app, length_app, app_assoc, Nat.add_assoc.
    replace (page st + S (List.length pages))
      with (page st + 1 + List.length pages) by lia.
    replace (S (page st)) with (page st + 1) by lia.
    reflexivity.
Qed.

(** After full pages, a page with a nameless object ends the lister with
    [KeyError]. *)
Lemma get_repositories_nameless pages body rest w :
  Forall repo_page pages ->
  nameless_page body ->
  feed w = map Json pages ++ Json body :: rest ->
  res (get_repositories org token base_url exclude_filter debug w)
  = Raised (KeyError "name").
Proof.
  intros Hpages Hnameless Hfeed. unfold get_repositories.
  rewrite res_bind. unfold while_true.
  replace (S (List.length (feed w)))
    with (List.length pages + S (S (List.length rest))).
  2:{ rewrite Hfeed, length_app, length_map. simpl. lia. }
  destruct (lister_loop_pages org token base_url exclude_filter debug pages
              Hpages (S (S (List.length rest)))
              {| repos := []; page := 1; total_fetched_repos := 0 |}
              w (Json body :: rest) Hfeed) as [Hres _].
  rewrite Hres. cbn [while_fuel]. rewrite res_bind.
  fold step. rewrite (lister_step_nameless _ _ body rest);
    [reflexivity | reflexivity | exact Hnameless].
Qed.

(** After full pages, a failed request makes the lister print its message,
    with or without the debug flag. *)
Lemma get_repositories_reports_failure pages failure msg rest w :
  Forall repo_page pages ->
  failure = Transport msg \/ failure = HttpStatus msg ->
  feed w = map Json pages ++ failure :: rest ->
  In ("Error fetching repositories: " ++ msg)%string
     (printed (get_repositories org token base_url exclude_filter debug w)).
Proof.
  intros Hpages Hfail Hfeed. unfold get_repositories.
  rewrite printed_bind. unfold while_true.
  replace (S (List.length (feed w)))
    with (List.length pages + S (S (List.length rest))).
  2:{ rewrite Hfeed, length_app, length_map. simpl. lia. }
  destruct (lister_loop_pages_printed pages Hpages (S (S (List.length rest)))
              {| repos := []; page := 1; total_fetched_repos := 0 |}
              w (failure :: rest) Hfeed) as (out & Hout).
  cbv zeta in Hout.
  assert (Hin : In ("Error fetching repositories: " ++ msg)%string
                   (printed (while_fuel
                      (List.length pages + S (S (List.length rest))) step
                      {| repos := []; page := 1; total_fetched_repos := 0 |}
                      w))).
  { rewrite Hout. apply in_or_app. right.
    cbn [while_fuel]. rewrite printed_bind.
    match goal with
    | |- context [step ?s ?v] =>
        destruct (lister_step_failure org token base_url exclude_filter
                    debug s v msg rest) as (Hres & _ & Hline)
    end.
    { destruct Hfail; subst failure; [left | right]; reflexivity. }
    fold step in Hres, Hline. rewrite Hres. apply in_or_app. left.
    exact Hline. }
  fold step.
  destruct (res (while_fuel _ step _ w)); try exact Hin.
  apply in_or_app. left. exact Hin.
Qed.

End ListerStops.

Lemma main_listing_raised {py : PyRuntime} (args : Args) w e :
  res (get_repositories (org args) (token args) (github_url args)
         (exclude args) (debug args) w) = Raised e ->
  res (main args w) = Raised e.
Proof. intros Hl. unfold main, bind. rewrite Hl. reflexivity. Qed.

(** X7.  The lister catches failed requests, not malformed pages: when,
    after full pages, a page holds an object without the [name] key, the
    lister ends with [KeyError], with or without the debug flag, the names of
    the pages before are lost, and the run ends with that exception without
    touching any file. *)
Theorem nameless_repository_aborts_the_run {py : PyRuntime} (args : Args)
    (pages : list (list jobject)) (body : list jobject)
    (rest : list response) (w : World) :
  Forall repo_page pages ->
  nameless_page body ->
  feed w = map Json pages ++ Json body :: rest ->
  res (get_repositories (org args) (token args) (github_url args)
         (exclude args) (debug args) w) = Raised (KeyError "name")
  /\ res (main args w) = Raised (KeyError "name")
  /\ files (final (main args w)) = files w.
Proof.
  intros Hpages Hnameless Hfeed.
  pose proof (get_repositories_nameless (org args) (token args)
                (github_url args) (exclude args) (debug args)
                pages body rest w Hpages Hnameless Hfeed) as Hl.
  pose proof (main_listing_raised args w _ Hl) as Hmain.
  repeat split; try assumption.
  apply main_files_untouched. intros u. rewrite Hmain. discriminate.
Qed.

Lemma nameless_repository_aborts_the_run_witness :
  let w := world_of [Json [repo_obj "api"; repo_obj "web"];
                     Json [repo_obj "db"; commit_obj AuthorNull];
                     Json []] ticking [] in
  res (@main ascii_runtime (sample_args "" "out.csv" true) w)
  = Raised (KeyError "name").
Proof.
  intros w.
  apply (@nameless_repository_aborts_the_run ascii_runtime
           (sample_args "" "out.csv" true)
           [[repo_obj "api"; repo_obj "web"]]
           [repo_obj "db"; commit_obj AuthorNull] [Json []] w).
  - shape.
  - apply Exists_cons_tl, Exists_cons_hd. reflexivity.
  - reflexivity.
Defined.

(** X8.  When a request of the repository listing fails after full pages,
    the lister prints [Error fetching repositories: <message>] on standard
    output, with or without the debug flag: the partial result is not
    silent. *)
Theorem lister_reports_the_failure_it_swallows {py : PyRuntime}
    (org token base_url exclude_filter : string) (debug : bool)
    (pages : list (list jobject)) (failure : response) (msg : string)
    (rest : list response) (w : World) :
  Forall repo_page pages ->
  failure = Transport msg \/ failure = HttpStatus msg ->
  feed w = map Json pages ++ failure :: rest ->
  In ("Error fetching repositories: " ++ msg)%string
     (printed (get_repositories org token base_url exclude_filter debug w)).
Proof. apply get_repositories_reports_failure. Qed.

Lemma lister_reports_the_failure_it_swallows_witness :
  In "Error fetching repositories: 401 Client Error: Unauthorized"
     (printed (@get_repositories ascii_runtime "acme" "t0ken"
                 "https://api.github.com" "" false
                 (world_of [Json [repo_obj "api"];
                            HttpStatus "401 Client Error: Unauthorized"]
                    ticking []))).
Proof.
  apply (@lister_reports_the_failure_it_swallows ascii_runtime
           "acme" "t0ken" "https://api.github.com" "" false
           [[repo_obj "api"]] (HttpStatus "401 Client Error: Unauthorized")
           "401 Client Error: Unauthorized" []).
  - shape.
  - right. reflexivity.
  - reflexivity.
Defined.

(** X9.  When the very first request of a run fails (a wrong token, an
    unknown organization, an API that cannot be reached) and the output path
    can be written, the run does not fail: it returns, having printed the
    message of the failure and a summary of 0 developers, and it leaves a
    CSV file that holds the header row and nothing else. *)
Theorem failed_first_request_gives_an_empty_report {py : PyRuntime}
    (args : Args) (failure : response) (msg : string) (rest : list response)
    (w : World) :
  failure = Transport msg \/ failure = HttpStatus msg ->
  feed w = failure :: rest ->
  set_mem (output_csv args) (unwritable w) = false ->
  let r := main args w in
  res r = Returned tt
  /\ file_lookup (output_csv args) (files (final r))
     = Some ("Developer,Number of Repos" ++ crlf)%string
  /\ In ("Error fetching repositories: " ++ msg)%string (printed r)
  /\ In ("Total unique developers in " ++ org args
           ++ " who have committed in the past 90 days: 0")%string
        (printed r)
  /\ feed (final r) = rest.
Proof.
  intros Hfail Hfeed Hw r.
  assert (Hstop : stops failure) by (destruct Hfail; subst failure; exact I).
  destruct (get_repositories_run (org args) (token args) (github_url args)
              (exclude args) (debug args) [] failure rest w
              (Forall_nil _) Hstop Hfeed) as [Hl Hlfin].
  cbn [flat_map kept filter List.length seq map] in Hl, Hlfin.
  pose proof (get_repositories_reports_failure (org args) (token args)
                (github_url args) (exclude args) (debug args)
                [] failure msg rest w (Forall_nil _) Hfail Hfeed) as Hline.
  destruct (main_reaches_writer args w [] [] Hl eq_refl)
    as (Hres & Hfin & Hprinted).
  cbn [aggregate for_loop ret final printed] in Hres, Hfin, Hprinted.
  rewrite Hlfin in Hres, Hfin, Hprinted.
  match type of Hres with
  | _ = res (write_to_csv _ _ _ ?v) =>
      destruct (write_to_csv_run (output_csv args) (debug args) [] v Hw)
        as [Hwres Hwfin]
  end.
  subst r. rewrite Hres, Hfin, Hprinted, Hwres, Hwfin.
  split; [reflexivity|]. split.
  { cbn [files with_files]. rewrite file_lookup_store. reflexivity. }
  split; [apply in_or_app; left; exact Hline|].
  split; [apply in_or_app; right; left; reflexivity|].
  reflexivity.
Qed.

Lemma failed_first_request_gives_an_empty_report_witness :
  let w := world_of [HttpStatus "401 Client Error: Unauthorized"]
             ticking [] in
  res (@main ascii_runtime (sample_args "" "out.csv" false) w) = Returned tt
  /\ printed (@main ascii_runtime (sample_args "" "out.csv" false) w)
     = ["Error fetching repositories: 401 Client Error: Unauthorized";
        "Total unique developers in acme who have committed in the past 90 days: 0"].
Proof.
  intros w.
  destruct (@failed_first_request_gives_an_empty_report ascii_runtime
              (sample_args "" "out.csv" false)
              (HttpStatus "401 Client Error: Unauthorized")
              "401 Client Error: Unauthorized" [] w
              (or_intror eq_refl) eq_refl eq_refl) as (Hres & _).
  split; [exact Hres | reflexivity].
Defined.

(** ** The counts *)

Lemma dict_get_In k v (d : dict) :
  NoDup (dict_keys d) -> In (k, v) d -> dict_get k 0 d = v.
Proof.
  induction d as [|[k0 v0] d IH]; intros Hnd Hin; [contradiction|].
  cbn [dict_keys map fst] in Hnd. apply NoDup_cons_iff in Hnd.
  destruct Hnd as [Hnotin Hnd]. cbn [dict_get].
  destruct Hin as [Heq|Hin].
  - injection Heq as -> ->. rewrite String.eqb_refl. reflexivity.
  - destruct (String.eqb_spec k k0) as [->|Hne]; [|apply IH; assumption].
    exfalso. apply Hnotin. change (In (fst (k0, v)) (map fst d)).
    apply in_map. exact Hin.
Qed.

Lemma dict_total_bump c (d : dict) : dict_total (bump c d) = dict_total d + 1.
Proof.
  unfold bump, dict_total. induction d as [|[k v] d IH]; simpl in *.
  - reflexivity.
  - destruct (String.eqb c k); simpl; [lia|]. rewrite IH. lia.
Qed.

Lemma dict_total_tally_one l (d : dict) :
  dict_total (tally_one l d) = dict_total d + List.length l.
Proof.
  unfold tally_one. revert d. induction l as [|c l IH]; intros d; simpl.
  - lia.
  - rewrite IH, dict_total_bump. lia.
Qed.

Lemma dict_total_tally {py : PyRuntime} sets (d : dict) :
  dict_total (tally sets d)
  = dict_total d + list_sum (map (@List.length string) sets).
Proof.
  unfold tally. revert d. induction sets as [|cs sets IH]; intros d; simpl.
  - lia.
  - rewrite IH, dict_total_tally_one.
    rewrite (Permutation_length (set_iter_perm cs)). lia.
Qed.

Lemma times_listed_le login sets : times_listed login sets <= List.length sets.
Proof. unfold times_listed. apply filter_length_le. Qed.

Lemma times_listed_pos login sets cs :
  In cs sets -> In login cs -> 1 <= times_listed login sets.
Proof.
  intros Hcs Hlogin. unfold times_listed.
  assert (Hf : In cs (filter (set_mem login) sets)).
  { apply filter_In. split; [exact Hcs | apply set_mem_In, Hlogin]. }
  destruct (filter (set_mem login) sets); [contradiction | simpl; lia].
Qed.

(** X10.  When the aggregation loop returns, the dict it built has each
    login once, and every count in it is at least 1 and at most the number of
    entries of the repository list: no login is recorded with a count of 0,
    and none is counted more often than there are repositories. *)
Theorem counts_are_between_one_and_the_number_of_repositories
    {py : PyRuntime} (args : Args) (listed : list string) (w : World)
    (counts : dict) :
  res (aggregate args listed [] w) = Returned counts ->
  NoDup (dict_keys counts)
  /\ forall login count,
       In (login, count) counts ->
       1 <= count /\ count <= List.length listed.
Proof.
  intros Hrun.
  destruct (aggregate_returned args listed [] w counts Hrun)
    as (sets & _ & -> & Hlen & Hnd).
  assert (Hkeys : NoDup (dict_keys (tally sets []))).
  { rewrite tally_keys. apply add_all_NoDup. constructor. }
  split; [exact Hkeys|]. intros login count Hin.
  pose proof (dict_get_In login count _ Hkeys Hin) as Hget.
  rewrite (tally_get login sets [] Hnd) in Hget. cbn [dict_get] in Hget.
  rewrite <- Hget, <- Hlen. split; [|apply times_listed_le].
  assert (Hkey : In login (dict_keys (tally sets []))).
  { change login with (fst (login, count)). apply in_map. exact Hin. }
  rewrite tally_keys, add_all_In, in_flat_map in Hkey.
  destruct Hkey as [(cs & Hcs & Hlogin)|[]].
  apply (times_listed_pos login sets cs Hcs).
  eapply Permutation_in; [apply set_iter_perm | exact Hlogin].
Qed.

Lemma counts_are_between_one_and_the_number_of_repositories_witness :
  NoDup ["alice"; "bob"]
  /\ forall login count,
       In (login, count) [("alice", 2); ("bob", 1)] ->
       1 <= count /\ count <= 2.
Proof.
  apply (@counts_are_between_one_and_the_number_of_repositories
           ascii_runtime scenario_args ["api"; "web"]
           (final (@get_repositories ascii_runtime "acme" "t0ken"
                     "https://api.github.com" "legacy" false scenario_world))
           [("alice", 2); ("bob", 1)]).
  vm_compute. reflexivity.
Defined.

(** X11.  When the aggregation loop returns, the counts of the dict add up
    to the sum of the sizes of the contributor sets the collector returned:
    the report accounts for every pair of a listed repository and one of its
    contributors exactly once. *)
Theorem counts_add_up_to_the_sizes_of_the_sets {py : PyRuntime}
    (args : Args) (listed : list string) (w : World) (counts : dict) :
  res (aggregate args listed [] w) = Returned counts ->
  exists sets,
    contributor_sets args listed w = Some sets
    /\ list_sum (map snd counts)
       = list_sum (map (@List.length string) sets).
Proof.
  intros Hrun.
  destruct (aggregate_returned args listed [] w counts Hrun)
    as (sets & Hsets & -> & _).
  exists sets. split; [exact Hsets|].
  apply (dict_total_tally sets []).
Qed.

Lemma counts_add_up_to_the_sizes_of_the_sets_witness :
  exists sets : list (list string),
    sets = [["alice"; "bob"]; ["alice"]]
    /\ list_sum (map snd [("alice", 2); ("bob", 1)])
       = list_sum (map (@List.length string) sets).
Proof.
  destruct (@counts_add_up_to_the_sizes_of_the_sets ascii_runtime
              scenario_args ["api"; "web"]
              (final (@get_repositories ascii_runtime "acme" "t0ken"
                        "https://api.github.com" "legacy" false
                        scenario_world))
              [("alice", 2); ("bob", 1)])
    as (sets & Hsets & Hsum); [vm_compute; reflexivity|].
  exists sets. split; [|exact Hsum].
  vm_compute in Hsets. injection Hsets as <-. reflexivity.
Defined.

(** ** Edges *)

Lemma kept_nothing_excluded {py : PyRuntime} (names : list string) :
  kept "" names = names.
Proof.
  unfold kept. apply forallb_filter_id. apply forallb_forall.
  intros n _. reflexivity.
Qed.

(** X12.  With the empty exclude string, which is the default of the
    command line, the lister drops nothing: after full pages and a response
    that stops it, it returns every fetched name, in the order of the API,
    repeated names included. *)
Theorem empty_exclude_filter_keeps_every_name {py : PyRuntime}
    (org token base_url : string) (debug : bool)
    (pages : list (list jobject)) (stop : response) (rest : list response)
    (w : World) :
  Forall repo_page pages ->
  stops stop ->
  feed w = map Json pages ++ stop :: rest ->
  res (get_repositories org token base_url "" debug w)
  = Returned (flat_map page_names pages).
Proof.
  intros Hpages Hstop Hfeed.
  destruct (get_repositories_run org token base_url "" debug pages stop
              rest w Hpages Hstop Hfeed) as [Hres _].
  cbv zeta in Hres. rewrite Hres, kept_nothing_excluded. reflexivity.
Qed.

Lemma empty_exclude_filter_keeps_every_name_witness :
  res (@get_repositories ascii_runtime "acme" "t0ken"
         "https://api.github.com" "" false
         (world_of [Json [repo_obj "api"; repo_obj "api-legacy"];
                    Json [repo_obj "api"]; Json []] ticking []))
  = Returned ["api"; "api-legacy"; "api"].
Proof.
  apply (@empty_exclude_filter_keeps_every_name ascii_runtime
           "acme" "t0ken" "https://api.github.com" false
           [[repo_obj "api"; repo_obj "api-legacy"]; [repo_obj "api"]]
           (Json []) []); shape.
Defined.

(** X13.  In debug mode, the line the collector prints once it has gone
    through the commits of a page names the page after it: having requested
    page p and processed its commits, it prints [Processed page p+1 of
    commits for repository '<repo>'.] as the last line of the iteration. *)
Theorem debug_line_names_the_next_page
    (org repo token base_url since_date : string) (st : collector_locals)
    (body : list jobject) (rest : list response) (w : World) :
  feed w = Json body :: rest ->
  authored_page body ->
  let r := collector_step org repo token base_url true since_date st w in
  final r
  = sent (commits_url base_url org repo since_date (commit_page st))
      token rest w
  /\ exists before,
       printed r
       = before
         ++ [("Processed page " ++ str_of_nat (commit_page st + 1)
                ++ " of commits for repository '" ++ repo ++ "'.")%string].
Proof.
  intros Hfeed Hpage r. subst r.
  destruct (collector_step_page org repo token base_url true since_date
              st w body rest Hfeed Hpage) as [_ Hfin].
  split; [exact Hfin|].
  destruct Hpage as [Hne Hauth].
  unfold collector_step.
  rewrite (bind_run _ _ _ _ _ _ (api_json _ _ _ _ _ _ Hfeed)).
  cbn [printed]. destruct body as [|o body]; [contradiction|].
  rewrite printed_bind.
  destruct (commits_loop_authored repo true (o :: body) (contributors st)
              (sent (commits_url base_url org repo since_date
                       (commit_page st)) token rest w) Hauth) as [Hres _].
  unfold add_author in Hres. rewrite Hres.
  eexists. rewrite !app_assoc. reflexivity.
Qed.

Lemma debug_line_names_the_next_page_witness :
  exists before,
    printed (collector_step "acme" "api" "t0ken" "https://api.github.com"
               true "2026-08-05T10:00:00"
               {| contributors := []; commit_page := 1 |}
               (world_of [Json [commit_by "alice"]; Json []] ticking []))
    = before ++ ["Processed page 2 of commits for repository 'api'."].
Proof.
  destruct (debug_line_names_the_next_page
              "acme" "api" "t0ken" "https://api.github.com"
              "2026-08-05T10:00:00"
              {| contributors := []; commit_page := 1 |}
              [commit_by "alice"] [Json []]
              (world_of [Json [commit_by "alice"]; Json []] ticking [])
              eq_refl) as (_ & before & Hprinted); [shape|].
  exists before. exact Hprinted.
Defined.

Lemma main_aggregate_pending {py : PyRuntime} (args : Args) w listed :
  res (get_repositories (org args) (token args) (github_url args)
         (exclude args) (debug args) w) = Returned listed ->
  res (aggregate args listed []
         (final (get_repositories (org args) (token args) (github_url args)
                   (exclude args) (debug args) w))) = Pending ->
  res (main args w) = Pending.
Proof.
  intros Hl Ha. unfold main, bind. rewrite Hl. cbn [res final printed].
  rewrite Ha. reflexivity.
Qed.

Lemma main_listing_pending {py : PyRuntime} (args : Args) w :
  res (get_repositories (org args) (token args) (github_url args)
         (exclude args) (debug args) w) = Pending ->
  res (main args w) = Pending.
Proof. intros Hl. unfold main, bind. rewrite Hl. reflexivity. Qed.

(** A run that returns went through the listing, the aggregation and the
    writer, and its files are those of the start with the report stored at
    the output path. *)
Lemma main_returned {py : PyRuntime} (args : Args) (w : World) u :
  res (main args w) = Returned u ->
  exists listed counts,
    res (get_repositories (org args) (token args) (github_url args)
           (exclude args) (debug args) w) = Returned listed
    /\ res (aggregate args listed []
              (final (get_repositories (org args) (token args)
                        (github_url args) (exclude args) (debug args) w)))
       = Returned counts
    /\ files (final (main args w))
       = file_store (output_csv args) (csv_text counts) (files w).
Proof.
  intros Hmain.
  destruct (res (get_repositories (org args) (token args) (github_url args)
                   (exclude args) (debug args) w)) as [listed|e|] eqn:Hl.
  - destruct (res (aggregate args listed []
                     (final (get_repositories (org args) (token args)
                               (github_url args) (exclude args) (debug args)
                               w)))) as [counts|e|] eqn:Ha.
    + exists listed, counts. split; [reflexivity|]. split; [exact Ha|].
      destruct (main_reaches_writer args w listed counts Hl Ha)
        as (Hres & Hfin & _).
      match type of Hres with
      | _ = res (write_to_csv _ _ _ ?v) =>
          assert (Hfiles : files v = files w);
          [|destruct (set_mem (output_csv args) (unwritable v)) eqn:Hw;
            [pose proof (write_to_csv_fails (output_csv args) (debug args)
                           counts v Hw) as Hfail
            |destruct (write_to_csv_run (output_csv args) (debug args)
                         counts v Hw) as [Hwres Hwfin]]]
      end.
      * rewrite (issues_files _ _ _ (issues_aggregate args listed [])).
        apply (issues_files _ _ _ (issues_get_repositories _ _ _ _ _)).
      * rewrite Hres, Hfail in Hmain. discriminate.
      * rewrite Hfin, Hwfin. cbn [files with_files]. rewrite Hfiles.
        reflexivity.
    + destruct (main_aggregate_raised args w listed e Hl Ha) as [Hr _].
      rewrite Hr in Hmain. discriminate.
    + rewrite (main_aggregate_pending args w listed Hl Ha) in Hmain.
      discriminate.
  - rewrite (main_listing_raised args w e Hl) in Hmain. discriminate.
  - rewrite (main_listing_pending args w Hl) in Hmain. discriminate.
Qed.

(** X14.  Whatever the responses, a run changes no file other than the
    output file, and it opens the output file only when the listing and the
    counting are over: a run that ends in a [RequestException] or in a
    [KeyError], or that is left waiting for a response, leaves every file as
    it was; and when the run returns, the output file holds the header row
    and one row for each entry of the counts the aggregation loop returned
    for the list the lister returned.  Nothing is said of a run that ends in
    [IOError]. *)
Theorem run_opens_the_output_file_after_counting {py : PyRuntime}
    (args : Args) (w : World) :
  let listing := get_repositories (org args) (token args) (github_url args)
                   (exclude args) (debug args) w in
  (forall other, other <> output_csv args ->
     file_lookup other (files (final (main args w)))
     = file_lookup other (files w))
  /\ (forall msg, res (main args w) = Raised (RequestException msg) ->
        files (final (main args w)) = files w)
  /\ (forall key, res (main args w) = Raised (KeyError key) ->
        files (final (main args w)) = files w)
  /\ (res (main args w) = Pending -> files (final (main args w)) = files w)
  /\ (res (main args w) = Returned tt ->
        exists listed counts,
          res listing = Returned listed
          /\ res (aggregate args listed [] (final listing)) = Returned counts
          /\ file_lookup (output_csv args) (files (final (main args w)))
             = Some (csv_text counts)).
Proof.
  cbv zeta. split; [|split; [|split; [|split]]].
  - intros other Hother.
    destruct (res (main args w)) as [u| |] eqn:Hmain.
    + destruct (main_returned args w u Hmain) as (_ & counts & _ & _ & ->).
      apply file_lookup_store_other. exact Hother.
    + rewrite main_files_untouched; [reflexivity|].
      intros u. rewrite Hmain. discriminate.
    + rewrite main_files_untouched; [reflexivity|].
      intros u. rewrite Hmain. discriminate.
  - intros msg Hmain. apply main_files_untouched.
    intros u. rewrite Hmain. discriminate.
  - intros key Hmain. apply main_files_untouched.
    intros u. rewrite Hmain. discriminate.
  - intros Hmain. apply main_files_untouched.
    intros u. rewrite Hmain. discriminate.
  - intros Hmain.
    destruct (main_returned args w tt Hmain)
      as (listed & counts & Hl & Ha & Hfiles).
    exists listed, counts. split; [exact Hl|]. split; [exact Ha|].
    rewrite Hfiles. apply file_lookup_store.
Qed.

(** The scenario of the specification: [alice] in two repositories, [bob]
    in one. *)
Lemma run_opens_the_output_file_after_counting_witness :
  file_lookup "out.csv"
    (files (final (@main ascii_runtime scenario_args scenario_world)))
  = Some ("Developer,Number of Repos" ++ crlf
          ++ "alice,2" ++ crlf ++ "bob,1" ++ crlf)%string.
Proof.
  destruct (proj2 (proj2 (proj2 (proj2
              (@run_opens_the_output_file_after_counting ascii_runtime
                 scenario_args scenario_world)))))
    as (listed & counts & Hl & Ha & Hfile); [vm_compute; reflexivity|].
  vm_compute in Hl. injection Hl as <-.
  vm_compute in Ha. injection Ha as <-.
  exact Hfile.
Defined.

Lemma get_repositories_debug_totals {py : PyRuntime}
    org token base_url exclude_filter pages stop rest w :
  Forall repo_page pages ->
  stops stop ->
  feed w = map Json pages ++ stop :: rest ->
  exists before,
    printed (get_repositories org token base_url exclude_filter true w)
    = before
      ++ [("Total repositories fetched: "
             ++ str_of_nat (List.length (List.concat pages)))%string;
          ("Total repositories found (after filtering): "
             ++ str_of_nat (List.length
                  (kept exclude_filter (flat_map page_names pages))))%string].
Proof.
  intros Hpages Hstop Hfeed. unfold get_repositories.
  rewrite printed_bind. unfold while_true.
  replace (S (List.length (feed w)))
    with (List.length pages + S (S (List.length rest))).
  2:{ rewrite Hfeed, length_app, length_map. simpl. lia. }
  destruct (lister_loop_pages org token base_url exclude_filter true pages
              Hpages (S (S (List.length rest)))
              {| repos := []; page := 1; total_fetched_repos := 0 |}
              w (stop :: rest) Hfeed) as [Hres _].
  cbv zeta in Hres. cbn [repos page total_fetched_repos app Nat.add] in Hres.
  assert (Hend : exists st,
    res (while_fuel (List.length pages + S (S (List.length rest)))
           (lister_step org token base_url exclude_filter true)
           {| repos := []; page := 1; total_fetched_repos := 0 |} w)
    = Returned st
    /\ repos st = kept exclude_filter (flat_map page_names pages)
    /\ total_fetched_repos st = List.length (List.concat pages)).
  { rewrite Hres. cbn [while_fuel]. rewrite res_bind.
    match goal with
    | |- context [lister_step _ _ _ _ _ ?s ?v] => set (st1 := s); set (w1 := v)
    end.
    destruct stop as [msg|msg|[|o body]]; [| | |contradiction].
    - destruct (lister_step_failure org token base_url exclude_filter true
                  st1 w1 msg rest (or_introl eq_refl)) as (H1 & _).
      rewrite H1. exists st1. repeat split.
    - destruct (lister_step_failure org token base_url exclude_filter true
                  st1 w1 msg rest (or_intror eq_refl)) as (H1 & _).
      rewrite H1. exists st1. repeat split.
    - destruct (lister_step_empty org token base_url exclude_filter true
                  st1 w1 rest eq_refl) as (H1 & _).
      rewrite H1. eexists. split; [reflexivity|]. split; [reflexivity|].
      cbn [total_fetched_repos st1]. lia. }
  destruct Hend as (st & Hst & Hrepos & Htotal).
  rewrite Hst. cbn [when]. rewrite <- Hrepos, <- Htotal.
  eexists. reflexivity.
Qed.

(** X15.  In debug mode the last two lines the lister prints are its
    totals: [Total repositories fetched:] counts every object of the pages
    it went through, the excluded ones included, and [Total repositories
    found (after filtering):] is the length of the list it returns. *)
Theorem debug_totals_count_before_and_after_filtering {py : PyRuntime}
    (org token base_url exclude_filter : string)
    (pages : list (list jobject)) (stop : response) (rest : list response)
    (w : World) (names : list string) :
  Forall repo_page pages ->
  stops stop ->
  feed w = map Json pages ++ stop :: rest ->
  res (get_repositories org token base_url exclude_filter true w)
  = Returned names ->
  exists before,
    printed (get_repositories org token base_url exclude_filter true w)
    = before
      ++ [("Total repositories fetched: "
             ++ str_of_nat (List.length (List.concat pages)))%string;
          ("Total repositories found (after filtering): "
             ++ str_of_nat (List.length names))%string].
Proof.
  intros Hpages Hstop Hfeed Hnames.
  destruct (get_repositories_run org token base_url exclude_filter true
              pages stop rest w Hpages Hstop Hfeed) as [Hres _].
  cbv zeta in Hres. rewrite Hres in Hnames. injection Hnames as <-.
  apply (get_repositories_debug_totals org token base_url exclude_filter
           pages stop rest w Hpages Hstop Hfeed).
Qed.

Lemma debug_totals_count_before_and_after_filtering_witness :
  exists before,
    printed (@get_repositories ascii_runtime "acme" "t0ken"
               "https://api.github.com" "legacy" true scenario_world)
    = before ++ ["Total repositories fetched: 3";
                 "Total repositories found (after filtering): 2"].
Proof.
  apply (@debug_totals_count_before_and_after_filtering ascii_runtime
           "acme" "t0ken" "https://api.github.com" "legacy"
           [[repo_obj "api"; repo_obj "api-legacy"; repo_obj "web"]]
           (Json []) (skipn 2 scenario_feed) scenario_world ["api"; "web"]);
    shape.
Defined.

(** * The cutoff of the commit listing

    The cutoff is a time, and what the API receives is its ISO text.  That
    two calls of the collector send different cutoffs rests on
    [isoformat] being one-to-one on the datetimes of Python, which is shown
    first: the date is read back with [days_of_civil], the fields with
    [field_value]. *)

(** ** The civil date of a day number *)

Lemma holds_from_spec n P : forall z,
  holds_from n P z = true ->
  forall k, (z <= k < z + Z.of_nat n)%Z -> P k = true.
Proof.
  induction n as [|n IH]; intros z H k Hk; [lia|].
  cbn [holds_from] in H. apply andb_prop in H. destruct H as [Hz Hrest].
  destruct (Z.eq_dec k z) as [->|Hne]; [exact Hz|].
  apply (IH (z + 1)%Z Hrest). lia.
Qed.

(** Checked for each of the 146097 days of an era. *)
Lemma era_days_in_range :
  holds_from (Z.to_nat 146097) era_day_in_range 0 = true.
Proof. vm_compute. reflexivity. Qed.

(** [civil_of_days] is read back by [days_of_civil]; its months and days
    are positive, and so are its years from the year 0 on. *)
Lemma days_of_civil_of_days (z : Z) :
  let '(y, m, d) := civil_of_days z in
  days_of_civil y m d = z /\ (1 <= m)%Z /\ (1 <= d)%Z
  /\ ((-719468 <= z)%Z -> (0 <= y)%Z).
Proof.
  unfold civil_of_days. cbv zeta.
  set (z' := (z + 719468)%Z).
  set (era := (z' / 146097)%Z).
  set (doe := (z' - era * 146097)%Z).
  assert (Hdoe : (0 <= doe < 146097)%Z).
  { subst doe era. pose proof (Z.mod_pos_bound z' 146097 eq_refl).
    rewrite Z.mod_eq in H by lia. lia. }
  pose proof (holds_from_spec _ _ _ era_days_in_range doe) as Hr.
  rewrite Z2Nat.id in Hr by lia. specialize (Hr ltac:(lia)).
  unfold era_day_in_range in Hr. cbv zeta in Hr.
  set (yoe := ((doe - doe / 1460 + doe / 36524 - doe / 146096) / 365)%Z) in *.
  set (doy := (doe - (365 * yoe + yoe / 4 - yoe / 100))%Z) in *.
  set (mp := ((5 * doy + 2) / 153)%Z) in *.
  set (d := (doy - (153 * mp + 2) / 5 + 1)%Z) in *.
  repeat (apply andb_prop in Hr; destruct Hr as [Hr ?]).
  repeat match goal with
         | H : (_ <=? _)%Z = true |- _ => apply Z.leb_le in H
         end.
  assert (Hera : (-719468 <= z -> 0 <= era)%Z).
  { intros Hz. subst era z'. apply Z.div_pos; lia. }
  unfold days_of_civil. cbv zeta.
  assert (Hd : (d = doy - (153 * mp + 2) / 5 + 1)%Z) by reflexivity.
  assert (Hdoy : (doy = doe - (365 * yoe + yoe / 4 - yoe / 100))%Z)
    by reflexivity.
  assert (Hz : (z = era * 146097 + doe - 719468)%Z) by (subst doe z'; lia).
  clearbody d doy mp yoe doe era.
  destruct (Z.ltb_spec mp 10) as [Hmp|Hmp].
  - replace (mp + 3 <=? 2)%Z with false by (symmetry; apply Z.leb_gt; lia).
    replace ((yoe + era * 400 + 0) / 400)%Z with era
      by (apply Z.div_unique with (r := yoe); lia).
    replace (yoe + era * 400 + 0 - era * 400)%Z with yoe by lia.
    replace (mp + 3 - 3)%Z with mp by lia.
    repeat split; lia.
  - replace (mp - 9 <=? 2)%Z with true by (symmetry; apply Z.leb_le; lia).
    replace ((yoe + era * 400 + 1 - 1) / 400)%Z with era
      by (apply Z.div_unique with (r := yoe); lia).
    replace (yoe + era * 400 + 1 - 1 - era * 400)%Z with yoe by lia.
    replace (mp - 9 + 9)%Z with mp by lia.
    repeat split; lia.
Qed.

Lemma digits_tail c s : digits (String c s) -> digits s.
Proof.
  unfold digits. cbn [NilEmpty.uint_of_string].
  destruct (NilEmpty.uint_of_string s); [discriminate|].
  intros H. exfalso. apply H. reflexivity.
Qed.

Lemma digit_ends_no_field c s x :
  digits (String c s) -> ends_field (String c x) -> False.
Proof.
  unfold digits. cbn [NilEmpty.uint_of_string ends_field].
  destruct (NilEmpty.uint_of_string s) as [d|]; intros H He.
  - apply H, He.
  - apply H. reflexivity.
Qed.

(** A field of digits is delimited by what follows it. *)
Lemma split_field a : forall a' x x',
  digits a -> digits a' -> ends_field x -> ends_field x' ->
  (a ++ x = a' ++ x')%string -> a = a' /\ x = x'.
Proof.
  induction a as [|c a IH]; intros [|c' a'] x x' Ha Ha' Hx Hx' H.
  - split; [reflexivity | exact H].
  - exfalso. change (x = String c' (a' ++ x')%string) in H. subst x.
    exact (digit_ends_no_field _ _ _ Ha' Hx).
  - exfalso. change (String c (a ++ x)%string = x') in H. subst x'.
    exact (digit_ends_no_field _ _ _ Ha Hx').
  - change (String c (a ++ x)%string = String c' (a' ++ x')%string) in H.
    injection H as -> H.
    destruct (IH a' x x' (digits_tail _ _ Ha) (digits_tail _ _ Ha') Hx Hx' H)
      as [-> ->].
    split; reflexivity.
Qed.

Lemma to_uint_not_nil n : Nat.to_uint n <> Nil.
Proof.
  intros H. pose proof (Unsigned.of_to n) as Hn. rewrite H in Hn.
  cbn in Hn. subst n. discriminate H.
Qed.

Lemma str_of_nat_uint n :
  NilEmpty.uint_of_string (str_of_nat n) = Some (Nat.to_uint n).
Proof.
  unfold str_of_nat, NilZero.string_of_uint.
  pose proof (to_uint_not_nil n) as Hn.
  destruct (Nat.to_uint n) eqn:E; try contradiction; rewrite <- E at 2;
    rewrite <- NilEmpty.usu; rewrite E; reflexivity.
Qed.

Lemma zeros_uint k s d :
  NilEmpty.uint_of_string s = Some d ->
  exists d',
    NilEmpty.uint_of_string
      (string_of_list_ascii (repeat "0"%char k) ++ s)%string = Some d'
    /\ Nat.of_uint d' = Nat.of_uint d.
Proof.
  intros Hs. induction k as [|k (d' & Hd' & Hv)].
  - exists d. split; [exact Hs | reflexivity].
  - exists (D0 d'). split; [|exact Hv].
    change (uint_of_char "0"%char
              (NilEmpty.uint_of_string
                 (string_of_list_ascii (repeat "0"%char k) ++ s)%string)
            = Some (D0 d')).
    rewrite Hd'. reflexivity.
Qed.

(** A padded number is a field of digits that stands for the number. *)
Lemma pad_field width n :
  digits (pad width n) /\ field_value (pad width n) = Z.to_nat n.
Proof.
  unfold pad, digits, field_value.
  destruct (zeros_uint (width - String.length (str_of_nat (Z.to_nat n)))
              _ _ (str_of_nat_uint (Z.to_nat n))) as (d' & Hd' & Hv).
  rewrite Hd'. split; [discriminate|].
  rewrite Hv. apply Unsigned.of_to.
Qed.

Lemma pad_inj w a b x x' :
  (0 <= a)%Z -> (0 <= b)%Z -> ends_field x -> ends_field x' ->
  (pad w a ++ x = pad w b ++ x')%string -> a = b /\ x = x'.
Proof.
  intros Ha Hb Hx Hx' H.
  destruct (pad_field w a) as [Hda Hva], (pad_field w b) as [Hdb Hvb].
  destruct (split_field _ _ _ _ Hda Hdb Hx Hx' H) as [Hp ->].
  split; [|reflexivity]. rewrite Hp in Hva. lia.
Qed.

(** Two datetimes of Python with the same ISO text are the same. *)
Lemma isoformat_inj t1 t2 :
  (datetime_min <= t1)%Z -> (datetime_min <= t2)%Z ->
  isoformat t1 = isoformat t2 -> t1 = t2.
Proof.
  unfold datetime_min, isoformat, timedelta_days.
  change (1 * 86400 * 1000000)%Z with 86400000000%Z.
  intros H1 H2.
  pose proof (days_of_civil_of_days (t1 / 86400000000)) as C1.
  pose proof (days_of_civil_of_days (t2 / 86400000000)) as C2.
  destruct (civil_of_days (t1 / 86400000000)) as [[y1 m1] d1].
  destruct (civil_of_days (t2 / 86400000000)) as [[y2 m2] d2].
  destruct C1 as (D1 & Hm1 & Hd1 & Hy1), C2 as (D2 & Hm2 & Hd2 & Hy2).
  assert (Hy1' : (0 <= y1)%Z)
    by (apply Hy1; apply Z.div_le_lower_bound; lia).
  assert (Hy2' : (0 <= y2)%Z)
    by (apply Hy2; apply Z.div_le_lower_bound; lia).
  cbv zeta.
  set (u1 := (t1 mod 86400000000)%Z). set (u2 := (t2 mod 86400000000)%Z).
  assert (Hu1 : (0 <= u1 < 86400000000)%Z)
    by (apply Z.mod_pos_bound; lia).
  assert (Hu2 : (0 <= u2 < 86400000000)%Z)
    by (apply Z.mod_pos_bound; lia).
  assert (Ht1 : (t1 = 86400000000 * (t1 / 86400000000) + u1)%Z)
    by (apply Z.div_mod; lia).
  assert (Ht2 : (t2 = 86400000000 * (t2 / 86400000000) + u2)%Z)
    by (apply Z.div_mod; lia).
  clearbody u1 u2.
  intros H.
  apply pad_inj in H; [|lia|lia|(intros d; reflexivity) ..].
  destruct H as [Hy H]. injection H as H.
  apply pad_inj in H; [|lia|lia|(intros d; reflexivity) ..].
  destruct H as [Hm H]. injection H as H.
  apply pad_inj in H; [|lia|lia|(intros d; reflexivity) ..].
  destruct H as [Hd H]. injection H as H.
  apply pad_inj in H;
    [ | (apply Z.div_pos; [apply Z.div_pos|]; lia)
      | (apply Z.div_pos; [apply Z.div_pos|]; lia)
      | (intros d; reflexivity) ..].
  destruct H as [Hh H]. injection H as H.
  apply pad_inj in H;
    [ | (apply Z.mod_pos_bound; lia) | (apply Z.mod_pos_bound; lia)
      | (intros d; reflexivity) ..].
  destruct H as [Hmi H]. injection H as H.
  apply pad_inj in H;
    [ | (apply Z.mod_pos_bound; lia) | (apply Z.mod_pos_bound; lia) | | ].
  2,3: match goal with
       | |- ends_field (if ?b then _ else _) =>
           destruct b; [exact I | intros d; reflexivity]
       end.
  destruct H as [Hs H].
  assert (Hus : (u1 mod 1000000 = u2 mod 1000000)%Z).
  { destruct (Z.eqb_spec (u1 mod 1000000) 0) as [E1|E1],
             (Z.eqb_spec (u2 mod 1000000) 0) as [E2|E2];
      try discriminate H; [congruence|].
    injection H as H.
    assert (H' : (pad 6 (u1 mod 1000000) ++ ""
                  = pad 6 (u2 mod 1000000) ++ "")%string)
      by (f_equal; exact H).
    apply pad_inj in H';
      [ apply H' | (apply Z.mod_pos_bound; lia)
        | (apply Z.mod_pos_bound; lia) | exact I | exact I ]. }
  assert (Hday : (t1 / 86400000000 = t2 / 86400000000)%Z).
  { rewrite <- D1, <- D2, Hy, Hm, Hd. reflexivity. }
  assert (Hu : u1 = u2).
  { clear - Hh Hmi Hs Hus Hu1 Hu2. Z.div_mod_to_equations. lia. }
  lia.
Qed.

(** ** The calls of the collector in a run *)

Lemma since_of_inj t1 t2 :
  (datetime_min + timedelta_days 90 <= t1)%Z ->
  (datetime_min + timedelta_days 90 <= t2)%Z ->
  since_of t1 = since_of t2 -> t1 = t2.
Proof.
  unfold since_of. intros H1 H2 H.
  apply isoformat_inj in H; lia.
Qed.

Lemma invocation_times_later clk : forall pages n,
  Forall (fun t => exists k, n <= k /\ t = clk k)
    (invocation_times clk n pages).
Proof.
  induction pages as [|p pages IH]; intros n; cbn [invocation_times].
  - constructor.
  - constructor; [exists n; split; [lia | reflexivity]|].
    eapply Forall_impl; [|apply (IH (n + p))].
    intros t (k & Hk & ->). exists k. split; [lia | reflexivity].
Qed.

Lemma invocation_times_sorted clk : advancing clk -> forall pages n,
  Forall (le 1) pages ->
  StronglySorted Z.lt (invocation_times clk n pages).
Proof.
  intros Hclk. induction pages as [|p pages IH]; intros n Hpages;
    cbn [invocation_times].
  - constructor.
  - inversion Hpages as [|? ? Hp Hrest]; subst.
    constructor; [apply IH, Hrest|].
    eapply Forall_impl; [|apply (invocation_times_later clk pages (n + p))].
    intros t (k & Hk & ->). apply Hclk. lia.
Qed.

Lemma sorted_shift (k : Z) (times : list Z) :
  StronglySorted Z.lt times ->
  StronglySorted Z.lt (map (fun t => (t - k)%Z) times).
Proof.
  induction 1 as [|t times Hsorted IH Hlt]; cbn [map]; constructor.
  - exact IH.
  - apply Forall_map. eapply Forall_impl; [|exact Hlt].
    intros t' Ht'. cbv beta. lia.
Qed.

Lemma sorted_cutoffs_differ (times : list Z) :
  StronglySorted Z.lt times ->
  Forall (fun t => (datetime_min + timedelta_days 90 <= t)%Z) times ->
  NoDup (map since_of times).
Proof.
  induction 1 as [|t times Hsorted IH Hlt]; intros Hmin; cbn [map].
  - constructor.
  - inversion Hmin as [|? ? Ht Hrest]; subst.
    constructor; [|apply IH, Hrest].
    intros Hin. apply in_map_iff in Hin. destruct Hin as (t' & Heq & Hin').
    pose proof (proj1 (Forall_forall _ _) Hlt t' Hin') as Hlt'.
    pose proof (proj1 (Forall_forall _ _) Hrest t' Hin') as Ht'.
    apply since_of_inj in Heq; [lia | assumption | assumption].
Qed.

Lemma invocation_times_from clk : advancing clk -> forall pages n,
  Forall (fun t => (clk n <= t)%Z) (invocation_times clk n pages).
Proof.
  intros Hclk pages n.
  eapply Forall_impl; [|apply invocation_times_later].
  intros t (k & Hk & ->).
  destruct (Nat.eq_dec n k) as [->|Hne]; [lia|].
  apply Z.lt_le_incl, Hclk. lia.
Qed.

Section Calls.

Context {py : PyRuntime}.
Variable args : Args.

Lemma length_collector_requests repo t n :
  List.length (collector_requests args repo t n) = n.
Proof. unfold collector_requests. rewrite length_map. apply length_seq. Qed.

Lemma loop_requests_done repos :
  loop_requests args repos [] [] = [].
Proof. destruct repos; reflexivity. Qed.

(** A call of the collector on any feed. *)
Lemma collector_call repo w :
  let r := get_recent_contributors (org args) repo (token args)
             (github_url args) (debug args) w in
  exists n,
    final r = after_requests (collector_requests args repo (now w) n)
                (skipn n (feed w)) w
    /\ (feed w <> [] -> 1 <= n)
    /\ (forall cs, res r = Returned cs -> 1 <= n).
Proof.
  cbv zeta.
  destruct (get_recent_contributors_any (org args) repo (token args)
              (github_url args) (debug args) w) as (n & _ & Hf & _ & Hfirst).
  exists n. split; [exact Hf|]. split; [exact Hfirst|].
  intros cs Hcs. apply Hfirst.
  apply (get_recent_contributors_returned _ _ _ _ _ _ _ Hcs).
Qed.

(** The aggregation loop on any feed, call by call. *)
Lemma aggregate_calls repos : forall d w,
  exists pages,
    List.length pages <= List.length repos
    /\ requests (final (aggregate args repos d w))
       = requests w
         ++ loop_requests args repos
              (invocation_times (clock w) (List.length (requests w)) pages)
              pages
    /\ (forall d', res (aggregate args repos d w) = Returned d' ->
          List.length pages = List.length repos /\ Forall (le 1) pages).
Proof.
  induction repos as [|repo rest IH]; intros d w.
  - exists []. cbn [List.length loop_requests invocation_times aggregate
                      for_loop ret final].
    rewrite app_nil_r. repeat split; [lia | constructor].
  - destruct (collector_call repo w) as (n & Hf & _ & Hret).
    cbv zeta in Hf, Hret.
    destruct (res (get_recent_contributors (org args) repo (token args)
                     (github_url args) (debug args) w)) as [cs|e|] eqn:Ecs.
    + destruct (aggregate_step args repo rest d w cs Ecs) as [Hres Hfin].
      cbv zeta in Hres, Hfin. rewrite Hres, Hfin, Hf.
      destruct (IH (tally_one (set_iter cs) d)
                  (after_requests (collector_requests args repo (now w) n)
                     (skipn n (feed w)) w))
        as (pages & Hlen & Hreqs & Hreturned).
      cbn [after_requests requests clock] in Hreqs.
      fold (after_requests (collector_requests args repo (now w) n)
              (skipn n (feed w)) w) in Hreqs.
      rewrite length_app, length_collector_requests in Hreqs.
      exists (n :: pages). cbn [List.length invocation_times loop_requests].
      split; [lia|]. split.
      * rewrite Hreqs, <- app_assoc. reflexivity.
      * intros d' Hd'. destruct (Hreturned d' Hd') as [Hl Hp].
        split; [lia|]. constructor; [apply (Hret cs eq_refl) | exact Hp].
    + destruct (aggregate_stop args repo rest d w) as (Hnot & Hfin & _).
      { intros cs. rewrite Ecs. discriminate. }
      rewrite Hfin, Hf. exists [n].
      cbn [List.length invocation_times loop_requests after_requests requests].
      rewrite loop_requests_done, app_nil_r.
      split; [lia|]. split; [reflexivity|].
      intros d' Hd'. exfalso. exact (Hnot d' Hd').
    + destruct (aggregate_stop args repo rest d w) as (Hnot & Hfin & _).
      { intros cs. rewrite Ecs. discriminate. }
      rewrite Hfin, Hf. exists [n].
      cbn [List.length invocation_times loop_requests after_requests requests].
      rewrite loop_requests_done, app_nil_r.
      split; [lia|]. split; [reflexivity|].
      intros d' Hd'. exfalso. exact (Hnot d' Hd').
Qed.

End Calls.

(** C9.  The cutoff of the [since] parameter is the time read when the
    collector is called, minus 90 days, in ISO format.  A call that gets a
    response at all issues a request, and all its requests carry the cutoff
    of the time at which the call began.  In the aggregation loop the
    requests are, repository by repository, those of a call of the collector
    that reads the clock after every request of the repositories before it:
    the cutoff is not fixed when the run starts.  When the loop returns,
    every entry of the list has had its call and each call has issued a
    request; with a clock that advances the cutoffs of the calls are then
    strictly increasing, and the texts sent for any two entries of the list
    are different as soon as the first cutoff is a datetime of Python (not
    before [datetime.min]).  These requests of the loop are those a run
    issues after its listing. *)
Theorem cutoff_is_recomputed_for_each_repository {py : PyRuntime}
    (args : Args) :
  (forall t, since_of t = isoformat (t - 90 * 86400 * 1000000))
  /\ (forall repo w,
        let r := get_recent_contributors (org args) repo (token args)
                   (github_url args) (debug args) w in
        exists n,
          requests (final r)
          = requests w ++ collector_requests args repo (now w) n
          /\ (feed w <> [] -> 1 <= n)
          /\ (forall cs, res r = Returned cs -> 1 <= n))
  /\ (forall listed counts w,
        let r := aggregate args listed counts w in
        exists pages,
          let times := invocation_times (clock w) (List.length (requests w))
                         pages in
          List.length pages <= List.length listed
          /\ requests (final r)
             = requests w ++ loop_requests args listed times pages
          /\ (forall counts',
                res r = Returned counts' ->
                List.length pages = List.length listed
                /\ Forall (le 1) pages
                /\ (advancing (clock w) ->
                    StronglySorted Z.lt
                      (map (fun t => (t - timedelta_days 90)%Z) times)
                    /\ ((datetime_min + timedelta_days 90 <= now w)%Z ->
                        NoDup (map since_of times)))))
  /\ (forall w listed,
        let listing := get_repositories (org args) (token args)
                         (github_url args) (exclude args) (debug args) w in
        res listing = Returned listed ->
        requests (final (main args w))
        = requests (final (aggregate args listed [] (final listing)))).
Proof.
  split; [reflexivity|]. split; [|split].
  - intros repo w. cbv zeta.
    destruct (collector_call args repo w) as (n & Hf & Hfirst & Hret).
    cbv zeta in Hf, Hret. exists n. rewrite Hf. repeat split; assumption.
  - intros listed counts w. cbv zeta.
    destruct (aggregate_calls args listed counts w)
      as (pages & Hlen & Hreqs & Hreturned).
    exists pages. split; [exact Hlen|]. split; [exact Hreqs|].
    intros counts' Hres. destruct (Hreturned counts' Hres) as [Hl Hp].
    split; [exact Hl|]. split; [exact Hp|].
    intros Hclk.
    pose proof (invocation_times_sorted (clock w) Hclk pages
                  (List.length (requests w)) Hp) as Hsorted.
    split; [apply sorted_shift, Hsorted|].
    intros Hmin. apply sorted_cutoffs_differ; [exact Hsorted|].
    eapply Forall_impl;
      [|apply (invocation_times_from (clock w) Hclk pages
                 (List.length (requests w)))].
    intros t Ht. cbv beta in Ht. unfold now in Hmin. lia.
  - intros w listed. cbv zeta. intros Hl.
    pose proof (main_after_listing args w) as Hmain.
    cbv beta zeta in Hmain. rewrite Hl in Hmain. apply Hmain.
Qed.

(** The scenario of the specification under a clock that ticks once per
    request: the collections of [api] and [web] begin at different times and
    send different cutoffs. *)
Lemma cutoff_is_recomputed_for_each_repository_witness :
  let args := scenario_args in
  let w := final (@get_repositories ascii_runtime (org args) (token args)
                    (github_url args) (exclude args) (debug args)
                    scenario_world) in
  exists pages,
    let times := invocation_times ticking 2 pages in
    requests (final (@aggregate ascii_runtime args ["api"; "web"] [] w))
    = requests w ++ loop_requests args ["api"; "web"] times pages
    /\ List.length pages = 2
    /\ StronglySorted Z.lt (map (fun t => (t - timedelta_days 90)%Z) times)
    /\ NoDup (map since_of times).
Proof.
  intros args w.
  destruct (proj1 (proj2 (proj2 (@cutoff_is_recomputed_for_each_repository
                                   ascii_runtime args))) ["api"; "web"] [] w)
    as (pages & _ & Hreqs & Hreturned).
  destruct (Hreturned [("alice", 2); ("bob", 1)])
    as (Hlen & _ & Hdrift); [vm_compute; reflexivity|].
  destruct Hdrift as [Hsorted Hdiffer].
  { change (advancing ticking). intros i j Hij. unfold ticking. lia. }
  exists pages. split; [exact Hreqs|]. split; [exact Hlen|].
  split; [exact Hsorted|]. apply Hdiffer. vm_compute. discriminate.
Defined.

(** With a clock that advances, the cutoff differs from one repository to
    the next. *)
Example cutoff_drifts_between_repositories :
  map req_url
    (skipn 2 (requests (final (@main ascii_runtime scenario_args
                                 scenario_world))))
  = [ "https://api.github.com/repos/acme/api/commits?since=2026-08-05T10:00:02&page=1&per_page=100";
      "https://api.github.com/repos/acme/api/commits?since=2026-08-05T10:00:02&page=2&per_page=100";
      "https://api.github.com/repos/acme/web/commits?since=2026-08-05T10:00:04&page=1&per_page=100";
      "https://api.github.com/repos/acme/web/commits?since=2026-08-05T10:00:04&page=2&per_page=100" ].
Proof. vm_compute. reflexivity. Qed.
